(** * go-google-contacts: credential manager, directory client and entry codec

    A shallow embedding of the Go package [contacts]:
    - [contacts/auth.go]: [AuthDetails], the [AuthStorage],
      [AccessTokenRetriever] and [AuthManager] interfaces and
      [StandardAuthManager];
    - the directory client that sends the access token in an
      [Authorization: Bearer] header (with [FetchContactImage],
      [FetchGroups] and [ContactQuery]), module [Contacts];
    - the earlier client that sends the access token as the
      [access_token] query parameter, module [ContactsV1];
    - the entry codec: [encoding/xml]'s marshaller specialised to the
      struct tags of [Entry], followed by the textual pass [fixXml].

    Go strings are byte strings: they are modelled by [string], whose
    characters are the 256 values of [ascii].  A Go function returning
    [(T, error)] returns a pair whose second component is an
    [option error] ([None] is [nil]).  A run-time panic (nil dereference,
    slice out of range) is the [None] outcome of the monad [M]. *)

From Stdlib Require Import String Ascii List ZArith NArith Lia Bool Arith DecimalString.
Import ListNotations.
Open Scope list_scope.
Open Scope string_scope.

Set Implicit Arguments.

(** ** Go errors *)

(** An [error] value is represented by its message. *)
Definition error := string.

Definition errors_New (msg : string) : error := msg.

(** ** Credentials ([contacts/auth.go]) *)

Record AuthDetails := mkAuthDetails {
  RefreshToken : string;
  AccessToken : string
}.

(** ** HTTP requests and responses ([net/http]) *)

(** [http.Header] maps a key to the list of its values; [Header.Add]
    appends a value to those of the key.  The model keeps the (key,
    value) pairs in the order they were added, with the keys as the
    program writes them (header names are case-insensitive on the
    wire).  *)
Definition Header := list (string * string).

Definition Header_Add (h : Header) (key value : string) : Header :=
  (h ++ [(key, value)])%list.

Fixpoint Header_Get (h : Header) (key : string) : string :=
  match h with
  | [] => ""
  | (k, v) :: h' => if String.eqb k key then v else Header_Get h' key
  end.

(** All the values recorded for a key, in order. *)
Definition Header_Values (h : Header) (key : string) : list string :=
  map snd (filter (fun kv => String.eqb (fst kv) key) h).

Record Request := mkRequest {
  Method : string;
  URL : string;
  ReqHeader : Header;
  ReqBody : string
}.

(** A response as the client reads it: its status line and code, its
    headers, and its body as the bytes a read delivers together with
    the error that ended the read, if any. *)
Record Response := mkResponse {
  Status : string;
  StatusCode : Z;
  RespHeader : Header;
  Body : string;
  BodyErr : option error
}.

(** ** Calls to the collaborators *)

(** Every call that crosses an interface is recorded, in order, with
    its arguments: the store's [Load] and [Save], the retriever's
    [Retrieve], the manager's [AccessToken] and [Renew] as called by a
    client, and the transport's [Do]. *)
Inductive Call :=
| CallLoad
| CallSave (authDetails : AuthDetails)
| CallRetrieve (refreshToken : string)
| CallAccessToken
| CallRenew
| CallDo (req : Request).

Definition Trace := list Call.

(** ** The monad of effects *)

(** A computation reads the calls made so far and returns its result,
    or [None] when it panicked, with the calls made by then. *)
Definition M (A : Type) : Type := Trace -> option A * Trace.

Definition ret {A} (a : A) : M A := fun t => (Some a, t).

Definition bind {A B} (m : M A) (k : A -> M B) : M B :=
  fun t => match m t with
           | (Some a, t') => k a t'
           | (None, t') => (None, t')
           end.

Definition panic {A} : M A := fun t => (None, t).

(** [call c beh]: record the call [c], then return what the
    collaborator answers; its answer may depend on every call made so
    far, this one included. *)
Definition call {A} (c : Call) (beh : Trace -> A) : M A :=
  fun t => (Some (beh (t ++ [c])%list), (t ++ [c])%list).

Declare Scope go_scope.
Delimit Scope go_scope with go.
Notation "x <- m ;; k" := (bind m (fun x => k))
  (at level 61, m at next level, right associativity) : go_scope.
Notation "' pat <- m ;; k" := (bind m (fun x => match x with pat => k end))
  (at level 61, pat pattern, m at next level, right associativity) : go_scope.
Open Scope go_scope.

(** ** The interfaces of [contacts/auth.go] *)

(** [AuthStorage]: [Load] returns a pointer to an [AuthDetails] and an
    error, [Save] takes such a pointer and returns an error.  [Load]
    may return a nil pointer ([None]). *)
Record AuthStorage := mkAuthStorage {
  Load : Trace -> option AuthDetails * option error;
  Save : AuthDetails -> Trace -> option error
}.

(** [AccessTokenRetriever]: [Retrieve(refreshToken string) (string, error)]. *)
Record AccessTokenRetriever := mkAccessTokenRetriever {
  Retrieve : string -> Trace -> string * option error
}.

(** [AuthManager]: [AccessToken() (string, error)] and
    [Renew() (string, error)]. *)
Record AuthManager := mkAuthManager {
  AuthManager_AccessToken : M (string * option error);
  AuthManager_Renew : M (string * option error)
}.

Definition AuthStorage_Load (s : AuthStorage) : M (option AuthDetails * option error) :=
  call CallLoad (Load s).

Definition AuthStorage_Save (s : AuthStorage) (authDetails : AuthDetails) : M (option error) :=
  call (CallSave authDetails) (Save s authDetails).

Definition AccessTokenRetriever_Retrieve (r : AccessTokenRetriever) (refreshToken : string)
  : M (string * option error) :=
  call (CallRetrieve refreshToken) (Retrieve r refreshToken).

(** ** [StandardAuthManager] *)

Record StandardAuthManager := mkStandardAuthManager {
  SAM_AccessTokenRetriever : AccessTokenRetriever;
  SAM_AuthStorage : AuthStorage
}.

(** [authDetails] is the record the pointer designates when the helper
    is entered; the assignment [authDetails.AccessToken = accessToken]
    yields the record handed to [Save]. *)
Definition exchangeRefreshTokenForAccessTokenAndStore
    (m : StandardAuthManager) (authDetails : AuthDetails) : M (string * option error) :=
  if String.eqb (RefreshToken authDetails) "" then
    ret ("", Some (errors_New "no refresh token provided"))
  else
    '(accessToken, err) <- AccessTokenRetriever_Retrieve (SAM_AccessTokenRetriever m)
                             (RefreshToken authDetails) ;;
    match err with
    | Some e => ret ("", Some e)
    | None =>
        let authDetails := mkAuthDetails (RefreshToken authDetails) accessToken in
        _ <- AuthStorage_Save (SAM_AuthStorage m) authDetails ;;
        ret (accessToken, None)
    end.

Definition StandardAuthManager_AccessToken (m : StandardAuthManager) : M (string * option error) :=
  '(authDetails, err) <- AuthStorage_Load (SAM_AuthStorage m) ;;
  match err with
  | Some e => ret ("", Some e)
  | None =>
      match authDetails with
      | None => panic
      | Some authDetails =>
          if negb (String.eqb (AccessToken authDetails) "") then
            ret (AccessToken authDetails, None)
          else
            exchangeRefreshTokenForAccessTokenAndStore m authDetails
      end
  end.

Definition StandardAuthManager_Renew (m : StandardAuthManager) : M (string * option error) :=
  '(authDetails, err) <- AuthStorage_Load (SAM_AuthStorage m) ;;
  match err with
  | Some e => ret ("", Some e)
  | None =>
      match authDetails with
      | None => panic
      | Some authDetails =>
          let authDetails := mkAuthDetails (RefreshToken authDetails) "" in
          exchangeRefreshTokenForAccessTokenAndStore m authDetails
      end
  end.

(** A pointer to a [StandardAuthManager] implements [AuthManager]. *)
Definition StandardAuthManager_AuthManager (m : StandardAuthManager) : AuthManager :=
  mkAuthManager (StandardAuthManager_AccessToken m) (StandardAuthManager_Renew m).

(** ** Go's standard library: strings, UTF-8, query strings, formatting *)

(** Characters that a string literal cannot hold. *)
Definition char_quot : ascii := ascii_of_nat 34.
Definition char_lf : ascii := ascii_of_nat 10.
Definition str_quot : string := String char_quot "".
Definition str_lf : string := String char_lf "".

(** [len(s)] *)
Definition len (s : string) : Z := Z.of_nat (String.length s).

(** [s[lo:hi]]: panics unless [0 <= lo <= hi <= len(s)]. *)
Definition slice (s : string) (lo hi : Z) : option string :=
  if ((0 <=? lo) && (lo <=? hi) && (hi <=? len s))%Z
  then Some (substring (Z.to_nat lo) (Z.to_nat (hi - lo)) s)
  else None.

(** [strings.HasPrefix(s, prefix)] *)
Fixpoint strings_HasPrefix (s prefix : string) {struct prefix} : bool :=
  match prefix with
  | "" => true
  | String a prefix' =>
      match s with
      | "" => false
      | String b s' => Ascii.eqb a b && strings_HasPrefix s' prefix'
      end
  end.

(** [strings.LastIndex(s, substr)]: the index of the last instance of
    [substr] in [s], or -1.  [i] is the index of the first byte of
    [s] in the whole string, [found] the last instance seen before it. *)
Fixpoint LastIndex_from (s substr : string) (i found : Z) : Z :=
  let found := if strings_HasPrefix s substr then i else found in
  match s with
  | "" => found
  | String _ s' => LastIndex_from s' substr (i + 1) found
  end.

Definition strings_LastIndex (s substr : string) : Z :=
  LastIndex_from s substr 0 (-1).

(** [strings.Replace(s, old, new, -1)] for a non-empty [old]: every
    non-overlapping instance of [old], from the left, becomes [new].
    [skip] counts the bytes of an instance still to be dropped. *)
Fixpoint Replace_go (old new s : string) (skip : nat) : string :=
  match s with
  | "" => ""
  | String c s' =>
      match skip with
      | S k => Replace_go old new s' k
      | O =>
          if strings_HasPrefix s old
          then new ++ Replace_go old new s' (String.length old - 1)
          else String c (Replace_go old new s' 0)
      end
  end.

Definition strings_Replace (s old new : string) : string :=
  Replace_go old new s 0.

(** *** [strings.NewReplacer(oldnew...).Replace(s)] *)

(** The arguments are old/new pairs.  [NewReplacer] panics on an odd
    number of arguments. *)
Fixpoint oldnew_pairs (oldnew : list string) : option (list (string * string)) :=
  match oldnew with
  | [] => Some []
  | [_] => None
  | old :: new :: rest =>
      match oldnew_pairs rest with
      | Some ps => Some ((old, new) :: ps)
      | None => None
      end
  end.

(** The pair that applies at the head of [s]: comparisons are done in
    argument order, so it is the first pair whose [old] is a prefix of
    [s]. *)
Fixpoint lookup (pairs : list (string * string)) (s : string) : option (string * string) :=
  match pairs with
  | [] => None
  | (old, new) :: rest =>
      if strings_HasPrefix s old then Some (old, new) else lookup rest s
  end.

(** Replacements are performed in the order they appear in the target
    string, without overlapping matches.  This is the generic
    replacer, which [NewReplacer] builds when some [old] has more than
    one byte and there are several pairs; every [old] is taken to be
    non-empty, as in [fixXml]. *)
Fixpoint Replace_pairs (pairs : list (string * string)) (s : string) (skip : nat) : string :=
  match s with
  | "" => ""
  | String c s' =>
      match skip with
      | S k => Replace_pairs pairs s' k
      | O =>
          match lookup pairs s with
          | Some (old, new) => new ++ Replace_pairs pairs s' (String.length old - 1)
          | None => String c (Replace_pairs pairs s' 0)
          end
      end
  end.

Definition Replacer_Replace (oldnew : list string) (s : string) : option string :=
  match oldnew_pairs oldnew with
  | Some pairs => Some (Replace_pairs pairs s 0)
  | None => None
  end.

(** *** [unicode/utf8] *)

Definition byte (c : ascii) : Z := Z.of_N (N_of_ascii c).

Definition RuneError : Z := 0xFFFD.

(** [utf8.DecodeRune(p)]: the first rune of [p] and its width in
    bytes; [(RuneError, 0)] for an empty [p], [(RuneError, 1)] for an
    invalid encoding. *)
Definition utf8_DecodeRune (p : string) : Z * nat :=
  match p with
  | "" => (RuneError, 0%nat)
  | String c0 p1 =>
      let p0 := byte c0 in
      if (p0 <? 0x80)%Z then (p0, 1%nat)
      else if ((p0 <? 0xC2) || (0xF4 <? p0))%Z then (RuneError, 1%nat)
      else
        let sz := if (p0 <? 0xE0)%Z then 2%nat else if (p0 <? 0xF0)%Z then 3%nat else 4%nat in
        let lo := if (p0 =? 0xE0)%Z then 0xA0%Z else if (p0 =? 0xF0)%Z then 0x90%Z else 0x80%Z in
        let hi := if (p0 =? 0xED)%Z then 0x9F%Z else if (p0 =? 0xF4)%Z then 0x8F%Z else 0xBF%Z in
        if (String.length p <? sz)%nat then (RuneError, 1%nat)
        else
          match p1 with
          | "" => (RuneError, 1%nat)
          | String c1 p2 =>
              let b1 := byte c1 in
              if ((b1 <? lo) || (hi <? b1))%Z then (RuneError, 1%nat)
              else if (sz <=? 2)%nat then
                (Z.lor (Z.shiftl (Z.land p0 0x1F) 6) (Z.land b1 0x3F), 2%nat)
              else
                match p2 with
                | "" => (RuneError, 1%nat)
                | String c2 p3 =>
                    let b2 := byte c2 in
                    if ((b2 <? 0x80) || (0xBF <? b2))%Z then (RuneError, 1%nat)
                    else if (sz <=? 3)%nat then
                      (Z.lor (Z.lor (Z.shiftl (Z.land p0 0x0F) 12)
                                    (Z.shiftl (Z.land b1 0x3F) 6))
                             (Z.land b2 0x3F), 3%nat)
                    else
                      match p3 with
                      | "" => (RuneError, 1%nat)
                      | String c3 _ =>
                          let b3 := byte c3 in
                          if ((b3 <? 0x80) || (0xBF <? b3))%Z then (RuneError, 1%nat)
                          else
                            (Z.lor (Z.lor (Z.lor (Z.shiftl (Z.land p0 0x07) 18)
                                                 (Z.shiftl (Z.land b1 0x3F) 12))
                                          (Z.shiftl (Z.land b2 0x3F) 6))
                                   (Z.land b3 0x3F), 4%nat)
                      end
                end
          end
  end.

(** *** [net/url] *)

Definition is_alnum (c : ascii) : bool :=
  let b := byte c in
  ((0x30 <=? b) && (b <=? 0x39) || (0x41 <=? b) && (b <=? 0x5A)
   || (0x61 <=? b) && (b <=? 0x7A))%Z.

(** [shouldEscape(c, encodeQueryComponent)] *)
Definition shouldEscape (c : ascii) : bool :=
  if is_alnum c then false
  else if (Ascii.eqb c "-" || Ascii.eqb c "_" || Ascii.eqb c "." || Ascii.eqb c "~")%char
  then false
  else true.

Definition upperhex (n : Z) : ascii :=
  if (n <? 10)%Z then ascii_of_N (Z.to_N (0x30 + n))
  else ascii_of_N (Z.to_N (0x41 + (n - 10))).

(** [url.QueryEscape(s)] *)
Fixpoint url_QueryEscape (s : string) : string :=
  match s with
  | "" => ""
  | String c s' =>
      if shouldEscape c then
        if Ascii.eqb c " " then String "+" (url_QueryEscape s')
        else String "%" (String (upperhex (Z.shiftr (byte c) 4))
                        (String (upperhex (Z.land (byte c) 15)) (url_QueryEscape s')))
      else String c (url_QueryEscape s')
  end.

(** [url.Values], restricted to what the clients do with it: every key
    is [Set], so it holds one value. *)
Definition Values := list (string * string).

(** [Values.Set(key, value)] *)
Fixpoint Values_Set (v : Values) (key value : string) : Values :=
  match v with
  | [] => [(key, value)]
  | (k, x) :: v' =>
      if String.eqb k key then (key, value) :: v' else (k, x) :: Values_Set v' key value
  end.

Fixpoint insert_sorted (kv : string * string) (l : Values) : Values :=
  match l with
  | [] => [kv]
  | kv' :: l' =>
      match String.compare (fst kv) (fst kv') with
      | Gt => kv' :: insert_sorted kv l'
      | _ => kv :: l
      end
  end.

Definition sort_by_key (v : Values) : Values :=
  fold_right insert_sorted [] v.

Fixpoint encode_sorted (v : Values) : string :=
  match v with
  | [] => ""
  | [(k, x)] => url_QueryEscape k ++ "=" ++ url_QueryEscape x
  | (k, x) :: v' => url_QueryEscape k ++ "=" ++ url_QueryEscape x ++ "&" ++ encode_sorted v'
  end.

(** [Values.Encode()]: the pairs [key=value], sorted by key, joined
    by [&]. *)
Definition Values_Encode (v : Values) : string :=
  encode_sorted (sort_by_key v).

(** *** [fmt] *)

(** [fmt.Sprintf("%d", n)] *)
Definition Sprintf_d (n : Z) : string :=
  NilZero.string_of_int (Z.to_int n).

(** ** [encoding/xml]: the marshaller *)

(** [xml.Name] *)
Record xml_Name := mkxml_Name {
  Space : string;
  Local : string
}.

(** [isInCharacterRange(r)]: the runes XML allows in a document. *)
Definition isInCharacterRange (r : Z) : bool :=
  ((r =? 0x09) || (r =? 0x0A) || (r =? 0x0D)
   || (0x20 <=? r) && (r <=? 0xD7FF)
   || (0xE000 <=? r) && (r <=? 0xFFFD)
   || (0x10000 <=? r) && (r <=? 0x10FFFF))%Z.

(** The UTF-8 encoding of U+FFFD. *)
Definition escFFFD : string :=
  String (ascii_of_nat 239) (String (ascii_of_nat 191) (String (ascii_of_nat 189) "")).

(** The replacement [escapeText] writes for a rune of the given width,
    if it writes one. *)
Definition escape_rune (r : Z) (width : nat) : option string :=
  if (r =? 34)%Z then Some "&#34;"
  else if (r =? 39)%Z then Some "&#39;"
  else if (r =? 38)%Z then Some "&amp;"
  else if (r =? 60)%Z then Some "&lt;"
  else if (r =? 62)%Z then Some "&gt;"
  else if (r =? 9)%Z then Some "&#x9;"
  else if (r =? 10)%Z then Some "&#xA;"
  else if (r =? 13)%Z then Some "&#xD;"
  else if negb (isInCharacterRange r) || ((r =? 0xFFFD)%Z && (width =? 1)%nat)
  then Some escFFFD
  else None.

(** [escapeText(w, s, true)]: the text is read rune by rune; a rune
    with a replacement is written as its replacement, any other as
    its own bytes.  [skip] counts the bytes of the current rune still
    to be passed. *)
Fixpoint escapeText_from (s : string) (skip : nat) : string :=
  match s with
  | "" => ""
  | String _ s' =>
      match skip with
      | S k => escapeText_from s' k
      | O =>
          let (r, width) := utf8_DecodeRune s in
          match escape_rune r width with
          | Some esc => esc
          | None => substring 0 width s
          end ++ escapeText_from s' (width - 1)
      end
  end.

(** [xml.EscapeText] and the printer's [EscapeString] write the same
    text. *)
Definition EscapeText (s : string) : string := escapeText_from s 0.
Definition EscapeString (s : string) : string := escapeText_from s 0.

(** What the marshaller hands to the printer: [writeStart] of an
    element with its attributes, [writeEnd], and character data.  The
    struct tags of this package name no namespace, so a name is its
    local part. *)
Inductive Token :=
| StartElement (name : string) (attr : list (string * string))
| EndElement (name : string)
| CharData (data : string).

(** The printer's indentation state; the buffer is the text written. *)
Record printer := mkprinter {
  prefix_ : string;
  indent : string;
  depth : nat;
  indentedIn : bool;
  putNewline : bool
}.

Fixpoint repeat_string (s : string) (n : nat) : string :=
  match n with
  | O => ""
  | S k => s ++ repeat_string s k
  end.

(** [p.writeIndent(depthDelta)] *)
Definition writeIndent (depthDelta : Z) (p : printer) : string * printer :=
  if ((String.length (prefix_ p) =? 0) && (String.length (indent p) =? 0))%nat then ("", p)
  else
    let p1 :=
      if (depthDelta <? 0)%Z
      then mkprinter (prefix_ p) (indent p) (depth p - 1) (indentedIn p) (putNewline p)
      else p in
    if ((depthDelta <? 0)%Z && indentedIn p1)%bool
    then ("", mkprinter (prefix_ p1) (indent p1) (depth p1) false (putNewline p1))
    else
      let p2 :=
        if (depthDelta <? 0)%Z
        then mkprinter (prefix_ p1) (indent p1) (depth p1) false (putNewline p1)
        else p1 in
      let nl := if putNewline p2 then str_lf else "" in
      let p3 := mkprinter (prefix_ p2) (indent p2) (depth p2) (indentedIn p2) true in
      let out := nl ++ prefix_ p3 ++ repeat_string (indent p3) (depth p3) in
      if (0 <? depthDelta)%Z
      then (out, mkprinter (prefix_ p3) (indent p3) (depth p3 + 1) true (putNewline p3))
      else (out, p3).

Fixpoint write_attrs (attr : list (string * string)) : string :=
  match attr with
  | [] => ""
  | (name, value) :: rest =>
      " " ++ name ++ "=" ++ str_quot ++ EscapeString value ++ str_quot ++ write_attrs rest
  end.

(** [p.writeStart(start)], [p.writeEnd(name)] and the writing of
    character data.  The marshaller opens and closes its elements in
    step and names every element, so the printer's checks of the tag
    stack and of empty names never fail and are left out. *)
Definition print_token (t : Token) (p : printer) : string * printer :=
  match t with
  | StartElement name attr =>
      let (ind, p') := writeIndent 1 p in
      (ind ++ "<" ++ name ++ write_attrs attr ++ ">", p')
  | EndElement name =>
      let (ind, p') := writeIndent (-1) p in
      (ind ++ "</" ++ name ++ ">", p')
  | CharData data => (EscapeText data, p)
  end.

Fixpoint print_tokens (ts : list Token) (p : printer) : string :=
  match ts with
  | [] => ""
  | t :: ts' => let (out, p') := print_token t p in out ++ print_tokens ts' p'
  end.

(** *** How [marshalValue] treats a field, by kind and struct tag *)

(** [strconv.FormatBool] *)
Definition FormatBool (b : bool) : string := if b then "true" else "false".

(** A string field tagged [name,attr]. *)
Definition attr_string (name value : string) : list (string * string) :=
  [(name, value)].

(** A string field tagged [name,attr,omitempty]: left out when empty. *)
Definition attr_string_omitempty (name value : string) : list (string * string) :=
  if (String.length value =? 0)%nat then [] else [(name, value)].

(** A bool field tagged [name,attr]. *)
Definition attr_bool (name : string) (value : bool) : list (string * string) :=
  [(name, FormatBool value)].

(** A bool field tagged [name,attr,omitempty]: left out when false. *)
Definition attr_bool_omitempty (name : string) (value : bool) : list (string * string) :=
  if negb value then [] else [(name, FormatBool value)].

(** A string field tagged [name]: an element holding the text. *)
Definition elem_string (name value : string) : list Token :=
  [StartElement name []; CharData value; EndElement name].

(** A string field tagged [name,omitempty]. *)
Definition elem_string_omitempty (name value : string) : list Token :=
  if (String.length value =? 0)%nat then [] else elem_string name value.

(** A slice field: one element per item, with no enclosing element. *)
Definition elem_slice {A} (f : A -> list Token) (l : list A) : list Token :=
  flat_map f l.

(** ** The entry model: the structs both clients share *)

Record GivenName := mkGivenName {
  GivenName_Phonetic : string;
  GivenName_Value : string
}.

Record FamilyName := mkFamilyName {
  FamilyName_Phonetic : string;
  FamilyName_Value : string
}.

Record Name := mkName {
  Name_FullName : string;
  Name_NamePrefix : string;
  Name_GivenName : GivenName;
  Name_AdditionalName : string;
  Name_FamilyName : FamilyName;
  Name_NameSuffix : string
}.

Record Email := mkEmail {
  Email_Address : string;
  Email_Primary : bool;
  Email_Label : string;
  Email_Rel : string
}.

Record When := mkWhen {
  When_StartTime : string
}.

Record Event := mkEvent {
  Event_When : When;
  Event_Label : string;
  Event_Rel : string
}.

Record Birthday := mkBirthday {
  Birthday_When : string
}.

Record Relation := mkRelation {
  Relation_Rel : string;
  Relation_Value : string
}.

Record UserDefinedField := mkUserDefinedField {
  UserDefinedField_Key : string;
  UserDefinedField_Value : string
}.

Record Website := mkWebsite {
  Website_Rel : string;
  Website_Label : string;
  Website_Href : string
}.

Record PhoneNumber := mkPhoneNumber {
  PhoneNumber_Label : string;
  PhoneNumber_Rel : string;
  PhoneNumber_Uri : string;
  PhoneNumber_Value : string
}.

Record PostalAddress := mkPostalAddress {
  PostalAddress_Rel : string;
  PostalAddress_Primary : string;
  PostalAddress_Label : string;
  PostalAddress_Value : string
}.

Record InstantMessenger := mkInstantMessenger {
  InstantMessenger_Address : string;
  InstantMessenger_Protocol : string;
  InstantMessenger_Rel : string
}.

Record ExtendedProperty := mkExtendedProperty {
  ExtendedProperty_Name : string;
  ExtendedProperty_Value : string
}.

Record Link := mkLink {
  Link_Rel : string;
  Link_Type : string;
  Link_Href : string
}.

Record Organization := mkOrganization {
  Organization_Rel : string;
  Organization_OrgName : string;
  Organization_OrgTitle : string
}.

(** *** Their marshallers

    [marshal_T name v] is [marshalValue] at a value of struct type
    [T] held in a field whose tag names the element [name]: the start
    element with the struct's attribute fields in declaration order,
    the other fields in declaration order, the end element.  A
    struct-valued field is never empty for [omitempty]. *)

Definition marshal_GivenName (name : string) (v : GivenName) : list Token :=
  [StartElement name (attr_string_omitempty "yomi" (GivenName_Phonetic v))]
  ++ [CharData (GivenName_Value v)]
  ++ [EndElement name].

Definition marshal_FamilyName (name : string) (v : FamilyName) : list Token :=
  [StartElement name (attr_string_omitempty "yomi" (FamilyName_Phonetic v))]
  ++ [CharData (FamilyName_Value v)]
  ++ [EndElement name].

Definition marshal_Name (name : string) (v : Name) : list Token :=
  [StartElement name []]
  ++ elem_string_omitempty "fullName" (Name_FullName v)
  ++ elem_string_omitempty "namePrefix" (Name_NamePrefix v)
  ++ marshal_GivenName "givenName" (Name_GivenName v)
  ++ elem_string_omitempty "additionalName" (Name_AdditionalName v)
  ++ marshal_FamilyName "familyName" (Name_FamilyName v)
  ++ elem_string_omitempty "nameSuffix" (Name_NameSuffix v)
  ++ [EndElement name].

Definition marshal_Email (name : string) (v : Email) : list Token :=
  [StartElement name
     (attr_string "address" (Email_Address v)
      ++ attr_bool_omitempty "primary" (Email_Primary v)
      ++ attr_string_omitempty "label" (Email_Label v)
      ++ attr_string_omitempty "rel" (Email_Rel v))]
  ++ [EndElement name].

Definition marshal_When (name : string) (v : When) : list Token :=
  [StartElement name (attr_string "startTime" (When_StartTime v))]
  ++ [EndElement name].

Definition marshal_Event (name : string) (v : Event) : list Token :=
  [StartElement name
     (attr_string_omitempty "label" (Event_Label v)
      ++ attr_string_omitempty "rel" (Event_Rel v))]
  ++ marshal_When "when" (Event_When v)
  ++ [EndElement name].

Definition marshal_Birthday (name : string) (v : Birthday) : list Token :=
  [StartElement name (attr_string_omitempty "when" (Birthday_When v))]
  ++ [EndElement name].

Definition marshal_Relation (name : string) (v : Relation) : list Token :=
  [StartElement name (attr_string "rel" (Relation_Rel v))]
  ++ [CharData (Relation_Value v)]
  ++ [EndElement name].

Definition marshal_UserDefinedField (name : string) (v : UserDefinedField) : list Token :=
  [StartElement name
     (attr_string "key" (UserDefinedField_Key v)
      ++ attr_string "value" (UserDefinedField_Value v))]
  ++ [EndElement name].

Definition marshal_Website (name : string) (v : Website) : list Token :=
  [StartElement name
     (attr_string_omitempty "rel" (Website_Rel v)
      ++ attr_string_omitempty "label" (Website_Label v)
      ++ attr_string "href" (Website_Href v))]
  ++ [EndElement name].

Definition marshal_PhoneNumber (name : string) (v : PhoneNumber) : list Token :=
  [StartElement name
     (attr_string_omitempty "label" (PhoneNumber_Label v)
      ++ attr_string_omitempty "rel" (PhoneNumber_Rel v)
      ++ attr_string_omitempty "uri" (PhoneNumber_Uri v))]
  ++ [CharData (PhoneNumber_Value v)]
  ++ [EndElement name].

Definition marshal_InstantMessenger (name : string) (v : InstantMessenger) : list Token :=
  [StartElement name
     (attr_string "address" (InstantMessenger_Address v)
      ++ attr_string "protocol" (InstantMessenger_Protocol v)
      ++ attr_string "rel" (InstantMessenger_Rel v))]
  ++ [EndElement name].

Definition marshal_ExtendedProperty (name : string) (v : ExtendedProperty) : list Token :=
  [StartElement name
     (attr_string "name" (ExtendedProperty_Name v)
      ++ attr_string "value" (ExtendedProperty_Value v))]
  ++ [EndElement name].

Definition marshal_Link (name : string) (v : Link) : list Token :=
  [StartElement name
     (attr_string_omitempty "rel" (Link_Rel v)
      ++ attr_string "type" (Link_Type v)
      ++ attr_string "href" (Link_Href v))]
  ++ [EndElement name].

Definition marshal_Organization (name : string) (v : Organization) : list Token :=
  [StartElement name (attr_string_omitempty "rel" (Organization_Rel v))]
  ++ elem_string_omitempty "orgName" (Organization_OrgName v)
  ++ elem_string_omitempty "orgTitle" (Organization_OrgTitle v)
  ++ [EndElement name].

(** ** [encoding.TextMarshaler] and [encoding.TextUnmarshaler]

    [time.Time] reaches the codec through these two interfaces only:
    the type of timestamps and its text codec are parameters. *)
Class TextMarshaler (T : Type) := {
  MarshalText : T -> string * option error
}.

Class TextUnmarshaler (T : Type) := {
  UnmarshalText : string -> T * option error
}.

(** The zero value of a type. *)
Class ZeroValue (T : Type) := {
  zero_value : T
}.

(** A field whose type implements [TextMarshaler], tagged [name]: an
    element holding the escaped text, or the marshaller's error. *)
Definition elem_text {T} `{TextMarshaler T} (name : string) (v : T)
  : list Token * option error :=
  let (text, err) := MarshalText v in
  match err with
  | Some e => ([], Some e)
  | None => ([StartElement name []; CharData text; EndElement name], None)
  end.

(** ** The textual pass [fixXml]: its rule table

    Both clients declare the same [fixXml]; its table of rules is
    built here once, statement by statement. *)
Definition gdTags : list string :=
  [ "name"; "fullName"; "namePrefix"; "givenName"; "additionalName";
    "familyName"; "nameSuffix";
    "extendedProperty";
    "organization"; "orgName"; "orgTitle";
    "email"; "im"; "phoneNumber";
    "structuredPostalAddress"; "formattedAddress"; "street"; "pobox";
    "neighborhood"; "city"; "region"; "postcode"; "country";
    "when" ].

Definition gContactTags : list string :=
  [ "groupMembershipInfo"; "nickname"; "birthday"; "fileAs"; "event";
    "relation"; "userDefinedField"; "website"; "groupMembershipInfo" ].

(** The three rules a loop of [fixXml] appends for [tag]. *)
Definition tag_rules (ns tag : string) : list string :=
  [ "<" ++ tag ++ " "; "<" ++ ns ++ ":" ++ tag ++ " ";
    "<" ++ tag ++ ">"; "<" ++ ns ++ ":" ++ tag ++ ">";
    "</" ++ tag ++ ">"; "</" ++ ns ++ ":" ++ tag ++ ">" ].

Definition fixXml_rules : list string :=
  let rules : list string := [] in
  let rules := (rules ++ ["<name></name>"; ""])%list in
  let rules := (rules ++ ["<organization></organization>"; ""])%list in
  let rules := fold_left (fun rules tag => (rules ++ tag_rules "gd" tag)%list) gdTags rules in
  let rules :=
    fold_left (fun rules tag => (rules ++ tag_rules "gContact" tag)%list) gContactTags rules in
  rules.

(** ** [net/http] as the clients use it *)

(** [url.Parse], of which the clients see only whether it fails. *)
Class url_Parser := {
  url_Parse : string -> option error
}.

(** [http.NewRequest(method, url, body)]: a nil request and an error
    when the URL does not parse; the methods the clients pass are
    valid, and an empty method means GET. *)
Definition http_NewRequest `{url_Parser} (method url body : string)
  : option Request * option error :=
  match url_Parse url with
  | Some e => (None, Some e)
  | None =>
      (Some (mkRequest (if String.eqb method "" then "GET" else method) url [] body), None)
  end.

(** [req.Header.Add(key, value)] *)
Definition Request_Header_Add (req : Request) (key value : string) : Request :=
  mkRequest (Method req) (URL req) (Header_Add (ReqHeader req) key value) (ReqBody req).

(** [*http.Client]: [Do] returns a response or an error. *)
Record HTTPClient := mkHTTPClient {
  Do : Request -> Trace -> Response + error
}.

Definition HTTPClient_Do (c : HTTPClient) (req : Request) : M (Response + error) :=
  call (CallDo req) (Do c req).

(** Dereferencing a pointer: a nil pointer panics. *)
Definition deref {A} (p : option A) : M A :=
  match p with
  | Some a => ret a
  | None => panic
  end.

(** A client's calls to its [AuthManager]. *)
Definition call_AccessToken (am : AuthManager) : M (string * option error) :=
  fun t => AuthManager_AccessToken am (t ++ [CallAccessToken])%list.

Definition call_Renew (am : AuthManager) : M (string * option error) :=
  fun t => AuthManager_Renew am (t ++ [CallRenew])%list.

(** [xml.Unmarshal(data, v)], for a [v] of type [T]: the value decoded
    into [v] and the error. The decoder is a parameter of the clients. *)
Class xml_Unmarshaler (T : Type) := {
  xml_Unmarshal : string -> T -> T * option error
}.

(** * The client with bearer authorization *)

Module Contacts.

Definition groupPath := "www.google.com/m8/feeds/groups/default/full/".
Definition basePath := "www.google.com/m8/feeds/contacts/default/full/".

Record StructuredPostalAddress := mkStructuredPostalAddress {
  StructuredPostalAddress_Rel : string;
  StructuredPostalAddress_Primary : bool;
  StructuredPostalAddress_Label : string;
  StructuredPostalAddress_City : string;
  StructuredPostalAddress_Street : string;
  StructuredPostalAddress_Region : string;
  StructuredPostalAddress_Postcode : string;
  StructuredPostalAddress_Country : string;
  StructuredPostalAddress_FormattedAddress : string
}.

Record GroupMembershipInfo := mkGroupMembershipInfo {
  GroupMembershipInfo_Deleted : bool;
  GroupMembershipInfo_Href : string
}.

Definition marshal_StructuredPostalAddress (name : string) (v : StructuredPostalAddress)
  : list Token :=
  [StartElement name
     (attr_string_omitempty "rel" (StructuredPostalAddress_Rel v)
      ++ attr_bool_omitempty "primary" (StructuredPostalAddress_Primary v)
      ++ attr_string_omitempty "label" (StructuredPostalAddress_Label v))]
  ++ elem_string_omitempty "city" (StructuredPostalAddress_City v)
  ++ elem_string_omitempty "street" (StructuredPostalAddress_Street v)
  ++ elem_string_omitempty "region" (StructuredPostalAddress_Region v)
  ++ elem_string_omitempty "postcode" (StructuredPostalAddress_Postcode v)
  ++ elem_string_omitempty "country" (StructuredPostalAddress_Country v)
  ++ elem_string_omitempty "formattedAddress" (StructuredPostalAddress_FormattedAddress v)
  ++ [EndElement name].

Definition marshal_GroupMembershipInfo (name : string) (v : GroupMembershipInfo)
  : list Token :=
  [StartElement name
     (attr_bool "deleted" (GroupMembershipInfo_Deleted v)
      ++ attr_string "href" (GroupMembershipInfo_Href v))]
  ++ [EndElement name].

Record ContactQuery := mkContactQuery {
  ContactQuery_Query : string;
  ContactQuery_MaxResults : Z;
  ContactQuery_StartIndex : Z;
  ContactQuery_Group : string
}.

(** [NewQuery] *)
Definition NewQuery : ContactQuery :=
  mkContactQuery "" 100 1 "".

(** [fixXml] *)
Definition fixXml (original : string) : string :=
  match oldnew_pairs fixXml_rules with
  | Some replacer => Replace_pairs replacer original 0
  | None => original (* not reached: the rules come in pairs *)
  end.

Section WithTime.

Context {Time : Type}.
Context `{ZeroValue Time}.
Context `{TextMarshaler Time}.
Context `{url_Parser}.

Record Entry := mkEntry {
  Entry_XMLName : xml_Name;
  Entry_ETag : string;
  Entry_Id : string;
  Entry_Updated : Time;
  Entry_Title : string;
  Entry_Content : string;
  Entry_Links : list Link;
  Entry_Name : Name;
  Entry_InstantMessengers : list InstantMessenger;
  Entry_Organization : Organization;
  Entry_Emails : list Email;
  Entry_PhoneNumbers : list PhoneNumber;
  Entry_StructuredPostalAddresses : list StructuredPostalAddress;
  Entry_ExtendedProperties : list ExtendedProperty;
  Entry_Birthday : Birthday;
  Entry_Nickname : string;
  Entry_FileAs : string;
  Entry_Events : list Event;
  Entry_Relations : list Relation;
  Entry_UserDefinedFields : list UserDefinedField;
  Entry_Websites : list Website;
  Entry_GroupMembershipInfo : list GroupMembershipInfo
}.

Record Feed := mkFeed {
  Feed_TotalResults : Z;
  Feed_StartIndex : Z;
  Feed_ItemsPerPage : Z;
  Feed_Entries : list Entry
}.

(** The zero values [Entry{}] and [Feed{}]. *)
Definition Entry_zero : Entry :=
  mkEntry (mkxml_Name "" "") "" "" zero_value "" "" []
    (mkName "" "" (mkGivenName "" "") "" (mkFamilyName "" "") "")
    [] (mkOrganization "" "" "") [] [] [] []
    (mkBirthday "") "" "" [] [] [] [] [].

Definition Feed_zero : Feed := mkFeed 0 0 0 [].

Definition GetURI (e : Entry) : string := Entry_Id e.

Definition GetEtag (e : Entry) : string := Entry_ETag e.

(** [GetId]: [None] when the slice expression panics. *)
Definition GetId (e : Entry) : option string :=
  let pos := strings_LastIndex (Entry_Id e) "/" in
  slice (Entry_Id e) (pos + 1) (len (Entry_Id e)).

(** [marshalValue] at an [Entry]: the element is named by the tag of
    [XMLName], whatever that field holds. *)
Definition marshal_Entry (v : Entry) : list Token * option error :=
  let (updated, err) := elem_text "updated" (Entry_Updated v) in
  match err with
  | Some e => ([], Some e)
  | None =>
      (([StartElement "entry" (attr_string "etag" (Entry_ETag v))]
       ++ elem_string "id" (Entry_Id v)
       ++ updated
       ++ elem_string "title" (Entry_Title v)
       ++ elem_string "content" (Entry_Content v)
       ++ elem_slice (marshal_Link "link") (Entry_Links v)
       ++ marshal_Name "name" (Entry_Name v)
       ++ elem_slice (marshal_InstantMessenger "im") (Entry_InstantMessengers v)
       ++ marshal_Organization "organization" (Entry_Organization v)
       ++ elem_slice (marshal_Email "email") (Entry_Emails v)
       ++ elem_slice (marshal_PhoneNumber "phoneNumber") (Entry_PhoneNumbers v)
       ++ elem_slice (marshal_StructuredPostalAddress "structuredPostalAddress")
            (Entry_StructuredPostalAddresses v)
       ++ elem_slice (marshal_ExtendedProperty "extendedProperty") (Entry_ExtendedProperties v)
       ++ marshal_Birthday "birthday" (Entry_Birthday v)
       ++ elem_string "nickname" (Entry_Nickname v)
       ++ elem_string "fileAs" (Entry_FileAs v)
       ++ elem_slice (marshal_Event "event") (Entry_Events v)
       ++ elem_slice (marshal_Relation "relation") (Entry_Relations v)
       ++ elem_slice (marshal_UserDefinedField "userDefinedField") (Entry_UserDefinedFields v)
       ++ elem_slice (marshal_Website "website") (Entry_Websites v)
       ++ elem_slice (marshal_GroupMembershipInfo "groupMembershipInfo")
            (Entry_GroupMembershipInfo v)
       ++ [EndElement "entry"])%list, None)
  end.

(** [xml.MarshalIndent(entry, prefix, indent)] *)
Definition xml_MarshalIndent (v : Entry) (prefix indent : string) : string * option error :=
  let (tokens, err) := marshal_Entry v in
  match err with
  | Some e => ("", Some e)
  | None => (print_tokens tokens (mkprinter prefix indent 0 false false), None)
  end.

(** The document [saveContactRaw] sends: its first statements, up to
    the call of [fixXml]. *)
Definition encode (entry : Entry) : string * option error :=
  let (xmlBytes, err) := xml_MarshalIndent entry "" "  " in
  match err with
  | Some e => ("", Some e)
  | None => (fixXml xmlBytes, None)
  end.

Context `{xml_Unmarshaler Entry}.
Context `{xml_Unmarshaler Feed}.

Definition unmarshalResponse (data : string) : option Feed * option error :=
  let retrieveResponse := Feed_zero in
  let (retrieveResponse, err) := xml_Unmarshal data retrieveResponse in
  match err with
  | Some e => (None, Some e)
  | None => (Some retrieveResponse, None)
  end.

Definition unmarshalEntry (data : string) : option Entry * option error :=
  let entry := Entry_zero in
  let (entry, err) := xml_Unmarshal data entry in
  match err with
  | Some e => (None, Some e)
  | None => (Some entry, None)
  end.

(** [Cancel] plays no part in any operation and is left out. *)
Record Client := mkClient {
  Client_AuthManager : AuthManager;
  Client_HTTPClient : HTTPClient;
  Client_DisableHTTPS : bool
}.

Definition NewClient (authManager : AuthManager) (DefaultClient : HTTPClient) : Client :=
  mkClient authManager DefaultClient false.

(** [get] returns the body, the content type and the error. *)
Definition get (c : Client) (url accessToken : string) : M (string * string * option error) :=
  let (req, err) := http_NewRequest "" url "" in
  match err with
  | Some e => ret ("", "", Some e)
  | None =>
      req <- deref req ;;
      let req := Request_Header_Add req "GData-Version" "3.0" in
      let req :=
        if negb (String.eqb accessToken "")
        then Request_Header_Add req "Authorization" ("Bearer " ++ accessToken)
        else req in
      r <- HTTPClient_Do (Client_HTTPClient c) req ;;
      match r with
      | inr e => ret ("", "", Some e)
      | inl resp =>
          if (StatusCode resp >=? 300)%Z then
            let bodyText := Body resp in
            ret ("", "", Some ("couldn't fetch given URL; got " ++ Status resp ++ ": " ++ bodyText))
          else
            let mime := Header_Get (RespHeader resp) "Content-Type" in
            ret (Body resp, mime, BodyErr resp)
      end
  end.

Definition retrieveGroups (c : Client) (start max : Z) (query accessToken : string)
  : M (string * option error) :=
  let protocol := "https" in
  let protocol := if Client_DisableHTTPS c then "http" else protocol in
  let fullURL := protocol ++ "://" ++ groupPath in
  let values : Values := [] in
  let values := Values_Set values "max-results" (Sprintf_d max) in
  let values := Values_Set values "start-index" (Sprintf_d start) in
  let values := if negb (String.eqb query "") then Values_Set values "q" query else values in
  '(bytes, _, err) <- get c (fullURL ++ "?" ++ Values_Encode values) accessToken ;;
  ret (bytes, err).

Definition retrieveFeed (c : Client) (query : ContactQuery) (accessToken : string)
  : M (string * option error) :=
  let protocol := "https" in
  let protocol := if Client_DisableHTTPS c then "http" else protocol in
  let fullURL := protocol ++ "://" ++ basePath in
  let values : Values := [] in
  let values := Values_Set values "max-results" (Sprintf_d (ContactQuery_MaxResults query)) in
  let values := Values_Set values "start-index" (Sprintf_d (ContactQuery_StartIndex query)) in
  let values :=
    if negb (String.eqb (ContactQuery_Query query) "")
    then Values_Set values "q" (ContactQuery_Query query) else values in
  let values :=
    if negb (String.eqb (ContactQuery_Group query) "")
    then Values_Set values "group" (ContactQuery_Group query) else values in
  '(bytes, _, err) <- get c (fullURL ++ "?" ++ Values_Encode values) accessToken ;;
  ret (bytes, err).

Definition fetchContact (c : Client) (accessToken contactID : string)
  : M (string * option error) :=
  let values : Values := [] in
  let contactID := strings_Replace contactID "/base/" "/full/" in
  '(bytes, _, err) <- get c (contactID ++ "?" ++ Values_Encode values) accessToken ;;
  ret (bytes, err).

(** [saveContactRaw] returns a pointer to the buffer read from the
    response.  The headers are added before the error of
    [http.NewRequest] is looked at: a nil request panics there. *)
Definition saveContactRaw (c : Client) (accessToken : string) (entry : Entry)
  : M (option string * option error) :=
  let (xmlString, err) := encode entry in
  match err with
  | Some e => ret (None, Some e)
  | None =>
      let reader := xmlString in
      let url := GetURI entry in
      let (request, err) := http_NewRequest "PUT" url reader in
      request <- deref request ;;
      let request := Request_Header_Add request "GData-Version" "3.0" in
      let request := Request_Header_Add request "Content-Type" "application/atom+xml" in
      let request := Request_Header_Add request "If-Match" (GetEtag entry) in
      let request :=
        if negb (String.eqb accessToken "")
        then Request_Header_Add request "Authorization" ("Bearer " ++ accessToken)
        else request in
      match err with
      | Some e => ret (None, Some e)
      | None =>
          r <- HTTPClient_Do (Client_HTTPClient c) request ;;
          match r with
          | inr e => ret (None, Some e)
          | inl resp =>
              if (StatusCode resp >=? 300)%Z then
                let data := Body resp in
                ret (None, Some (errors_New
                  ("couldn't save entry: " ++ url ++ "; got " ++ Status resp
                   ++ str_lf ++ "Response:" ++ str_lf ++ data)))
              else
                let buf := Body resp in
                match BodyErr resp with
                | Some e => ret (None, Some e)
                | None => ret (Some buf, None)
                end
          end
      end
  end.

Definition saveContact (c : Client) (accessToken : string) (entry : Entry)
  : M (option Entry * option error) :=
  '(buf, err) <- saveContactRaw c accessToken entry ;;
  match err with
  | Some e => ret (None, Some e)
  | None =>
      buf <- deref buf ;;
      ret (unmarshalEntry buf)
  end.

(** [FetchContactImage] returns the picture, its MIME type and the
    error. *)
Definition FetchContactImage (c : Client) (href : string) : M (string * string * option error) :=
  '(accessToken, err) <- call_AccessToken (Client_AuthManager c) ;;
  match err with
  | Some e => ret ("", "", Some e)
  | None => get c href accessToken
  end.

Definition FetchGroupsRaw (c : Client) (start max : Z) (query : string)
  : M (string * option error) :=
  '(accessToken, err) <- call_AccessToken (Client_AuthManager c) ;;
  match err with
  | Some e => ret ("", Some e)
  | None =>
      '(data, err) <- retrieveGroups c start max query accessToken ;;
      match err with
      | Some _ =>
          '(accessToken, err) <- call_Renew (Client_AuthManager c) ;;
          match err with
          | Some e => ret ("", Some e)
          | None =>
              '(data, err) <- retrieveGroups c start max query accessToken ;;
              match err with
              | Some e => ret ("", Some e)
              | None => ret (data, None)
              end
          end
      | None => ret (data, None)
      end
  end.

Definition FetchGroups (c : Client) (start max : Z) (query : string)
  : M (option Feed * option error) :=
  '(data, err) <- FetchGroupsRaw c start max query ;;
  match err with
  | Some e => ret (None, Some e)
  | None => ret (unmarshalResponse data)
  end.

Definition FetchFeedRaw (c : Client) (query : ContactQuery) : M (string * option error) :=
  '(accessToken, err) <- call_AccessToken (Client_AuthManager c) ;;
  match err with
  | Some e => ret ("", Some e)
  | None =>
      '(data, err) <- retrieveFeed c query accessToken ;;
      match err with
      | Some _ =>
          '(accessToken, err) <- call_Renew (Client_AuthManager c) ;;
          match err with
          | Some e => ret ("", Some e)
          | None =>
              '(data, err) <- retrieveFeed c query accessToken ;;
              match err with
              | Some e => ret ("", Some e)
              | None => ret (data, None)
              end
          end
      | None => ret (data, None)
      end
  end.

Definition FetchFeed (c : Client) (query : ContactQuery) : M (option Feed * option error) :=
  '(data, err) <- FetchFeedRaw c query ;;
  match err with
  | Some e => ret (None, Some e)
  | None => ret (unmarshalResponse data)
  end.

Definition FetchContactRaw (c : Client) (contactID : string) : M (string * option error) :=
  '(accessToken, err) <- call_AccessToken (Client_AuthManager c) ;;
  match err with
  | Some e => ret ("", Some e)
  | None =>
      '(data, err) <- fetchContact c accessToken contactID ;;
      match err with
      | Some _ =>
          '(accessToken, err) <- call_Renew (Client_AuthManager c) ;;
          match err with
          | Some e => ret ("", Some e)
          | None =>
              '(data, err) <- fetchContact c accessToken contactID ;;
              match err with
              | Some e => ret ("", Some e)
              | None => ret (data, None)
              end
          end
      | None => ret (data, None)
      end
  end.

Definition FetchContact (c : Client) (contactID : string) : M (option Entry * option error) :=
  '(data, err) <- FetchContactRaw c contactID ;;
  match err with
  | Some e => ret (None, Some e)
  | None => ret (unmarshalEntry data)
  end.

Definition Save (c : Client) (entry : Entry) : M (option Entry * option error) :=
  '(accessToken, err) <- call_AccessToken (Client_AuthManager c) ;;
  match err with
  | Some e => ret (None, Some e)
  | None =>
      '(data, err) <- saveContact c accessToken entry ;;
      match err with
      | Some _ =>
          '(accessToken, err) <- call_Renew (Client_AuthManager c) ;;
          match err with
          | Some e => ret (None, Some e)
          | None =>
              '(data, err) <- saveContact c accessToken entry ;;
              match err with
              | Some e => ret (None, Some e)
              | None => ret (data, None)
              end
          end
      | None => ret (data, None)
      end
  end.

Definition SaveRaw (c : Client) (entry : Entry) : M (option string * option error) :=
  '(accessToken, err) <- call_AccessToken (Client_AuthManager c) ;;
  match err with
  | Some e => ret (None, Some e)
  | None =>
      '(data, err) <- saveContactRaw c accessToken entry ;;
      match err with
      | Some _ =>
          '(accessToken, err) <- call_Renew (Client_AuthManager c) ;;
          match err with
          | Some e => ret (None, Some e)
          | None =>
              '(data, err) <- saveContactRaw c accessToken entry ;;
              match err with
              | Some e => ret (None, Some e)
              | None => ret (data, None)
              end
          end
      | None => ret (data, None)
      end
  end.

End WithTime.

End Contacts.

(** * The earlier client, with the access token in the query string *)

Module ContactsV1.

Definition basePath := "www.google.com/m8/feeds/contacts/default/full/".

(** [Primary] and [Deleted] are strings in this client's model. *)
Record StructuredPostalAddress := mkStructuredPostalAddress {
  StructuredPostalAddress_Rel : string;
  StructuredPostalAddress_Primary : string;
  StructuredPostalAddress_Label : string;
  StructuredPostalAddress_City : string;
  StructuredPostalAddress_Street : string;
  StructuredPostalAddress_Region : string;
  StructuredPostalAddress_Postcode : string;
  StructuredPostalAddress_Country : string;
  StructuredPostalAddress_FormattedAddress : string
}.

Record GroupMembershipInfo := mkGroupMembershipInfo {
  GroupMembershipInfo_Deleted : string;
  GroupMembershipInfo_Href : string
}.

Definition marshal_StructuredPostalAddress (name : string) (v : StructuredPostalAddress)
  : list Token :=
  [StartElement name
     (attr_string_omitempty "rel" (StructuredPostalAddress_Rel v)
      ++ attr_string_omitempty "primary" (StructuredPostalAddress_Primary v)
      ++ attr_string_omitempty "label" (StructuredPostalAddress_Label v))]
  ++ elem_string_omitempty "city" (StructuredPostalAddress_City v)
  ++ elem_string_omitempty "street" (StructuredPostalAddress_Street v)
  ++ elem_string_omitempty "region" (StructuredPostalAddress_Region v)
  ++ elem_string_omitempty "postcode" (StructuredPostalAddress_Postcode v)
  ++ elem_string_omitempty "country" (StructuredPostalAddress_Country v)
  ++ elem_string_omitempty "formattedAddress" (StructuredPostalAddress_FormattedAddress v)
  ++ [EndElement name].

Definition marshal_GroupMembershipInfo (name : string) (v : GroupMembershipInfo)
  : list Token :=
  [StartElement name
     (attr_string "deleted" (GroupMembershipInfo_Deleted v)
      ++ attr_string "href" (GroupMembershipInfo_Href v))]
  ++ [EndElement name].

(** [fixXml] *)
Definition fixXml (original : string) : string :=
  match oldnew_pairs fixXml_rules with
  | Some replacer => Replace_pairs replacer original 0
  | None => original (* not reached: the rules come in pairs *)
  end.

Section WithTime.

Context {Time : Type}.
Context `{ZeroValue Time}.
Context `{TextMarshaler Time}.
Context `{url_Parser}.

Record Entry := mkEntry {
  Entry_XMLName : xml_Name;
  Entry_ETag : string;
  Entry_Id : string;
  Entry_Updated : Time;
  Entry_Title : string;
  Entry_Content : string;
  Entry_Links : list Link;
  Entry_Name : Name;
  Entry_InstantMessengers : list InstantMessenger;
  Entry_Organization : Organization;
  Entry_Emails : list Email;
  Entry_PhoneNumbers : list PhoneNumber;
  Entry_StructuredPostalAddresses : list StructuredPostalAddress;
  Entry_ExtendedProperties : list ExtendedProperty;
  Entry_Birthday : Birthday;
  Entry_Nickname : string;
  Entry_FileAs : string;
  Entry_Events : list Event;
  Entry_Relations : list Relation;
  Entry_UserDefinedFields : list UserDefinedField;
  Entry_Websites : list Website;
  Entry_GroupMembershipInfo : list GroupMembershipInfo
}.

Record Feed := mkFeed {
  Feed_TotalResults : Z;
  Feed_StartIndex : Z;
  Feed_ItemsPerPage : Z;
  Feed_Entries : list Entry
}.

(** The zero values [Entry{}] and [Feed{}]. *)
Definition Entry_zero : Entry :=
  mkEntry (mkxml_Name "" "") "" "" zero_value "" "" []
    (mkName "" "" (mkGivenName "" "") "" (mkFamilyName "" "") "")
    [] (mkOrganization "" "" "") [] [] [] []
    (mkBirthday "") "" "" [] [] [] [] [].

Definition Feed_zero : Feed := mkFeed 0 0 0 [].

(** [GetId]: [None] when the slice expression panics. *)
Definition GetId (e : Entry) : option string :=
  let pos := strings_LastIndex (Entry_Id e) "/" in
  slice (Entry_Id e) (pos + 1) (len (Entry_Id e)).

(** [marshalValue] at an [Entry]: the element is named by the tag of
    [XMLName], whatever that field holds. *)
Definition marshal_Entry (v : Entry) : list Token * option error :=
  let (updated, err) := elem_text "updated" (Entry_Updated v) in
  match err with
  | Some e => ([], Some e)
  | None =>
      (([StartElement "entry" (attr_string "etag" (Entry_ETag v))]
       ++ elem_string "id" (Entry_Id v)
       ++ updated
       ++ elem_string "title" (Entry_Title v)
       ++ elem_string "content" (Entry_Content v)
       ++ elem_slice (marshal_Link "link") (Entry_Links v)
       ++ marshal_Name "name" (Entry_Name v)
       ++ elem_slice (marshal_InstantMessenger "im") (Entry_InstantMessengers v)
       ++ marshal_Organization "organization" (Entry_Organization v)
       ++ elem_slice (marshal_Email "email") (Entry_Emails v)
       ++ elem_slice (marshal_PhoneNumber "phoneNumber") (Entry_PhoneNumbers v)
       ++ elem_slice (marshal_StructuredPostalAddress "structuredPostalAddress")
            (Entry_StructuredPostalAddresses v)
       ++ elem_slice (marshal_ExtendedProperty "extendedProperty") (Entry_ExtendedProperties v)
       ++ marshal_Birthday "birthday" (Entry_Birthday v)
       ++ elem_string "nickname" (Entry_Nickname v)
       ++ elem_string "fileAs" (Entry_FileAs v)
       ++ elem_slice (marshal_Event "event") (Entry_Events v)
       ++ elem_slice (marshal_Relation "relation") (Entry_Relations v)
       ++ elem_slice (marshal_UserDefinedField "userDefinedField") (Entry_UserDefinedFields v)
       ++ elem_slice (marshal_Website "website") (Entry_Websites v)
       ++ elem_slice (marshal_GroupMembershipInfo "groupMembershipInfo")
            (Entry_GroupMembershipInfo v)
       ++ [EndElement "entry"])%list, None)
  end.

(** [xml.MarshalIndent(entry, prefix, indent)] *)
Definition xml_MarshalIndent (v : Entry) (prefix indent : string) : string * option error :=
  let (tokens, err) := marshal_Entry v in
  match err with
  | Some e => ("", Some e)
  | None => (print_tokens tokens (mkprinter prefix indent 0 false false), None)
  end.

(** The document [saveContact] sends: its call of
    [xml.MarshalIndent] and its call of [fixXml]. *)
Definition encode (entry : Entry) : string * option error :=
  let (xmlBytes, err) := xml_MarshalIndent entry "" "  " in
  match err with
  | Some e => ("", Some e)
  | None => (fixXml xmlBytes, None)
  end.

Context `{xml_Unmarshaler Entry}.
Context `{xml_Unmarshaler Feed}.

Definition unmarshalResponse (data : string) : option Feed * option error :=
  let retrieveResponse := Feed_zero in
  let (retrieveResponse, err) := xml_Unmarshal data retrieveResponse in
  match err with
  | Some e => (None, Some e)
  | None => (Some retrieveResponse, None)
  end.

Definition unmarshalEntry (data : string) : option Entry * option error :=
  let entry := Entry_zero in
  let (entry, err) := xml_Unmarshal data entry in
  match err with
  | Some e => (None, Some e)
  | None => (Some entry, None)
  end.

Record Client := mkClient {
  Client_AuthManager : AuthManager;
  Client_HTTPClient : HTTPClient;
  Client_DisableHTTPS : bool
}.

Definition NewClient (authManager : AuthManager) (DefaultClient : HTTPClient) : Client :=
  mkClient authManager DefaultClient false.

Definition get (c : Client) (url : string) : M (string * option error) :=
  let (req, err) := http_NewRequest "" url "" in
  match err with
  | Some e => ret ("", Some e)
  | None =>
      req <- deref req ;;
      let req := Request_Header_Add req "GData-Version" "3.0" in
      r <- HTTPClient_Do (Client_HTTPClient c) req ;;
      match r with
      | inr e => ret ("", Some e)
      | inl resp =>
          if (StatusCode resp >=? 300)%Z then
            ret ("", Some (errors_New ("couldn't fetch given URL; got " ++ Status resp)))
          else
            ret (Body resp, BodyErr resp)
      end
  end.

Definition retrieveFeed (c : Client) (accessToken : string) : M (string * option error) :=
  let protocol := "https" in
  let protocol := if Client_DisableHTTPS c then "http" else protocol in
  let fullURL := protocol ++ "://" ++ basePath in
  let values : Values := [] in
  let values := Values_Set values "max-results" "10000" in
  let values := Values_Set values "access_token" accessToken in
  get c (fullURL ++ "?" ++ Values_Encode values).

Definition fetchContact (c : Client) (accessToken contactID : string)
  : M (string * option error) :=
  let protocol := "https" in
  let protocol := if Client_DisableHTTPS c then "http" else protocol in
  let values : Values := [] in
  let values := Values_Set values "access_token" accessToken in
  let fullUrl := protocol ++ "://" ++ basePath ++ contactID ++ "?" ++ Values_Encode values in
  get c fullUrl.

(** The headers are added before the error of [http.NewRequest] is
    looked at: a nil request panics there. *)
Definition saveContact (c : Client) (accessToken : string) (entry : Entry)
  : M (option Entry * option error) :=
  let protocol := "https" in
  let protocol := if Client_DisableHTTPS c then "http" else protocol in
  let (xmlString, err) := encode entry in
  match err with
  | Some e => ret (None, Some e)
  | None =>
      let values : Values := [] in
      let values := Values_Set values "access_token" accessToken in
      let reader := xmlString in
      id <- deref (GetId entry) ;;
      let url := protocol ++ "://" ++ basePath ++ id ++ "?" ++ Values_Encode values in
      let (request, err) := http_NewRequest "PUT" url reader in
      request <- deref request ;;
      let request := Request_Header_Add request "GData-Version" "3.0" in
      let request := Request_Header_Add request "Content-Type" "application/atom+xml" in
      let request := Request_Header_Add request "If-Match" (Entry_ETag entry) in
      match err with
      | Some e => ret (None, Some e)
      | None =>
          r <- HTTPClient_Do (Client_HTTPClient c) request ;;
          match r with
          | inr e => ret (None, Some e)
          | inl resp =>
              if (StatusCode resp >=? 300)%Z then
                let data := Body resp in
                ret (None, Some (errors_New
                  ("couldn't save entry; got " ++ Status resp
                   ++ str_lf ++ "Response:" ++ str_lf ++ data)))
              else
                let buf := Body resp in
                match BodyErr resp with
                | Some e => ret (None, Some e)
                | None => ret (unmarshalEntry buf)
                end
          end
      end
  end.

Definition FetchFeedRaw (c : Client) : M (string * option error) :=
  '(accessToken, err) <- call_AccessToken (Client_AuthManager c) ;;
  match err with
  | Some e => ret ("", Some e)
  | None =>
      '(data, err) <- retrieveFeed c accessToken ;;
      match err with
      | Some _ =>
          '(accessToken, err) <- call_Renew (Client_AuthManager c) ;;
          match err with
          | Some e => ret ("", Some e)
          | None =>
              '(data, err) <- retrieveFeed c accessToken ;;
              match err with
              | Some e => ret ("", Some e)
              | None => ret (data, None)
              end
          end
      | None => ret (data, None)
      end
  end.

Definition FetchFeed (c : Client) : M (option Feed * option error) :=
  '(data, err) <- FetchFeedRaw c ;;
  match err with
  | Some e => ret (None, Some e)
  | None => ret (unmarshalResponse data)
  end.

Definition FetchContactRaw (c : Client) (contactID : string) : M (string * option error) :=
  '(accessToken, err) <- call_AccessToken (Client_AuthManager c) ;;
  match err with
  | Some e => ret ("", Some e)
  | None =>
      '(data, err) <- fetchContact c accessToken contactID ;;
      match err with
      | Some _ =>
          '(accessToken, err) <- call_Renew (Client_AuthManager c) ;;
          match err with
          | Some e => ret ("", Some e)
          | None =>
              '(data, err) <- fetchContact c accessToken contactID ;;
              match err with
              | Some e => ret ("", Some e)
              | None => ret (data, None)
              end
          end
      | None => ret (data, None)
      end
  end.

Definition FetchContact (c : Client) (contactID : string) : M (option Entry * option error) :=
  '(data, err) <- FetchContactRaw c contactID ;;
  match err with
  | Some e => ret (None, Some e)
  | None => ret (unmarshalEntry data)
  end.

Definition Save (c : Client) (entry : Entry) : M (option Entry * option error) :=
  '(accessToken, err) <- call_AccessToken (Client_AuthManager c) ;;
  match err with
  | Some e => ret (None, Some e)
  | None =>
      '(data, err) <- saveContact c accessToken entry ;;
      match err with
      | Some _ =>
          '(accessToken, err) <- call_Renew (Client_AuthManager c) ;;
          match err with
          | Some e => ret (None, Some e)
          | None =>
              '(data, err) <- saveContact c accessToken entry ;;
              match err with
              | Some e => ret (None, Some e)
              | None => ret (data, None)
              end
          end
      | None => ret (data, None)
      end
  end.

End WithTime.

End ContactsV1.

(** * The command-line program *)

Module Main.

(** The arguments, as [arg.MustParse] leaves them. *)
Record Args := mkArgs {
  ClientID : string;
  ClientSecret : string;
  Raw : bool;
  AuthFile : string;
  Command : string;
  ContactId : string;
  Value : string
}.

Section WithTime.

Context {Time : Type}.
Context {zero : ZeroValue Time}.
Context {marshaler : TextMarshaler Time}.
Context {parser : url_Parser}.
Context {entry_decoder : xml_Unmarshaler (@ContactsV1.Entry Time)}.
Context {feed_decoder : xml_Unmarshaler (@ContactsV1.Feed Time)}.

(** The store over the file at a path, the retriever for a client
    identifier and secret, and [http.DefaultClient]: the program sees
    them through their interfaces. *)
Variable FileAuthStorage : string -> AuthStorage.
Variable StandardAccessTokenRetriever : string -> string -> AccessTokenRetriever.
Variable http_DefaultClient : HTTPClient.

(** What the program writes to its standard output: a line of
    [fmt.Println], or a value written by [fmt.Printf] with the verb
    [%+v], kept as the value and the format. *)
Inductive Output :=
| Println (text : string)
| Printf_Entry (format : string) (entry : @ContactsV1.Entry Time)
| Printf_EntryPtr (format : string) (entry : option (@ContactsV1.Entry Time)).

(** [entry.Nickname = value] *)
Definition set_Nickname (e : @ContactsV1.Entry Time) (value : string) : ContactsV1.Entry :=
  ContactsV1.mkEntry (ContactsV1.Entry_XMLName e) (ContactsV1.Entry_ETag e)
    (ContactsV1.Entry_Id e) (ContactsV1.Entry_Updated e) (ContactsV1.Entry_Title e)
    (ContactsV1.Entry_Content e) (ContactsV1.Entry_Links e) (ContactsV1.Entry_Name e)
    (ContactsV1.Entry_InstantMessengers e) (ContactsV1.Entry_Organization e)
    (ContactsV1.Entry_Emails e) (ContactsV1.Entry_PhoneNumbers e)
    (ContactsV1.Entry_StructuredPostalAddresses e) (ContactsV1.Entry_ExtendedProperties e)
    (ContactsV1.Entry_Birthday e) value (ContactsV1.Entry_FileAs e)
    (ContactsV1.Entry_Events e) (ContactsV1.Entry_Relations e)
    (ContactsV1.Entry_UserDefinedFields e) (ContactsV1.Entry_Websites e)
    (ContactsV1.Entry_GroupMembershipInfo e).

(** The lines of the loop over [feed.Entries], from the index [i]. *)
Fixpoint print_entries (i : Z) (entries : list (@ContactsV1.Entry Time)) : list Output :=
  match entries with
  | [] => []
  | entry :: entries' =>
      Println ("ENTRY  " ++ Sprintf_d i ++ " :")
      :: Printf_Entry ("%+v" ++ str_lf ++ str_lf) entry
      :: print_entries (i + 1) entries'
  end.

Definition apiClient (args : Args) : ContactsV1.Client :=
  ContactsV1.NewClient
    (StandardAuthManager_AuthManager
       (mkStandardAuthManager
          (StandardAccessTokenRetriever (ClientID args) (ClientSecret args))
          (FileAuthStorage (AuthFile args))))
    http_DefaultClient.

(** [main], after [arg.MustParse]: what it wrote and its exit status
    ([os.Exit(1)] ends the program; otherwise the status is 0). *)
Definition main (args : Args) : M (list Output * Z) :=
  let apiClient := apiClient args in
  if String.eqb (Command args) "fetch_feed" then
    if Raw args then
      '(data, err) <- ContactsV1.FetchFeedRaw apiClient ;;
      match err with
      | Some e => ret ([Println ("error:  " ++ e)], 1%Z)
      | None => ret ([Println data], 0%Z)
      end
    else
      '(feed, err) <- ContactsV1.FetchFeed apiClient ;;
      match err with
      | Some e => ret ([Println ("error:  " ++ e)], 1%Z)
      | None =>
          feed <- deref feed ;;
          ret (print_entries 0 (ContactsV1.Feed_Entries feed), 0%Z)
      end
  else if String.eqb (Command args) "fetch" then
    if String.eqb (ContactId args) "" then
      ret ([Println "Contact ID must be specified"], 1%Z)
    else if Raw args then
      '(data, err) <- ContactsV1.FetchContactRaw apiClient (ContactId args) ;;
      match err with
      | Some e => ret ([Println ("error:  " ++ e)], 1%Z)
      | None => ret ([Println data], 0%Z)
      end
    else
      '(entry, err) <- ContactsV1.FetchContact apiClient (ContactId args) ;;
      match err with
      | Some e => ret ([Println ("error:  " ++ e)], 1%Z)
      | None =>
          ret ([Println "ENTRY:"; Printf_EntryPtr ("%+v" ++ str_lf ++ str_lf) entry], 0%Z)
      end
  else if String.eqb (Command args) "update_nickname" then
    if Raw args then
      ret ([Println "update_nickname doesn't support --raw"], 1%Z)
    else if String.eqb (ContactId args) "" then
      ret ([Println "Contact ID must be specified"], 1%Z)
    else
      '(entry, err) <- ContactsV1.FetchContact apiClient (ContactId args) ;;
      match err with
      | Some e => ret ([Println ("error:  " ++ e)], 1%Z)
      | None =>
          let out := [Println "ORIGINAL ENTRY:";
                      Printf_EntryPtr ("%+v" ++ str_lf ++ str_lf) entry] in
          entry <- deref entry ;;
          let entry := set_Nickname entry (Value args) in
          '(updatedEntry, err) <- ContactsV1.Save apiClient entry ;;
          match err with
          | Some e => ret ((out ++ [Println ("error: " ++ e)])%list, 1%Z)
          | None =>
              ret ((out ++ [Println "UPDATED ENTRY:";
                            Printf_EntryPtr ("%+v" ++ str_lf) updatedEntry])%list, 0%Z)
          end
      end
  else
    ret ([], 0%Z).

End WithTime.

End Main.

(** * Collaborators for concrete runs *)

(** A store that keeps the record last saved, starting from [init]. *)
Fixpoint last_saved (t : Trace) (init : AuthDetails) : AuthDetails :=
  match t with
  | [] => init
  | CallSave d :: t' => last_saved t' d
  | _ :: t' => last_saved t' init
  end.

Definition memStorage (init : AuthDetails) : AuthStorage :=
  mkAuthStorage (fun t => (Some (last_saved t init), None)) (fun _ _ => None).

(** The same store with a [Save] that always fails. *)
Definition readOnlyStorage (init : AuthDetails) : AuthStorage :=
  mkAuthStorage (fun _ => (Some init, None)) (fun _ _ => Some "read-only file system").

(** A store whose file cannot be opened, and a store that returns a
    nil record. *)
Definition failingStorage (e : error) : AuthStorage :=
  mkAuthStorage (fun _ => (None, Some e)) (fun _ _ => Some e).

Definition nilStorage : AuthStorage :=
  mkAuthStorage (fun _ => (None, None)) (fun _ _ => None).


(** A retriever that exchanges any refresh token for [tok]. *)
Definition constRetriever (tok : string) : AccessTokenRetriever :=
  mkAccessTokenRetriever (fun _ _ => (tok, None)).

Fixpoint count_Do (t : Trace) : nat :=
  match t with
  | [] => 0
  | CallDo _ :: t' => S (count_Do t')
  | _ :: t' => count_Do t'
  end.

(** A transport that answers its n-th request with the n-th item of a
    script, and fails once the script is over. *)
Definition scriptedHTTP (script : list (Response + error)) : HTTPClient :=
  mkHTTPClient (fun _ t => nth (count_Do t - 1) script (inr "no more responses")).

Definition response_ok (body : string) : Response + error :=
  inl (mkResponse "200 OK" 200 [("Content-Type", "application/atom+xml")] body None).

Definition response_status (status : string) (code : Z) : Response + error :=
  inl (mkResponse status code [] "" None).

(** Timestamps carried as their RFC 3339 text. *)
Record TextTime := mkTextTime {
  rfc3339 : string
}.

#[export] Instance TextTime_zero : ZeroValue TextTime :=
  {| zero_value := mkTextTime "0001-01-01T00:00:00Z" |}.

#[export] Instance TextTime_marshal : TextMarshaler TextTime :=
  {| MarshalText := fun t => (rfc3339 t, None) |}.

#[export] Instance TextTime_unmarshal : TextUnmarshaler TextTime :=
  {| UnmarshalText := fun s => (mkTextTime s, None) |}.

(** A URL parser that accepts every string. *)
#[export] Instance lenient_url_Parser : url_Parser :=
  {| url_Parse := fun _ => None |}.

(** A manager over a store that holds a stale access token. *)
Definition example_manager : StandardAuthManager :=
  mkStandardAuthManager (constRetriever "fresh") (memStorage (mkAuthDetails "r" "stale")).

(** A transport that rejects the first request and accepts the
    second. *)
Definition fail_then_succeed : HTTPClient :=
  scriptedHTTP [response_status "401 Unauthorized" 401; response_ok "<entry></entry>"].

(** A transport that rejects every request. *)
Definition always_fail : HTTPClient :=
  mkHTTPClient (fun _ _ => response_status "401 Unauthorized" 401).

Definition example_client (http : HTTPClient) : Contacts.Client :=
  Contacts.mkClient (StandardAuthManager_AuthManager example_manager) http false.

(** An entry with every kind of field filled in. *)
Definition example_entry : @Contacts.Entry TextTime :=
  Contacts.mkEntry (mkxml_Name "" "entry") "tag<1>" "http://x/full/abc"
    (mkTextTime "2020-01-01T00:00:00Z") "T&J" "" [mkLink "self" "application/atom+xml" "http://x"]
    (mkName "John Doe" "" (mkGivenName "jon" "John") "" (mkFamilyName "" "Doe") "")
    [mkInstantMessenger "a" "b" "c"] (mkOrganization "work" "ACME" "")
    [mkEmail "a@b" true "" "home"] [mkPhoneNumber "" "x" "" "123"]
    [Contacts.mkStructuredPostalAddress "r" false "" "Paris" "" "" "" "" ""]
    [mkExtendedProperty "k" "v"]
    (mkBirthday "2000-01-01") "nick" "" [mkEvent (mkWhen "2001") "" "anniversary"]
    [mkRelation "spouse" "Jane"] [mkUserDefinedField "k" "v"] [mkWebsite "" "" "http://w"]
    [Contacts.mkGroupMembershipInfo false "http://g"].

(** A decoder that knows the documents of a table and rejects every
    other one. *)
Definition tableUnmarshaler {T} (table : list (string * T)) : xml_Unmarshaler T :=
  {| xml_Unmarshal := fun data v =>
       match find (fun kv => String.eqb (fst kv) data) table with
       | Some kv => (snd kv, None)
       | None => (v, Some "EOF")
       end |}.

#[export] Instance example_Entry_decoder : xml_Unmarshaler (@Contacts.Entry TextTime) :=
  tableUnmarshaler [("<entry></entry>", Contacts.Entry_zero)].

#[export] Instance example_Feed_decoder : xml_Unmarshaler (@Contacts.Feed TextTime) :=
  tableUnmarshaler [("<feed></feed>", Contacts.Feed_zero)].

#[export] Instance example_EntryV1_decoder : xml_Unmarshaler (@ContactsV1.Entry TextTime) :=
  tableUnmarshaler [("<entry></entry>", ContactsV1.Entry_zero)].

#[export] Instance example_FeedV1_decoder : xml_Unmarshaler (@ContactsV1.Feed TextTime) :=
  tableUnmarshaler [("<feed></feed>", ContactsV1.Feed_zero)].

Definition example_clientV1 (http : HTTPClient) : ContactsV1.Client :=
  ContactsV1.mkClient (StandardAuthManager_AuthManager example_manager) http false.

(** The first check of [url.Parse]: a URL that holds an ASCII control
    character is rejected. *)
Fixpoint stringContainsCTLByte (s : string) : bool :=
  match s with
  | "" => false
  | String c s' => ((byte c <? 0x20) || (byte c =? 0x7F))%Z || stringContainsCTLByte s'
  end.

Definition ctl_url_Parser : url_Parser :=
  {| url_Parse := fun url =>
       if stringContainsCTLByte url
       then Some "net/url: invalid control character in URL"
       else None |}.

(** Timestamps carried as their year alone: [Time.MarshalText] fails
    on a year outside of the range from 0 to 9999. *)
Record YearTime := mkYearTime {
  year : Z
}.

#[export] Instance YearTime_marshal : TextMarshaler YearTime :=
  {| MarshalText := fun t =>
       if ((year t <? 0) || (10000 <=? year t))%Z
       then ("", Some "Time.MarshalText: year outside of range [0,9999]")
       else (Sprintf_d (year t) ++ "-01-01T00:00:00Z", None) |}.

(** An entry that cannot be encoded. *)
Definition unencodable_entry : @Contacts.Entry YearTime :=
  Contacts.mkEntry (mkxml_Name "" "") "" "http://x/full/abc" (mkYearTime 10000) "" "" []
    (mkName "" "" (mkGivenName "" "") "" (mkFamilyName "" "") "")
    [] (mkOrganization "" "" "") [] [] [] [] (mkBirthday "") "" "" [] [] [] [] [].

(** An entry whose [Id] ends with a line feed. *)
Definition example_entry_lf : @Contacts.Entry TextTime :=
  Contacts.mkEntry (mkxml_Name "" "") "" ("http://x/full/abc" ++ str_lf)
    (mkTextTime "2020-01-01T00:00:00Z") "" "" []
    (mkName "" "" (mkGivenName "" "") "" (mkFamilyName "" "") "")
    [] (mkOrganization "" "" "") [] [] [] [] (mkBirthday "") "" "" [] [] [] [] [].

(** A client whose manager cannot read its store. *)
Definition example_client_no_store : Contacts.Client :=
  Contacts.mkClient
    (StandardAuthManager_AuthManager
       (mkStandardAuthManager (constRetriever "fresh") (failingStorage "no such file")))
    always_fail false.

(** A transport that answers every request with an empty entry. *)
Definition always_ok : HTTPClient :=
  mkHTTPClient (fun _ _ => response_ok "<entry></entry>").

(** The arguments of [update_nickname abc123 Johnny]. *)
Definition example_args : Main.Args :=
  Main.mkArgs "id" "secret" false "auth.json" "update_nickname" "abc123" "Johnny".

(** An entry of the earlier client, as the service identifies it. *)
Definition example_entryV1 : @ContactsV1.Entry TextTime :=
  ContactsV1.mkEntry (mkxml_Name "" "entry") "etag1"
    "http://www.google.com/m8/feeds/contacts/u%40x.org/base/abc123"
    (mkTextTime "2020-01-01T00:00:00Z") "" "" []
    (mkName "" "" (mkGivenName "" "John") "" (mkFamilyName "" "Doe") "")
    [] (mkOrganization "" "" "") [] [] [] [] (mkBirthday "") "" "" [] [] [] [] [].

(** The program over a store that holds a stale token, a retriever
    that answers "fresh" and a transport that accepts every request. *)
Definition example_main : Main.Args -> M (list (@Main.Output TextTime) * Z) :=
  Main.main (fun _ => memStorage (mkAuthDetails "r" "stale"))
    (fun _ _ => constRetriever "fresh") always_ok.

Definition example_apiClient : Main.Args -> ContactsV1.Client :=
  Main.apiClient (fun _ => memStorage (mkAuthDetails "r" "stale"))
    (fun _ _ => constRetriever "fresh") always_ok.

(** * Notions used to state the properties *)

(** The records handed to [Save] and the refresh tokens handed to
    [Retrieve] during a run. *)
Fixpoint saved (t : Trace) : list AuthDetails :=
  match t with
  | [] => []
  | CallSave d :: t' => d :: saved t'
  | _ :: t' => saved t'
  end.

Fixpoint retrieved (t : Trace) : list string :=
  match t with
  | [] => []
  | CallRetrieve r :: t' => r :: retrieved t'
  | _ :: t' => retrieved t'
  end.

(** [has_byte c s]: the byte [c] occurs in [s]. *)
Fixpoint has_byte (c : ascii) (s : string) : bool :=
  match s with
  | "" => false
  | String c' s' => Ascii.eqb c' c || has_byte c s'
  end.

(** The requests handed to the transport, and the number of calls of
    [Renew], among the calls of a trace. *)
Fixpoint requests (t : Trace) : list Request :=
  match t with
  | [] => []
  | CallDo req :: t' => req :: requests t'
  | _ :: t' => requests t'
  end.

Fixpoint count_Renew (t : Trace) : nat :=
  match t with
  | [] => 0
  | CallRenew :: t' => S (count_Renew t')
  | _ :: t' => count_Renew t'
  end.

(** The headers of a request of the client with bearer authorization,
    for the access token [tok]: the protocol version, and an
    [Authorization] header exactly when the token is not empty. *)
Definition bearer_request (tok : string) (req : Request) : Prop :=
  Header_Values (ReqHeader req) "GData-Version" = ["3.0"]
  /\ Header_Values (ReqHeader req) "Authorization"
     = if String.eqb tok "" then [] else ["Bearer " ++ tok].

(** The headers of a request of the earlier client: the protocol
    version and no [Authorization] header. *)
Definition plain_request (req : Request) : Prop :=
  Header_Values (ReqHeader req) "GData-Version" = ["3.0"]
  /\ Header_Values (ReqHeader req) "Authorization" = [].

(** What a write adds: the method, the content type and the entity
    tag. *)
Definition write_request (etag : string) (req : Request) : Prop :=
  Method req = "PUT"
  /\ Header_Values (ReqHeader req) "Content-Type" = ["application/atom+xml"]
  /\ Header_Values (ReqHeader req) "If-Match" = [etag].

(** A run that appends calls satisfying [P] to the calls made before. *)
Definition appends {A} (P : Trace -> Prop) (m : M A) : Prop :=
  forall t, exists l, snd (m t) = (t ++ l)%list /\ P l.

(** The calls of [l] are at most one request, which satisfies [P]. *)
Definition one_request (P : Request -> Prop) (l : Trace) : Prop :=
  l = [] \/ exists req, l = [CallDo req] /\ P req.

(** The shape shared by the public operations that retry: ask the
    manager for a token, attempt, and after a failed attempt renew and
    attempt once more.  [nil] is what an operation returns beside an
    error. *)
Definition with_retry {A} (am : AuthManager) (attempt : string -> M (A * option error))
    (nil : A) : M (A * option error) :=
  '(accessToken, err) <- call_AccessToken am ;;
  match err with
  | Some e => ret (nil, Some e)
  | None =>
      '(data, err) <- attempt accessToken ;;
      match err with
      | Some _ =>
          '(accessToken, err) <- call_Renew am ;;
          match err with
          | Some e => ret (nil, Some e)
          | None =>
              '(data, err) <- attempt accessToken ;;
              match err with
              | Some e => ret (nil, Some e)
              | None => ret (data, None)
              end
          end
      | None => ret (data, None)
      end
  end.

(** The calls a manager makes on its own behalf. *)
Definition auth_call (c : Call) : Prop :=
  match c with
  | CallLoad | CallSave _ | CallRetrieve _ => True
  | _ => False
  end.

(** A manager whose methods append calls to its store and retriever
    only. *)
Definition manager_internal (am : AuthManager) : Prop :=
  appends (Forall auth_call) (AuthManager_AccessToken am)
  /\ appends (Forall auth_call) (AuthManager_Renew am).

(** An attempt that appends at most one call, a request. *)
Definition single_request {A} (attempt : string -> M A) : Prop :=
  forall tok, appends (one_request (fun _ => True)) (attempt tok).

(** What the second attempt returns becomes the result. *)
Definition retried {A} (nil : A) (r : option (A * option error) * Trace)
  : option (A * option error) * Trace :=
  match r with
  | (Some (_, Some e), t) => (Some (nil, Some e), t)
  | (Some (data, None), t) => (Some (data, None), t)
  | (None, t) => (None, t)
  end.

(** The policy of one retry after a renewal, for an operation [op]
    built on [attempt]: a run calls [Renew] at most once and sends at
    most two requests; when the first attempt succeeds its result is
    returned and [Renew] is not called; when the first attempt fails
    and [Renew] succeeds, [Renew] is called exactly once and the
    result is that of one more attempt, made with the renewed token;
    when [Renew] fails, its error is returned with no further
    attempt. *)
Definition retry_once {A} (am : AuthManager) (attempt : string -> M (A * option error))
    (nil : A) (op : M (A * option error)) : Prop :=
  forall t,
    (exists l,
        snd (op t) = (t ++ l)%list
        /\ (count_Renew l <= 1)%nat
        /\ (List.length (requests l) <= 2)%nat)
    /\
    (forall tok1 t1 data t2,
        call_AccessToken am t = (Some (tok1, None), t1) ->
        attempt tok1 t1 = (Some (data, None), t2) ->
        op t = (Some (data, None), t2)
        /\ exists l, t2 = (t ++ l)%list /\ count_Renew l = 0%nat)
    /\
    (forall tok1 t1 data e1 t2 tok2 t3,
        call_AccessToken am t = (Some (tok1, None), t1) ->
        attempt tok1 t1 = (Some (data, Some e1), t2) ->
        call_Renew am t2 = (Some (tok2, None), t3) ->
        op t = retried nil (attempt tok2 t3)
        /\ exists l, snd (op t) = (t ++ l)%list /\ count_Renew l = 1%nat)
    /\
    (forall tok1 t1 data e1 t2 x e2 t3,
        call_AccessToken am t = (Some (tok1, None), t1) ->
        attempt tok1 t1 = (Some (data, Some e1), t2) ->
        call_Renew am t2 = (Some (x, Some e2), t3) ->
        op t = (Some (nil, Some e2), t3)).

(** ** Notions for the codec *)

(** The names of the tags of a document, in order: for every [<], the
    bytes that follow it up to the next space or [>], without the
    slash of an end tag. *)
Fixpoint read_name (s : string) : string :=
  match s with
  | "" => ""
  | String c s' =>
      if (Ascii.eqb c " " || Ascii.eqb c ">")%bool then "" else String c (read_name s')
  end.

Definition strip_slash (n : string) : string :=
  match n with
  | String "/" n' => n'
  | _ => n
  end.

Fixpoint tag_names (doc : string) : list string :=
  match doc with
  | "" => []
  | String c rest =>
      if Ascii.eqb c "<" then strip_slash (read_name rest) :: tag_names rest
      else tag_names rest
  end.

(** The part of a tag name after its namespace prefix, if it has one. *)
Fixpoint after_colon (n : string) : option string :=
  match n with
  | "" => None
  | String c n' => if Ascii.eqb c ":" then Some n' else after_colon n'
  end.

Definition local_part (n : string) : string :=
  match after_colon n with
  | Some l => l
  | None => n
  end.

(** A tag name is right when a tag of the directory-standard
    enumeration carries the prefix [gd:], a tag of the
    contact-extension enumeration the prefix [gContact:], and any
    other tag no prefix. *)
Definition name_ok (n : string) : bool :=
  let l := local_part n in
  if existsb (String.eqb l) gdTags then String.eqb n ("gd:" ++ l)
  else if existsb (String.eqb l) gContactTags then String.eqb n ("gContact:" ++ l)
  else String.eqb n l.

(** The element names of the struct tags of the entry model. *)
Definition known_names : list string :=
  ([ "entry"; "id"; "updated"; "title"; "content"; "link" ] ++ gdTags ++ gContactTags)%list.

(** The name [fixXml] gives to an element. *)
Definition fix_name (n : string) : string :=
  if existsb (String.eqb n) gdTags then "gd:" ++ n
  else if existsb (String.eqb n) gContactTags then "gContact:" ++ n
  else n.

(** The elements [fixXml] removes when they are empty. *)
Definition elidable (n : string) : bool :=
  (String.eqb n "name" || String.eqb n "organization")%bool.

(** The start tag of an elidable element that [print_fixed] has read
    and not yet written. *)
Definition flush (pending : option string) : string :=
  match pending with
  | Some n => "<" ++ fix_name n ++ ">"
  | None => ""
  end.

(** What [fixXml] makes of the text the printer writes for [ts]: tags
    renamed, and an elidable element without attributes and content
    left out (its indentation stays). *)
Fixpoint print_fixed (ts : list Token) (p : printer) (pending : option string) : string :=
  match ts with
  | [] => flush pending
  | CharData d :: ts' =>
      if String.eqb (EscapeText d) "" then print_fixed ts' p pending
      else flush pending ++ EscapeText d ++ print_fixed ts' p None
  | EndElement m :: ts' =>
      let (ind, p') := writeIndent (-1) p in
      match pending with
      | Some n =>
          if (String.eqb m n && String.eqb ind "")%bool then print_fixed ts' p' None
          else flush pending ++ ind ++ "</" ++ fix_name m ++ ">" ++ print_fixed ts' p' None
      | None => ind ++ "</" ++ fix_name m ++ ">" ++ print_fixed ts' p' None
      end
  | StartElement m attr :: ts' =>
      let (ind, p') := writeIndent 1 p in
      flush pending ++ ind ++
      match attr with
      | [] =>
          if elidable m then print_fixed ts' p' (Some m)
          else "<" ++ fix_name m ++ ">" ++ print_fixed ts' p' None
      | _ => "<" ++ fix_name m ++ write_attrs attr ++ ">" ++ print_fixed ts' p' None
      end
  end.

(** A token of the marshaller: its element name is one of the struct
    tags, its attribute names hold no [<]. *)
Definition token_ok (t : Token) : Prop :=
  match t with
  | StartElement n attr =>
      In n known_names /\ Forall (fun kv => has_byte "<" (fst kv) = false) attr
  | EndElement n => In n known_names
  | CharData _ => True
  end.

(** * Properties of the credential manager *)

Lemma eqb_empty_false (s : string) : s <> "" -> String.eqb s "" = false.
Proof. intro H. apply String.eqb_neq. exact H. Qed.

Lemma app_snoc2 {A} (t : list A) (a b : A) : ((t ++ [a]) ++ [b] = t ++ [a; b])%list.
Proof. rewrite <- app_assoc. reflexivity. Qed.

Lemma app_snoc3 {A} (t : list A) (a b c : A) :
  (((t ++ [a]) ++ [b]) ++ [c] = t ++ [a; b; c])%list.
Proof. rewrite <- !app_assoc. reflexivity. Qed.

(** Unfolding of the monad's operations in a goal. *)
Ltac run_M :=
  unfold AuthStorage_Load, AuthStorage_Save, AccessTokenRetriever_Retrieve,
    bind, ret, call, panic; cbn beta iota.

Section StandardAuthManagerFacts.

Variable m : StandardAuthManager.
Variable t : Trace.
Variable d : AuthDetails.

(** The store's [Load], called after the calls of [t], returns the
    record [d]. *)
Hypothesis Hload : Load (SAM_AuthStorage m) (t ++ [CallLoad])%list = (Some d, None).

(** The run of the shared helper on a record with a refresh token,
    when the exchange succeeds. *)
Lemma exchange_ok (a : AuthDetails) (t0 : Trace) (tok : string) :
  RefreshToken a <> "" ->
  Retrieve (SAM_AccessTokenRetriever m) (RefreshToken a)
    (t0 ++ [CallRetrieve (RefreshToken a)])%list = (tok, None) ->
  exchangeRefreshTokenForAccessTokenAndStore m a t0
  = (Some (tok, None),
     (t0 ++ [CallRetrieve (RefreshToken a); CallSave (mkAuthDetails (RefreshToken a) tok)])%list).
Proof.
  intros Hr Hx. unfold exchangeRefreshTokenForAccessTokenAndStore.
  rewrite (eqb_empty_false Hr). run_M. rewrite Hx. cbn.
  rewrite app_snoc2. reflexivity.
Qed.

Lemma exchange_missing (a : AuthDetails) (t0 : Trace) :
  RefreshToken a = "" ->
  exchangeRefreshTokenForAccessTokenAndStore m a t0
  = (Some ("", Some (errors_New "no refresh token provided")), t0).
Proof.
  intros Hr. unfold exchangeRefreshTokenForAccessTokenAndStore.
  rewrite Hr. reflexivity.
Qed.

Lemma AccessToken_run :
  StandardAuthManager_AccessToken m t
  = if negb (String.eqb (AccessToken d) "")
    then (Some (AccessToken d, None), (t ++ [CallLoad])%list)
    else exchangeRefreshTokenForAccessTokenAndStore m d (t ++ [CallLoad])%list.
Proof.
  unfold StandardAuthManager_AccessToken. run_M. rewrite Hload.
  destruct (negb (String.eqb (AccessToken d) "")); reflexivity.
Qed.

Lemma Renew_run :
  StandardAuthManager_Renew m t
  = exchangeRefreshTokenForAccessTokenAndStore m (mkAuthDetails (RefreshToken d) "")
      (t ++ [CallLoad])%list.
Proof.
  unfold StandardAuthManager_Renew. run_M. rewrite Hload. reflexivity.
Qed.

(** C5. Caching: a record loaded with a non-empty access token is
    answered with that token after the [Load] alone, with no call of
    [Retrieve]; a record loaded with an empty access token and a
    refresh token, when the exchange succeeds, is answered with the
    new token after exactly one [Retrieve] and one [Save] of the record
    that carries the new token. *)
Theorem AccessToken_caching :
  (AccessToken d <> "" ->
   StandardAuthManager_AccessToken m t
   = (Some (AccessToken d, None), (t ++ [CallLoad])%list))
  /\
  (forall tok,
   AccessToken d = "" ->
   RefreshToken d <> "" ->
   Retrieve (SAM_AccessTokenRetriever m) (RefreshToken d)
     (t ++ [CallLoad; CallRetrieve (RefreshToken d)])%list = (tok, None) ->
   StandardAuthManager_AccessToken m t
   = (Some (tok, None),
      (t ++ [CallLoad; CallRetrieve (RefreshToken d);
             CallSave (mkAuthDetails (RefreshToken d) tok)])%list)).
Proof.
  split.
  - intro Ha. rewrite AccessToken_run, (eqb_empty_false Ha). reflexivity.
  - intros tok Ha Hr Hx. rewrite AccessToken_run, Ha. cbn.
    rewrite exchange_ok with (tok := tok); auto.
    + rewrite <- app_assoc. reflexivity.
    + rewrite <- app_assoc. exact Hx.
Qed.

(** C6. Missing refresh token: when the record loaded has an empty
    refresh token, [AccessToken] (on an empty access token) and
    [Renew] (on any record) fail with the error "no refresh token
    provided" after the [Load] alone: [Retrieve] is not called. *)
Theorem missing_refresh_token :
  RefreshToken d = "" ->
  (AccessToken d = "" ->
   StandardAuthManager_AccessToken m t
   = (Some ("", Some (errors_New "no refresh token provided")), (t ++ [CallLoad])%list))
  /\
  StandardAuthManager_Renew m t
  = (Some ("", Some (errors_New "no refresh token provided")), (t ++ [CallLoad])%list).
Proof.
  intro Hr. split.
  - intro Ha. rewrite AccessToken_run, Ha. cbn. apply exchange_missing. exact Hr.
  - rewrite Renew_run. apply exchange_missing. exact Hr.
Qed.

(** C7. Persistence failures are swallowed: when the exchange returns
    a token, [AccessToken] (on an empty access token) and [Renew]
    return that token and no error, whatever [Save] answers. *)
Theorem save_error_swallowed (tok : string) (save_result : option error) :
  RefreshToken d <> "" ->
  Retrieve (SAM_AccessTokenRetriever m) (RefreshToken d)
    (t ++ [CallLoad; CallRetrieve (RefreshToken d)])%list = (tok, None) ->
  Save (SAM_AuthStorage m) (mkAuthDetails (RefreshToken d) tok)
    (t ++ [CallLoad; CallRetrieve (RefreshToken d);
           CallSave (mkAuthDetails (RefreshToken d) tok)])%list = save_result ->
  (AccessToken d = "" -> fst (StandardAuthManager_AccessToken m t) = Some (tok, None))
  /\ fst (StandardAuthManager_Renew m t) = Some (tok, None).
Proof.
  intros Hr Hx _. split.
  - intro Ha. rewrite AccessToken_run, Ha. cbn.
    rewrite exchange_ok with (tok := tok); auto.
    rewrite <- app_assoc. exact Hx.
  - rewrite Renew_run.
    rewrite exchange_ok with (tok := tok); auto.
    cbn. rewrite <- app_assoc. exact Hx.
Qed.

(** What a run of the helper hands to [Save]. *)
Lemma exchange_saved (a : AuthDetails) (t0 : Trace) :
  exists l,
    snd (exchangeRefreshTokenForAccessTokenAndStore m a t0) = (t0 ++ l)%list
    /\ Forall (fun a' => RefreshToken a' = RefreshToken a) (saved l)
    /\ Forall (fun r => r = RefreshToken a) (retrieved l).
Proof.
  unfold exchangeRefreshTokenForAccessTokenAndStore.
  destruct (String.eqb (RefreshToken a) "").
  - exists []. cbn. rewrite app_nil_r. auto.
  - run_M.
    destruct (Retrieve (SAM_AccessTokenRetriever m) (RefreshToken a)
                (t0 ++ [CallRetrieve (RefreshToken a)])%list) as [tok [e|]]; cbn.
    + exists [CallRetrieve (RefreshToken a)]. cbn. auto.
    + exists [CallRetrieve (RefreshToken a); CallSave (mkAuthDetails (RefreshToken a) tok)].
      cbn. rewrite app_snoc2. auto.
Qed.

(** C9. The refresh token is never modified: in a run of
    [AccessToken] or of [Renew] the calls are appended to those made
    before, and every record handed to [Save] carries the refresh
    token of the record that was loaded (as does every call of
    [Retrieve]). *)
Theorem refresh_token_immutable :
  (exists l,
     snd (StandardAuthManager_AccessToken m t) = (t ++ l)%list
     /\ Forall (fun d' => RefreshToken d' = RefreshToken d) (saved l)
     /\ Forall (fun r => r = RefreshToken d) (retrieved l))
  /\
  (exists l,
     snd (StandardAuthManager_Renew m t) = (t ++ l)%list
     /\ Forall (fun d' => RefreshToken d' = RefreshToken d) (saved l)
     /\ Forall (fun r => r = RefreshToken d) (retrieved l)).
Proof.
  split.
  - rewrite AccessToken_run.
    destruct (negb (String.eqb (AccessToken d) "")).
    + exists [CallLoad]. cbn. auto.
    + destruct (exchange_saved d (t ++ [CallLoad])%list) as (l & Hl & Hs & Hr).
      exists (CallLoad :: l). rewrite Hl, <- app_assoc. cbn. auto.
  - rewrite Renew_run.
    destruct (exchange_saved (mkAuthDetails (RefreshToken d) "") (t ++ [CallLoad])%list)
      as (l & Hl & Hs & Hr).
    exists (CallLoad :: l). rewrite Hl, <- app_assoc. cbn. auto.
Qed.

End StandardAuthManagerFacts.

(** Concrete runs: a cached token; an empty access token exchanged
    for a fresh one and saved. *)
Lemma AccessToken_caching_witness :
  StandardAuthManager_AccessToken
    (mkStandardAuthManager (constRetriever "fresh") (memStorage (mkAuthDetails "r" "cached"))) []
  = (Some ("cached", None), [CallLoad])
  /\
  StandardAuthManager_AccessToken
    (mkStandardAuthManager (constRetriever "fresh") (memStorage (mkAuthDetails "r" ""))) []
  = (Some ("fresh", None),
     [CallLoad; CallRetrieve "r"; CallSave (mkAuthDetails "r" "fresh")]).
Proof.
  split.
  - apply (proj1 (@AccessToken_caching
             (mkStandardAuthManager (constRetriever "fresh")
                (memStorage (mkAuthDetails "r" "cached")))
             [] (mkAuthDetails "r" "cached") eq_refl)).
    discriminate.
  - apply (proj2 (@AccessToken_caching
             (mkStandardAuthManager (constRetriever "fresh")
                (memStorage (mkAuthDetails "r" "")))
             [] (mkAuthDetails "r" "") eq_refl) "fresh").
    + reflexivity.
    + discriminate.
    + reflexivity.
Defined.

Lemma missing_refresh_token_witness :
  StandardAuthManager_AccessToken
    (mkStandardAuthManager (constRetriever "fresh") (memStorage (mkAuthDetails "" ""))) []
  = (Some ("", Some (errors_New "no refresh token provided")), [CallLoad])
  /\
  StandardAuthManager_Renew
    (mkStandardAuthManager (constRetriever "fresh") (memStorage (mkAuthDetails "" "old"))) []
  = (Some ("", Some (errors_New "no refresh token provided")), [CallLoad]).
Proof.
  split.
  - apply (proj1 (@missing_refresh_token
             (mkStandardAuthManager (constRetriever "fresh")
                (memStorage (mkAuthDetails "" "")))
             [] (mkAuthDetails "" "") eq_refl eq_refl)).
    reflexivity.
  - apply (proj2 (@missing_refresh_token
             (mkStandardAuthManager (constRetriever "fresh")
                (memStorage (mkAuthDetails "" "old")))
             [] (mkAuthDetails "" "old") eq_refl eq_refl)).
Defined.

(** A store whose [Save] fails does not keep the token from the
    caller. *)
Lemma save_error_swallowed_witness :
  fst (StandardAuthManager_AccessToken
         (mkStandardAuthManager (constRetriever "fresh")
            (readOnlyStorage (mkAuthDetails "r" ""))) [])
  = Some ("fresh", None)
  /\
  fst (StandardAuthManager_Renew
         (mkStandardAuthManager (constRetriever "fresh")
            (readOnlyStorage (mkAuthDetails "r" ""))) [])
  = Some ("fresh", None).
Proof.
  assert (H := @save_error_swallowed
            (mkStandardAuthManager (constRetriever "fresh")
               (readOnlyStorage (mkAuthDetails "r" "")))
            [] (mkAuthDetails "r" "") eq_refl "fresh" (Some "read-only file system")).
  cbn in H. destruct H as [H1 H2]; try reflexivity; try discriminate.
  split; [apply H1; reflexivity | exact H2].
Defined.

Lemma refresh_token_immutable_witness :
  (exists l,
     snd (StandardAuthManager_AccessToken
            (mkStandardAuthManager (constRetriever "fresh")
               (memStorage (mkAuthDetails "r" ""))) []) = l
     /\ Forall (fun d' => RefreshToken d' = "r") (saved l)
     /\ Forall (fun r => r = "r") (retrieved l))
  /\
  (exists l,
     snd (StandardAuthManager_Renew
            (mkStandardAuthManager (constRetriever "fresh")
               (memStorage (mkAuthDetails "r" "old"))) []) = l
     /\ Forall (fun d' => RefreshToken d' = "r") (saved l)
     /\ Forall (fun r => r = "r") (retrieved l)).
Proof.
  split.
  - exact (proj1 (@refresh_token_immutable
             (mkStandardAuthManager (constRetriever "fresh")
                (memStorage (mkAuthDetails "r" "")))
             [] (mkAuthDetails "r" "") eq_refl)).
  - exact (proj2 (@refresh_token_immutable
             (mkStandardAuthManager (constRetriever "fresh")
                (memStorage (mkAuthDetails "r" "old")))
             [] (mkAuthDetails "r" "old") eq_refl)).
Defined.

(** * The local identifier of an entry *)

Lemma len_String (c : ascii) (s : string) : len (String c s) = (len s + 1)%Z.
Proof. unfold len. cbn [String.length]. lia. Qed.

Lemma len_nonneg (s : string) : (0 <= len s)%Z.
Proof. unfold len. lia. Qed.

Lemma substring_whole (s : string) : substring 0 (String.length s) s = s.
Proof. induction s as [|c s IH]; cbn; [reflexivity | now rewrite IH]. Qed.

Lemma substring_after (a b : string) :
  substring (String.length a) (String.length b) (a ++ b) = b.
Proof. induction a as [|c a IH]; cbn; [apply substring_whole | exact IH]. Qed.

Lemma length_append (a b : string) :
  String.length (a ++ b) = (String.length a + String.length b)%nat.
Proof. induction a as [|c a IH]; cbn; [reflexivity | now rewrite IH]. Qed.

Lemma slice_ok (s : string) (lo hi : Z) :
  (0 <= lo <= hi)%Z -> (hi <= len s)%Z ->
  slice s lo hi = Some (substring (Z.to_nat lo) (Z.to_nat (hi - lo)) s).
Proof.
  intros [H1 H2] H3. unfold slice.
  apply Z.leb_le in H1, H2, H3. rewrite H1, H2, H3. reflexivity.
Qed.

Lemma prefix_byte (c c' : ascii) (s : string) :
  strings_HasPrefix (String c' s) (String c "") = Ascii.eqb c' c.
Proof. cbn [strings_HasPrefix]. rewrite andb_true_r. apply Ascii.eqb_sym. Qed.

(** [strings.LastIndex(s, "/")] is the index of the slash that no
    slash follows, or the value it started from. *)
Lemma LastIndex_from_slash (s : string) :
  forall i found,
    (has_byte "/" s = false /\ LastIndex_from s "/" i found = found)
    \/ (exists a b, s = a ++ String "/" b /\ has_byte "/" b = false
                    /\ LastIndex_from s "/" i found = (i + len a)%Z).
Proof.
  induction s as [|c s IH]; intros i found.
  - left. split; reflexivity.
  - cbn [LastIndex_from has_byte]. rewrite prefix_byte.
    destruct (Ascii.eqb c "/") eqn:Hc; cbn [orb].
    + apply Ascii.eqb_eq in Hc. subst c.
      destruct (IH (i + 1)%Z i) as [[Hn Hr]|(a & b & Hs & Hn & Hr)].
      * right. exists "", s. repeat split; auto. rewrite Hr. cbn. lia.
      * right. exists (String "/" a), b. repeat split; auto.
        -- cbn. now rewrite Hs.
        -- rewrite Hr, len_String. lia.
    + destruct (IH (i + 1)%Z found) as [[Hn Hr]|(a & b & Hs & Hn & Hr)].
      * left. split; auto.
      * right. exists (String c a), b. repeat split; auto.
        -- cbn. now rewrite Hs.
        -- rewrite Hr, len_String. lia.
Qed.

(** The slice [id[pos+1:len(id)]] taken by [GetId] never panics and is
    the part of [id] after its last slash. *)
Lemma local_identifier (id : string) :
  exists r,
    slice id (strings_LastIndex id "/" + 1) (len id) = Some r
    /\ has_byte "/" r = false
    /\ (id = r \/ exists p, id = p ++ "/" ++ r).
Proof.
  unfold strings_LastIndex.
  destruct (LastIndex_from_slash id 0 (-1)) as [[Hn Hr]|(a & b & Hs & Hn & Hr)].
  - exists id. rewrite Hr. pose proof (len_nonneg id).
    rewrite slice_ok by lia.
    replace (Z.to_nat (len id - (-1 + 1))) with (String.length id) by (unfold len; lia).
    cbn. rewrite substring_whole. auto.
  - exists b. rewrite Hr.
    assert (Hlen : len id = (len a + 1 + len b)%Z).
    { rewrite Hs. unfold len. rewrite length_append. cbn [String.length]. lia. }
    pose proof (len_nonneg a). pose proof (len_nonneg b).
    rewrite slice_ok by lia.
    replace (Z.to_nat (0 + len a + 1)) with (String.length (a ++ "/"))
      by (rewrite length_append; unfold len; cbn [String.length]; lia).
    replace (Z.to_nat (len id - (0 + len a + 1))) with (String.length b)
      by (rewrite Hlen; unfold len; lia).
    assert (Hid : id = (a ++ "/") ++ b).
    { rewrite Hs. clear. induction a as [|c a IH]; cbn; [reflexivity | now rewrite IH]. }
    rewrite Hid at 1. rewrite substring_after. repeat split; auto. right. exists a.
    rewrite Hs. reflexivity.
Qed.

Section GetIdFacts.

Context {Time : Type}.

(** C10. [GetId] returns the part of the [Id] after its last slash: it
    never panics, its result holds no slash, and the [Id] is either
    the result itself (an [Id] without a slash) or some prefix, a
    slash and the result; this holds in both clients.  An [Id] ending
    in [/contacts/default/full/abc123] yields [abc123]. *)
Theorem GetId_last_path_segment (e : @Contacts.Entry Time) (e1 : @ContactsV1.Entry Time) :
  (exists r,
     Contacts.GetId e = Some r
     /\ has_byte "/" r = false
     /\ (Contacts.Entry_Id e = r \/ exists p, Contacts.Entry_Id e = p ++ "/" ++ r))
  /\
  (exists r,
     ContactsV1.GetId e1 = Some r
     /\ has_byte "/" r = false
     /\ (ContactsV1.Entry_Id e1 = r \/ exists p, ContactsV1.Entry_Id e1 = p ++ "/" ++ r))
  /\
  (forall p, Contacts.Entry_Id e = p ++ "/contacts/default/full/abc123" ->
             Contacts.GetId e = Some "abc123").
Proof.
  split; [|split].
  - apply local_identifier.
  - apply local_identifier.
  - intros p Hp. unfold Contacts.GetId.
    destruct (local_identifier (Contacts.Entry_Id e)) as (r & Hr & Hn & Hid).
    rewrite Hr. f_equal.
    assert (Hsplit : forall a b a' b' : string,
               a ++ String "/" b = a' ++ String "/" b' ->
               has_byte "/" b = false -> has_byte "/" b' = false -> b = b').
    { clear. induction a as [|c a IH]; intros b a' b' Heq Hb Hb'.
      - destruct a' as [|c' a']; cbn in Heq.
        + congruence.
        + injection Heq as Hc Heq. subst c'. rewrite Heq in Hb.
          exfalso. clear - Hb. induction a' as [|c a' IH]; cbn in Hb.
          * discriminate.
          * apply orb_false_iff in Hb. tauto.
      - destruct a' as [|c' a']; cbn in Heq.
        + injection Heq as Hc Heq. subst c. rewrite <- Heq in Hb'.
          exfalso. clear - Hb'. induction a as [|c a IH]; cbn in Hb'.
          * discriminate.
          * apply orb_false_iff in Hb'. tauto.
        + injection Heq as Hc Heq. eapply IH; eauto. }
    destruct Hid as [Hid | [q Hq]].
    + exfalso. rewrite Hid in Hp. rewrite Hp in Hn. clear - Hn.
      induction p as [|c p IH]; cbn in Hn; [discriminate|].
      apply orb_false_iff in Hn. tauto.
    + rewrite Hp in Hq.
      change (p ++ "/contacts/default/full/abc123")
        with (p ++ "/contacts/default/full" ++ String "/" "abc123") in Hq.
      assert (Hassoc : forall a b c : string, a ++ b ++ c = (a ++ b) ++ c).
      { clear. induction a as [|x a IH]; intros; cbn; [reflexivity | now rewrite IH]. }
      rewrite Hassoc in Hq. symmetry. eapply Hsplit; eauto.
Qed.

End GetIdFacts.

(** The example of the specification, in both clients. *)
Lemma GetId_last_path_segment_witness :
  Contacts.GetId
    (Contacts.mkEntry (mkxml_Name "" "") "" ".../contacts/default/full/abc123"
       (mkTextTime "") "" "" []
       (mkName "" "" (mkGivenName "" "") "" (mkFamilyName "" "") "")
       [] (mkOrganization "" "" "") [] [] [] [] (mkBirthday "") "" "" [] [] [] [] [])
  = Some "abc123".
Proof.
  apply (proj2 (proj2 (@GetId_last_path_segment TextTime
    (Contacts.mkEntry (mkxml_Name "" "") "" ".../contacts/default/full/abc123"
       (mkTextTime "") "" "" []
       (mkName "" "" (mkGivenName "" "") "" (mkFamilyName "" "") "")
       [] (mkOrganization "" "" "") [] [] [] [] (mkBirthday "") "" "" [] [] [] [] [])
    (ContactsV1.mkEntry (mkxml_Name "" "") "" "abc123"
       (mkTextTime "") "" "" []
       (mkName "" "" (mkGivenName "" "") "" (mkFamilyName "" "") "")
       [] (mkOrganization "" "" "") [] [] [] [] (mkBirthday "") "" "" [] [] [] [] []))) "...").
  reflexivity.
Defined.

(** * Properties of the directory clients *)

Lemma requests_app (a b : Trace) : requests (a ++ b)%list = (requests a ++ requests b)%list.
Proof.
  induction a as [|c a IH]; [reflexivity|].
  destruct c; cbn; rewrite IH; reflexivity.
Qed.

Lemma count_Renew_app (a b : Trace) :
  count_Renew (a ++ b)%list = (count_Renew a + count_Renew b)%nat.
Proof.
  induction a as [|c a IH]; [reflexivity|].
  destruct c; cbn; rewrite IH; reflexivity.
Qed.

Lemma appends_ret {A} (P : Trace -> Prop) (a : A) : P [] -> appends P (ret a).
Proof. intros H t. exists []. cbn. rewrite app_nil_r. auto. Qed.

Lemma appends_panic {A} (P : Trace -> Prop) : P [] -> appends P (@panic A).
Proof. intros H t. exists []. cbn. rewrite app_nil_r. auto. Qed.

(** A run followed by continuations that make no call. *)
Lemma appends_bind_pure {A B} (P : Trace -> Prop) (m : M A) (k : A -> M B) :
  appends P m -> (forall a t, snd (k a t) = t) -> appends P (bind m k).
Proof.
  intros Hm Hk t. destruct (Hm t) as (l & Hl & HP). exists l. split; [|exact HP].
  unfold bind. destruct (m t) as [[a|] t'] eqn:E; cbn in *.
  - rewrite Hk. exact Hl.
  - exact Hl.
Qed.

Lemma appends_weaken {A} (P Q : Trace -> Prop) (m : M A) :
  (forall l, P l -> Q l) -> appends P m -> appends Q m.
Proof. intros H Hm t. destruct (Hm t) as (l & Hl & HP). exists l. auto. Qed.

Lemma one_request_impl (P Q : Request -> Prop) (l : Trace) :
  (forall req, P req -> Q req) -> one_request P l -> one_request Q l.
Proof.
  intros HPQ [Hl | (req & Hl & HP)]; [left; exact Hl | right; exists req; auto].
Qed.

Lemma one_request_counts (P : Request -> Prop) (l : Trace) :
  one_request P l ->
  Forall P (requests l) /\ count_Renew l = 0%nat /\ (List.length (requests l) <= 1)%nat.
Proof.
  intros [-> | (req & -> & HP)]; cbn; repeat split; auto.
Qed.

Section BearerClient.

Context {Time : Type}.
Context `{ZeroValue Time}.
Context `{TextMarshaler Time}.
Context `{url_Parser}.
Context `{xml_Unmarshaler (@Contacts.Entry Time)}.
Context `{xml_Unmarshaler (@Contacts.Feed Time)}.

Lemma bearer_headers (req : Request) (tok : string) :
  ReqHeader req = [] ->
  bearer_request tok
    (if negb (String.eqb tok "")
     then Request_Header_Add (Request_Header_Add req "GData-Version" "3.0")
            "Authorization" ("Bearer " ++ tok)
     else Request_Header_Add req "GData-Version" "3.0").
Proof.
  intro Hh. unfold bearer_request.
  destruct (String.eqb tok ""); cbn; rewrite Hh; split; reflexivity.
Qed.

Lemma get_appends (c : Contacts.Client) (url tok : string) :
  appends (one_request (bearer_request tok)) (Contacts.get c url tok).
Proof.
  intro t. unfold Contacts.get, http_NewRequest.
  destruct (url_Parse url) as [e|].
  - exists []. cbn. rewrite app_nil_r. split; [reflexivity | left; reflexivity].
  - cbn [deref]. unfold bind at 1. cbn [ret]. cbv beta iota.
    set (req := if negb (String.eqb tok "") then _ else _).
    exists [CallDo req]. split.
    + unfold bind, HTTPClient_Do, call.
      destruct (Do (Contacts.Client_HTTPClient c) req (t ++ [CallDo req])%list) as [resp|e];
        [destruct (StatusCode resp >=? 300)%Z|]; reflexivity.
    + right. exists req. split; [reflexivity|]. subst req. apply bearer_headers. reflexivity.
Qed.

Lemma saveContactRaw_appends (c : Contacts.Client) (tok : string) (entry : Contacts.Entry) :
  appends (one_request (fun req => bearer_request tok req
                                     /\ write_request (Contacts.Entry_ETag entry) req))
    (Contacts.saveContactRaw c tok entry).
Proof.
  intro t. unfold Contacts.saveContactRaw.
  destruct (Contacts.encode entry) as [xmlString [e|]].
  - exists []. cbn. rewrite app_nil_r. split; [reflexivity | left; reflexivity].
  - unfold http_NewRequest. destruct (url_Parse (Contacts.GetURI entry)) as [e|].
    + exists []. cbn. rewrite app_nil_r. split; [reflexivity | left; reflexivity].
    + cbn [deref]. unfold bind at 1. cbn [ret]. cbv beta iota.
      set (req := if negb (String.eqb tok "") then _ else _).
      exists [CallDo req]. split.
      * unfold bind, HTTPClient_Do, call.
        destruct (Do (Contacts.Client_HTTPClient c) req (t ++ [CallDo req])%list) as [resp|e];
          [destruct (StatusCode resp >=? 300)%Z; [|destruct (BodyErr resp)]|]; reflexivity.
      * right. exists req. split; [reflexivity|]. subst req. unfold bearer_request, write_request.
        destruct (String.eqb tok ""); cbn; repeat split; reflexivity.
Qed.

Ltac pure_continuation :=
  intros [[? ?] ?] ?; reflexivity.

Lemma retrieveFeed_appends (c : Contacts.Client) (query : Contacts.ContactQuery) (tok : string) :
  appends (one_request (bearer_request tok)) (Contacts.retrieveFeed c query tok).
Proof.
  unfold Contacts.retrieveFeed. apply appends_bind_pure; [apply get_appends | pure_continuation].
Qed.

Lemma retrieveGroups_appends (c : Contacts.Client) (start max : Z) (query tok : string) :
  appends (one_request (bearer_request tok)) (Contacts.retrieveGroups c start max query tok).
Proof.
  unfold Contacts.retrieveGroups. apply appends_bind_pure; [apply get_appends | pure_continuation].
Qed.

Lemma fetchContact_appends (c : Contacts.Client) (tok contactID : string) :
  appends (one_request (bearer_request tok)) (Contacts.fetchContact c tok contactID).
Proof.
  unfold Contacts.fetchContact. apply appends_bind_pure; [apply get_appends | pure_continuation].
Qed.

Lemma saveContact_appends (c : Contacts.Client) (tok : string) (entry : Contacts.Entry) :
  appends (one_request (fun req => bearer_request tok req
                                     /\ write_request (Contacts.Entry_ETag entry) req))
    (Contacts.saveContact c tok entry).
Proof.
  unfold Contacts.saveContact. apply appends_bind_pure; [apply saveContactRaw_appends|].
  intros [buf [e|]] t; [reflexivity|]. destruct buf; reflexivity.
Qed.

End BearerClient.

Section EarlierClient.

Context {Time : Type}.
Context `{ZeroValue Time}.
Context `{TextMarshaler Time}.
Context `{url_Parser}.
Context `{xml_Unmarshaler (@ContactsV1.Entry Time)}.
Context `{xml_Unmarshaler (@ContactsV1.Feed Time)}.

Lemma get_appends_v1 (c : ContactsV1.Client) (url : string) :
  appends (one_request (fun req => plain_request req /\ URL req = url))
    (ContactsV1.get c url).
Proof.
  intro t. unfold ContactsV1.get, http_NewRequest.
  destruct (url_Parse url) as [e|].
  - exists []. cbn. rewrite app_nil_r. split; [reflexivity | left; reflexivity].
  - cbn [deref]. unfold bind at 1. cbn [ret]. cbv beta iota.
    set (req := Request_Header_Add _ _ _).
    exists [CallDo req]. split.
    + unfold bind, HTTPClient_Do, call.
      destruct (Do (ContactsV1.Client_HTTPClient c) req (t ++ [CallDo req])%list) as [resp|e];
        [destruct (StatusCode resp >=? 300)%Z|]; reflexivity.
    + right. exists req. split; [reflexivity|]. subst req. unfold plain_request. cbn. auto.
Qed.

Lemma saveContact_appends_v1 (c : ContactsV1.Client) (tok : string) (entry : ContactsV1.Entry) :
  appends (one_request (fun req => plain_request req
                                     /\ write_request (ContactsV1.Entry_ETag entry) req))
    (ContactsV1.saveContact c tok entry).
Proof.
  intro t. unfold ContactsV1.saveContact.
  destruct (ContactsV1.encode entry) as [xmlString [e|]].
  - exists []. cbn. rewrite app_nil_r. split; [reflexivity | left; reflexivity].
  - destruct (ContactsV1.GetId entry) as [id|].
    2:{ exists []. cbn. rewrite app_nil_r. split; [reflexivity | left; reflexivity]. }
    cbn [deref]. unfold bind at 1. cbn [ret]. cbv beta iota.
    unfold http_NewRequest.
    destruct (url_Parse _) as [e|].
    + exists []. cbn. rewrite app_nil_r. split; [reflexivity | left; reflexivity].
    + cbn [deref]. unfold bind at 1. cbn [ret]. cbv beta iota.
      set (req := Request_Header_Add _ _ _).
      exists [CallDo req]. split.
      * unfold bind, HTTPClient_Do, call.
        destruct (Do (ContactsV1.Client_HTTPClient c) req (t ++ [CallDo req])%list) as [resp|e];
          [destruct (StatusCode resp >=? 300)%Z; [|destruct (BodyErr resp)]|]; reflexivity.
      * right. exists req. split; [reflexivity|]. subst req. unfold plain_request, write_request.
        cbn; repeat split; reflexivity.
Qed.

End EarlierClient.

Section RequestHeaders.

Context {Time : Type}.
Context `{ZeroValue Time}.
Context `{TextMarshaler Time}.
Context `{url_Parser}.
Context `{xml_Unmarshaler (@Contacts.Entry Time)}.
Context `{xml_Unmarshaler (@Contacts.Feed Time)}.
Context `{xml_Unmarshaler (@ContactsV1.Entry Time)}.
Context `{xml_Unmarshaler (@ContactsV1.Feed Time)}.

Lemma retrieveFeed_appends_v1 (c : ContactsV1.Client) (tok : string) :
  appends (one_request (fun req =>
             plain_request req
             /\ URL req = (if ContactsV1.Client_DisableHTTPS c then "http" else "https")
                          ++ "://" ++ ContactsV1.basePath
                          ++ "?access_token=" ++ url_QueryEscape tok ++ "&max-results=10000"))
    (ContactsV1.retrieveFeed c tok).
Proof.
  unfold ContactsV1.retrieveFeed.
  eapply appends_weaken; [|apply get_appends_v1].
  intros l Hl. eapply one_request_impl; [|exact Hl].
  intros req [Hp Hu]. split; [exact Hp|].
  rewrite Hu. destruct (ContactsV1.Client_DisableHTTPS c); reflexivity.
Qed.

Lemma fetchContact_appends_v1 (c : ContactsV1.Client) (tok contactID : string) :
  appends (one_request (fun req =>
             plain_request req
             /\ URL req = (if ContactsV1.Client_DisableHTTPS c then "http" else "https")
                          ++ "://" ++ ContactsV1.basePath ++ contactID
                          ++ "?access_token=" ++ url_QueryEscape tok))
    (ContactsV1.fetchContact c tok contactID).
Proof.
  unfold ContactsV1.fetchContact.
  eapply appends_weaken; [|apply get_appends_v1].
  intros l Hl. eapply one_request_impl; [|exact Hl].
  intros req [Hp Hu]. split; [exact Hp|].
  rewrite Hu. destruct (ContactsV1.Client_DisableHTTPS c); reflexivity.
Qed.

(** C8, as amended.  In the client with bearer authorization, every
    request that a wire operation hands to the transport carries
    [GData-Version: 3.0] and carries [Authorization: Bearer <token>]
    exactly when the token is not empty; a save request is moreover a
    PUT with [Content-Type: application/atom+xml] and an [If-Match]
    header holding the entity tag of the entry.  In the earlier client
    every request carries [GData-Version: 3.0], a save request the
    same [Content-Type] and [If-Match], and no request carries an
    [Authorization] header: the token is the [access_token] parameter
    of the query string. *)
Theorem request_headers
    (c : Contacts.Client) (c1 : ContactsV1.Client)
    (tok url contactID query : string) (start max : Z) (q : Contacts.ContactQuery)
    (entry : @Contacts.Entry Time) (entry1 : @ContactsV1.Entry Time) :
  (appends (one_request (bearer_request tok)) (Contacts.get c url tok)
   /\ appends (one_request (bearer_request tok)) (Contacts.retrieveFeed c q tok)
   /\ appends (one_request (bearer_request tok)) (Contacts.retrieveGroups c start max query tok)
   /\ appends (one_request (bearer_request tok)) (Contacts.fetchContact c tok contactID)
   /\ appends (one_request (fun req => bearer_request tok req
                                         /\ write_request (Contacts.Entry_ETag entry) req))
        (Contacts.saveContactRaw c tok entry))
  /\
  (appends (one_request (fun req =>
              plain_request req
              /\ URL req = (if ContactsV1.Client_DisableHTTPS c1 then "http" else "https")
                           ++ "://" ++ ContactsV1.basePath
                           ++ "?access_token=" ++ url_QueryEscape tok ++ "&max-results=10000"))
     (ContactsV1.retrieveFeed c1 tok)
   /\ appends (one_request (fun req =>
                 plain_request req
                 /\ URL req = (if ContactsV1.Client_DisableHTTPS c1 then "http" else "https")
                              ++ "://" ++ ContactsV1.basePath ++ contactID
                              ++ "?access_token=" ++ url_QueryEscape tok))
        (ContactsV1.fetchContact c1 tok contactID)
   /\ appends (one_request (fun req => plain_request req
                                         /\ write_request (ContactsV1.Entry_ETag entry1) req))
        (ContactsV1.saveContact c1 tok entry1)).
Proof.
  split; [split; [|split; [|split; [|split]]] | split; [|split]].
  - apply get_appends.
  - apply retrieveFeed_appends.
  - apply retrieveGroups_appends.
  - apply fetchContact_appends.
  - apply saveContactRaw_appends.
  - apply retrieveFeed_appends_v1.
  - apply fetchContact_appends_v1.
  - apply saveContact_appends_v1.
Qed.

End RequestHeaders.

(** C8 as stated fails in the earlier client: with the access token
    [tok], the request of [fetchContact] has the protocol version as
    its only header, and the token in its URL. *)
Lemma earlier_client_sends_no_bearer_header :
  requests (snd (@ContactsV1.fetchContact lenient_url_Parser
                   (ContactsV1.mkClient
                      (StandardAuthManager_AuthManager
                         (mkStandardAuthManager (constRetriever "tok")
                            (memStorage (mkAuthDetails "r" "tok"))))
                      (scriptedHTTP [response_ok "<entry></entry>"]) false)
                   "tok" "abc123" []))
  = [mkRequest "GET"
       "https://www.google.com/m8/feeds/contacts/default/full/abc123?access_token=tok"
       [("GData-Version", "3.0")] ""].
Proof. reflexivity. Qed.

(** * The policy of one retry after a renewal *)

(** At most [r] calls of [Renew] and [q] requests. *)
Definition bounded (r q : nat) (l : Trace) : Prop :=
  (count_Renew l <= r)%nat /\ (List.length (requests l) <= q)%nat.

Lemma appends_bind {A B} (r1 q1 r2 q2 : nat) (m : M A) (k : A -> M B) :
  appends (bounded r1 q1) m ->
  (forall a, appends (bounded r2 q2) (k a)) ->
  appends (bounded (r1 + r2) (q1 + q2)) (bind m k).
Proof.
  intros Hm Hk t. destruct (Hm t) as (l1 & Hl1 & Hr1 & Hq1).
  unfold bind. destruct (m t) as [[a|] t1]; cbn in Hl1; subst t1.
  - destruct (Hk a (t ++ l1)%list) as (l2 & Hl2 & Hr2 & Hq2).
    exists (l1 ++ l2)%list. rewrite Hl2, app_assoc. split; [reflexivity|].
    unfold bounded. rewrite count_Renew_app, requests_app, length_app. lia.
  - exists l1. split; [reflexivity|]. unfold bounded. lia.
Qed.

Lemma appends_bounded_weaken {A} (r q r' q' : nat) (m : M A) :
  (r <= r')%nat -> (q <= q')%nat -> appends (bounded r q) m -> appends (bounded r' q') m.
Proof.
  intros Hr Hq. apply appends_weaken. unfold bounded. intros l [H1 H2]. lia.
Qed.

Lemma appends_bind_le {A B} (r1 q1 r2 q2 r q : nat) (m : M A) (k : A -> M B) :
  appends (bounded r1 q1) m ->
  (forall a, appends (bounded r2 q2) (k a)) ->
  (r1 + r2 <= r)%nat -> (q1 + q2 <= q)%nat ->
  appends (bounded r q) (bind m k).
Proof.
  intros Hm Hk Hr Hq. eapply appends_bounded_weaken; [exact Hr | exact Hq|].
  apply appends_bind; assumption.
Qed.

Lemma auth_calls_bounded (l : Trace) : Forall auth_call l -> bounded 0 0 l.
Proof.
  induction 1 as [|c l Hc Hl [IH1 IH2]]; [split; cbn; lia|].
  destruct c; try contradiction; split; cbn; assumption.
Qed.

Lemma one_request_bounded (P : Request -> Prop) (l : Trace) :
  one_request P l -> bounded 0 1 l.
Proof.
  intros Hl. destruct (one_request_counts Hl) as (_ & Hc & Hn). split; lia.
Qed.

Section RetryShape.

Variable A : Type.
Variable am : AuthManager.
Variable attempt : string -> M (A * option error).
Variable nil : A.

Hypothesis Ham : manager_internal am.
Hypothesis Hattempt : single_request attempt.

Lemma call_AccessToken_appends :
  appends (fun l => exists l', l = CallAccessToken :: l' /\ Forall auth_call l')
    (call_AccessToken am).
Proof.
  intro t. destruct Ham as [Ha _]. destruct (Ha (t ++ [CallAccessToken])%list) as (l & Hl & HP).
  exists (CallAccessToken :: l). unfold call_AccessToken. rewrite Hl, <- app_assoc.
  split; [reflexivity|]. exists l. auto.
Qed.

Lemma call_Renew_appends :
  appends (fun l => exists l', l = CallRenew :: l' /\ Forall auth_call l') (call_Renew am).
Proof.
  intro t. destruct Ham as [_ Hr]. destruct (Hr (t ++ [CallRenew])%list) as (l & Hl & HP).
  exists (CallRenew :: l). unfold call_Renew. rewrite Hl, <- app_assoc.
  split; [reflexivity|]. exists l. auto.
Qed.

Lemma call_AccessToken_bounded : appends (bounded 0 0) (call_AccessToken am).
Proof.
  eapply appends_weaken; [|apply call_AccessToken_appends].
  intros l (l' & -> & Hl'). destruct (auth_calls_bounded Hl') as [H1 H2]. split; cbn; lia.
Qed.

Lemma call_Renew_bounded : appends (bounded 1 0) (call_Renew am).
Proof.
  eapply appends_weaken; [|apply call_Renew_appends].
  intros l (l' & -> & Hl'). destruct (auth_calls_bounded Hl') as [H1 H2]. split; cbn; lia.
Qed.

Lemma attempt_bounded (tok : string) : appends (bounded 0 1) (attempt tok).
Proof.
  eapply appends_weaken; [|apply Hattempt].
  intros l Hl. eapply one_request_bounded; eauto.
Qed.

Lemma ret_bounded {B} (b : B) : appends (bounded 0 0) (ret b).
Proof. apply appends_ret. split; cbn; lia. Qed.

Lemma with_retry_bounded : appends (bounded 1 2) (with_retry am attempt nil).
Proof.
  unfold with_retry.
  apply appends_bind_le with (r1 := 0%nat) (q1 := 0%nat) (r2 := 1%nat) (q2 := 2%nat);
    [apply call_AccessToken_bounded | | lia | lia].
  intros [tok1 [e|]].
  { eapply appends_bounded_weaken; [| |apply ret_bounded]; lia. }
  apply appends_bind_le with (r1 := 0%nat) (q1 := 1%nat) (r2 := 1%nat) (q2 := 1%nat);
    [apply attempt_bounded | | lia | lia].
  intros [data [e|]].
  2:{ eapply appends_bounded_weaken; [| |apply ret_bounded]; lia. }
  apply appends_bind_le with (r1 := 1%nat) (q1 := 0%nat) (r2 := 0%nat) (q2 := 1%nat);
    [apply call_Renew_bounded | | lia | lia].
  intros [tok2 [e2|]].
  { eapply appends_bounded_weaken; [| |apply ret_bounded]; lia. }
  apply appends_bind_le with (r1 := 0%nat) (q1 := 1%nat) (r2 := 0%nat) (q2 := 0%nat);
    [apply attempt_bounded | | lia | lia].
  intros [data2 [e3|]]; apply ret_bounded.
Qed.

(** The shape obeys the policy. *)
Lemma with_retry_policy : retry_once am attempt nil (with_retry am attempt nil).
Proof.
  intro t. split; [|split; [|split]].
  - destruct (with_retry_bounded t) as (l & Hl & Hr & Hq). exists l. auto.
  - intros tok1 t1 data t2 H1 H2. split.
    + unfold with_retry, bind. rewrite H1. cbn. rewrite H2. reflexivity.
    + destruct (call_AccessToken_appends t) as (l1 & Hl1 & l1' & -> & Hauth).
      rewrite H1 in Hl1. cbn in Hl1. subst t1.
      destruct (Hattempt tok1 (t ++ CallAccessToken :: l1')%list) as (l2 & Hl2 & Hreq).
      rewrite H2 in Hl2. cbn in Hl2. subst t2.
      exists ((CallAccessToken :: l1') ++ l2)%list. rewrite app_assoc. split; [reflexivity|].
      rewrite count_Renew_app. cbn.
      destruct (auth_calls_bounded Hauth) as [Hc _].
      destruct (one_request_counts Hreq) as (_ & Hc2 & _). lia.
  - intros tok1 t1 data e1 t2 tok2 t3 H1 H2 H3.
    assert (Hop : with_retry am attempt nil t = retried nil (attempt tok2 t3)).
    { unfold with_retry, bind. rewrite H1. cbn. rewrite H2. cbn. rewrite H3. cbn.
      destruct (attempt tok2 t3) as [[[d [e|]]|] t4]; reflexivity. }
    split; [exact Hop|].
    destruct (call_AccessToken_appends t) as (l1 & Hl1 & l1' & -> & Hauth).
    rewrite H1 in Hl1. cbn in Hl1. subst t1.
    destruct (Hattempt tok1 (t ++ CallAccessToken :: l1')%list) as (l2 & Hl2 & Hreq).
    rewrite H2 in Hl2. cbn in Hl2. subst t2.
    destruct (call_Renew_appends ((t ++ CallAccessToken :: l1') ++ l2)%list)
      as (l3 & Hl3 & l3' & -> & Hauth3).
    rewrite H3 in Hl3. cbn in Hl3. subst t3.
    destruct (Hattempt tok2 (((t ++ CallAccessToken :: l1') ++ l2) ++ CallRenew :: l3')%list)
      as (l4 & Hl4 & Hreq4).
    exists ((CallAccessToken :: l1') ++ l2 ++ (CallRenew :: l3') ++ l4)%list.
    split.
    + rewrite Hop.
      replace (snd (retried nil
                 (attempt tok2 (((t ++ CallAccessToken :: l1') ++ l2) ++ CallRenew :: l3')%list)))
        with (snd (attempt tok2 (((t ++ CallAccessToken :: l1') ++ l2) ++ CallRenew :: l3')%list)).
      * rewrite Hl4, <- !app_assoc. reflexivity.
      * destruct (attempt tok2 _) as [[[d [e|]]|] t4]; reflexivity.
    + rewrite !count_Renew_app. cbn.
      destruct (auth_calls_bounded Hauth) as [Hc1 _].
      destruct (auth_calls_bounded Hauth3) as [Hc3 _].
      destruct (one_request_counts Hreq) as (_ & Hc2 & _).
      destruct (one_request_counts Hreq4) as (_ & Hc4 & _). lia.
  - intros tok1 t1 data e1 t2 x e2 t3 H1 H2 H3.
    unfold with_retry, bind. rewrite H1. cbn. rewrite H2. cbn. rewrite H3. reflexivity.
Qed.

End RetryShape.

(** The manager of [auth.go] makes calls to its store and retriever
    only. *)
Lemma StandardAuthManager_internal (m : StandardAuthManager) :
  manager_internal (StandardAuthManager_AuthManager m).
Proof.
  assert (Hx : forall a, appends (Forall auth_call)
                           (exchangeRefreshTokenForAccessTokenAndStore m a)).
  { intros a t. unfold exchangeRefreshTokenForAccessTokenAndStore.
    destruct (String.eqb (RefreshToken a) "").
    - exists []. cbn. rewrite app_nil_r. auto.
    - run_M.
      destruct (Retrieve (SAM_AccessTokenRetriever m) (RefreshToken a)
                  (t ++ [CallRetrieve (RefreshToken a)])%list) as [tok [e|]]; cbn.
      + exists [CallRetrieve (RefreshToken a)]. split; [reflexivity|].
        repeat constructor.
      + exists [CallRetrieve (RefreshToken a); CallSave (mkAuthDetails (RefreshToken a) tok)].
        rewrite app_snoc2. split; [reflexivity|]. repeat constructor. }
  split; intro t; cbn.
  - unfold StandardAuthManager_AccessToken. run_M.
    destruct (Load (SAM_AuthStorage m) (t ++ [CallLoad])%list) as [[d|] [e|]]; cbn;
      try (exists [CallLoad]; split; [reflexivity | repeat constructor]).
    destruct (negb (String.eqb (AccessToken d) "")).
    + exists [CallLoad]. split; [reflexivity | repeat constructor].
    + destruct (Hx d (t ++ [CallLoad])%list) as (l & Hl & HP).
      exists (CallLoad :: l). rewrite Hl, <- app_assoc. split; [reflexivity|].
      constructor; [exact I | exact HP].
  - unfold StandardAuthManager_Renew. run_M.
    destruct (Load (SAM_AuthStorage m) (t ++ [CallLoad])%list) as [[d|] [e|]]; cbn;
      try (exists [CallLoad]; split; [reflexivity | repeat constructor]).
    destruct (Hx (mkAuthDetails (RefreshToken d) "") (t ++ [CallLoad])%list) as (l & Hl & HP).
    exists (CallLoad :: l). rewrite Hl, <- app_assoc. split; [reflexivity|].
    constructor; [exact I | exact HP].
Qed.

(** * The public operations *)

Section BearerOperations.

Context {Time : Type}.
Context `{ZeroValue Time}.
Context `{TextMarshaler Time}.
Context `{url_Parser}.
Context `{xml_Unmarshaler (@Contacts.Entry Time)}.
Context `{xml_Unmarshaler (@Contacts.Feed Time)}.

Variable c : Contacts.Client.

Lemma FetchFeedRaw_shape (query : Contacts.ContactQuery) :
  Contacts.FetchFeedRaw c query
  = with_retry (Contacts.Client_AuthManager c) (Contacts.retrieveFeed c query) "".
Proof. reflexivity. Qed.

Lemma FetchGroupsRaw_shape (start max : Z) (query : string) :
  Contacts.FetchGroupsRaw c start max query
  = with_retry (Contacts.Client_AuthManager c) (Contacts.retrieveGroups c start max query) "".
Proof. reflexivity. Qed.

Lemma FetchContactRaw_shape (contactID : string) :
  Contacts.FetchContactRaw c contactID
  = with_retry (Contacts.Client_AuthManager c)
      (fun accessToken => Contacts.fetchContact c accessToken contactID) "".
Proof. reflexivity. Qed.

Lemma Save_shape (entry : Contacts.Entry) :
  Contacts.Save c entry
  = with_retry (Contacts.Client_AuthManager c)
      (fun accessToken => Contacts.saveContact c accessToken entry) None.
Proof. reflexivity. Qed.

Lemma SaveRaw_shape (entry : Contacts.Entry) :
  Contacts.SaveRaw c entry
  = with_retry (Contacts.Client_AuthManager c)
      (fun accessToken => Contacts.saveContactRaw c accessToken entry) None.
Proof. reflexivity. Qed.

Lemma single_request_of {A} (P : string -> Request -> Prop) (attempt : string -> M A) :
  (forall tok, appends (one_request (P tok)) (attempt tok)) -> single_request attempt.
Proof.
  intros Ha tok. eapply appends_weaken; [|apply Ha].
  intros l Hl. eapply one_request_impl; [|exact Hl]. auto.
Qed.

(** The retry policy holds for the operations of the client with
    bearer authorization that fetch a feed, the groups or an entry and
    that save an entry, whatever the transport answers, for every
    manager that keeps to its store and retriever. *)
Theorem bearer_operations_retry_once
    (query : Contacts.ContactQuery) (start max : Z) (q contactID : string)
    (entry : Contacts.Entry) :
  manager_internal (Contacts.Client_AuthManager c) ->
  retry_once (Contacts.Client_AuthManager c) (Contacts.retrieveFeed c query) ""
    (Contacts.FetchFeedRaw c query)
  /\ retry_once (Contacts.Client_AuthManager c) (Contacts.retrieveGroups c start max q) ""
       (Contacts.FetchGroupsRaw c start max q)
  /\ retry_once (Contacts.Client_AuthManager c)
       (fun accessToken => Contacts.fetchContact c accessToken contactID) ""
       (Contacts.FetchContactRaw c contactID)
  /\ retry_once (Contacts.Client_AuthManager c)
       (fun accessToken => Contacts.saveContact c accessToken entry) None
       (Contacts.Save c entry)
  /\ retry_once (Contacts.Client_AuthManager c)
       (fun accessToken => Contacts.saveContactRaw c accessToken entry) None
       (Contacts.SaveRaw c entry).
Proof.
  intro Ham. split; [|split; [|split; [|split]]].
  - rewrite FetchFeedRaw_shape. apply with_retry_policy; [exact Ham|].
    apply single_request_of with (P := bearer_request). apply retrieveFeed_appends.
  - rewrite FetchGroupsRaw_shape. apply with_retry_policy; [exact Ham|].
    apply single_request_of with (P := bearer_request). apply retrieveGroups_appends.
  - rewrite FetchContactRaw_shape. apply with_retry_policy; [exact Ham|].
    apply single_request_of with (P := bearer_request).
    intro tok. apply fetchContact_appends.
  - rewrite Save_shape. apply with_retry_policy; [exact Ham|].
    apply single_request_of
      with (P := fun tok req => bearer_request tok req
                                /\ write_request (Contacts.Entry_ETag entry) req).
    intro tok. apply saveContact_appends.
  - rewrite SaveRaw_shape. apply with_retry_policy; [exact Ham|].
    apply single_request_of
      with (P := fun tok req => bearer_request tok req
                                /\ write_request (Contacts.Entry_ETag entry) req).
    intro tok. apply saveContactRaw_appends.
Qed.

(** [FetchContactImage] makes its one attempt and never calls
    [Renew]. *)
Lemma FetchContactImage_single_attempt (href : string) :
  manager_internal (Contacts.Client_AuthManager c) ->
  appends (fun l => count_Renew l = 0%nat /\ (List.length (requests l) <= 1)%nat)
    (Contacts.FetchContactImage c href).
Proof.
  intros Ham. unfold Contacts.FetchContactImage.
  eapply appends_weaken
    with (P := bounded 0 1); [intros l [Hr Hq]; split; [lia | exact Hq]|].
  apply appends_bind_le with (r1 := 0%nat) (q1 := 0%nat) (r2 := 0%nat) (q2 := 1%nat);
    [apply call_AccessToken_bounded; exact Ham | | lia | lia].
  intros [tok [e|]].
  - eapply appends_bounded_weaken; [| |apply ret_bounded]; lia.
  - eapply appends_weaken; [|apply get_appends]. apply one_request_bounded.
Qed.

End BearerOperations.

Section EarlierOperations.

Context {Time : Type}.
Context `{ZeroValue Time}.
Context `{TextMarshaler Time}.
Context `{url_Parser}.
Context `{xml_Unmarshaler (@ContactsV1.Entry Time)}.
Context `{xml_Unmarshaler (@ContactsV1.Feed Time)}.

Variable c : ContactsV1.Client.

(** The retry policy holds for the three operations of the earlier
    client. *)
Theorem earlier_operations_retry_once (contactID : string) (entry : ContactsV1.Entry) :
  manager_internal (ContactsV1.Client_AuthManager c) ->
  retry_once (ContactsV1.Client_AuthManager c) (ContactsV1.retrieveFeed c) ""
    (ContactsV1.FetchFeedRaw c)
  /\ retry_once (ContactsV1.Client_AuthManager c)
       (fun accessToken => ContactsV1.fetchContact c accessToken contactID) ""
       (ContactsV1.FetchContactRaw c contactID)
  /\ retry_once (ContactsV1.Client_AuthManager c)
       (fun accessToken => ContactsV1.saveContact c accessToken entry) None
       (ContactsV1.Save c entry).
Proof.
  intro Ham. split; [|split].
  - change (ContactsV1.FetchFeedRaw c)
      with (with_retry (ContactsV1.Client_AuthManager c) (ContactsV1.retrieveFeed c) "").
    apply with_retry_policy; [exact Ham|].
    eapply single_request_of with (P := fun tok req => _). apply retrieveFeed_appends_v1.
  - change (ContactsV1.FetchContactRaw c contactID)
      with (with_retry (ContactsV1.Client_AuthManager c)
              (fun accessToken => ContactsV1.fetchContact c accessToken contactID) "").
    apply with_retry_policy; [exact Ham|].
    eapply single_request_of with (P := fun tok req => _).
    intro tok. apply fetchContact_appends_v1.
  - change (ContactsV1.Save c entry)
      with (with_retry (ContactsV1.Client_AuthManager c)
              (fun accessToken => ContactsV1.saveContact c accessToken entry) None).
    apply with_retry_policy; [exact Ham|].
    eapply single_request_of with (P := fun tok req => _).
    intro tok. apply saveContact_appends_v1.
Qed.

End EarlierOperations.

(** The request of the example client for the picture at
    [example_href], with the access token [tok]. *)
Definition example_href : string :=
  "https://www.google.com/m8/feeds/photos/media/default/1".

Definition example_request (url tok : string) : Request :=
  mkRequest "GET" url [("GData-Version", "3.0"); ("Authorization", "Bearer " ++ tok)] "".

(** C1, at the input on which the code departs from it.  The transport
    rejects the first request and would accept a second one.
    [FetchContactImage] returns the failure of its one attempt:
    [Renew] is not called and no second request is sent.
    [FetchContactRaw], with the same manager and transport, renews
    once, retries once with the fresh token and succeeds. *)
Theorem FetchContactImage_does_not_retry :
  Contacts.FetchContactImage (example_client fail_then_succeed) example_href []
  = (Some ("", "", Some "couldn't fetch given URL; got 401 Unauthorized: "),
     [CallAccessToken; CallLoad; CallDo (example_request example_href "stale")])
  /\
  Contacts.FetchContactRaw (example_client fail_then_succeed) example_href []
  = (Some ("<entry></entry>", None),
     [CallAccessToken; CallLoad; CallDo (example_request (example_href ++ "?") "stale");
      CallRenew; CallLoad; CallRetrieve "r"; CallSave (mkAuthDetails "r" "fresh");
      CallDo (example_request (example_href ++ "?") "fresh")]).
Proof. split; reflexivity. Qed.

(** * The textual pass on the printer's output *)

(** The rule table of [fixXml], as pairs. *)
Definition fixXml_table : list (string * string) :=
  Eval vm_compute in
    match oldnew_pairs fixXml_rules with
    | Some pairs => pairs
    | None => []
    end.

Lemma fixXml_table_eq : oldnew_pairs fixXml_rules = Some fixXml_table.
Proof. vm_compute. reflexivity. Qed.

Lemma fixXml_unfold (s : string) : Contacts.fixXml s = Replace_pairs fixXml_table s 0.
Proof. unfold Contacts.fixXml. rewrite fixXml_table_eq. reflexivity. Qed.

Lemma fixXml_v1_unfold (s : string) : ContactsV1.fixXml s = Replace_pairs fixXml_table s 0.
Proof. unfold ContactsV1.fixXml. rewrite fixXml_table_eq. reflexivity. Qed.

Lemma append_assoc (a b c : string) : (a ++ b) ++ c = a ++ b ++ c.
Proof. induction a as [|x a IH]; cbn; [reflexivity | now rewrite IH]. Qed.

Lemma append_nil_r (a : string) : a ++ "" = a.
Proof. induction a as [|x a IH]; cbn; [reflexivity | now rewrite IH]. Qed.

Lemma has_byte_app (c : ascii) (a b : string) :
  has_byte c (a ++ b) = (has_byte c a || has_byte c b)%bool.
Proof. induction a as [|x a IH]; cbn; [reflexivity | now rewrite IH, orb_assoc]. Qed.

(** ** One step of the replacer *)

Section Replacer.

Variable T : list (string * string).

Lemma R_step (c : ascii) (s : string) :
  Replace_pairs T (String c s) 0
  = match lookup T (String c s) with
    | Some (old, new) => new ++ Replace_pairs T s (String.length old - 1)
    | None => String c (Replace_pairs T s 0)
    end.
Proof. reflexivity. Qed.

Lemma R_skip_S (c : ascii) (s : string) (k : nat) :
  Replace_pairs T (String c s) (S k) = Replace_pairs T s k.
Proof. reflexivity. Qed.

Lemma R_skip (w X : string) :
  Replace_pairs T (w ++ X) (String.length w) = Replace_pairs T X 0.
Proof. induction w as [|c w IH]; [reflexivity | exact IH]. Qed.

(** Every [old] of the table starts with [<]. *)
Hypothesis T_lt : Forall (fun r => exists old', fst r = String "<" old') T.

Lemma lookup_not_lt (c : ascii) (s : string) :
  c <> "<"%char -> lookup T (String c s) = None.
Proof.
  intro Hc. clear - Hc T_lt. induction T as [|[old new] T' IH]; [reflexivity|].
  inversion T_lt as [|? ? (old' & Hold) HT']; subst. cbn in Hold. subst old.
  cbn [lookup strings_HasPrefix].
  replace (Ascii.eqb "<" c) with false
    by (symmetry; apply Ascii.eqb_neq; congruence).
  apply IH. exact HT'.
Qed.

(** Text without [<] passes unchanged. *)
Lemma R_text (w X : string) :
  has_byte "<" w = false ->
  Replace_pairs T (w ++ X) 0 = w ++ Replace_pairs T X 0.
Proof.
  induction w as [|c w IH]; intro Hw; [reflexivity|].
  cbn in Hw. apply orb_false_iff in Hw. destruct Hw as [Hc Hw].
  cbn [append]. rewrite R_step, lookup_not_lt.
  - now rewrite IH.
  - apply Ascii.eqb_neq. exact Hc.
Qed.

End Replacer.

Lemma fixXml_table_lt : Forall (fun r => exists old', fst r = String "<" old') fixXml_table.
Proof.
  unfold fixXml_table. repeat (constructor; [eexists; reflexivity|]). constructor.
Qed.

(** ** The tags of the entry model under the replacer *)

(** One step of the replacer at a concrete head of the text: the
    lookup is computed. *)
Ltac R_compute_step :=
  match goal with
  | |- context [Replace_pairs fixXml_table (String ?c ?s) 0] =>
      let r := eval vm_compute in (lookup fixXml_table (String c s)) in
      rewrite (R_step fixXml_table c s);
      replace (lookup fixXml_table (String c s)) with r by (vm_compute; reflexivity);
      cbv beta iota; cbn [String.length Nat.sub]
  | |- context [Replace_pairs fixXml_table (String ?c ?s) (S ?k)] =>
      rewrite (R_skip_S fixXml_table c s k)
  end.

Ltac R_compute := cbn [append fix_name existsb gdTags gContactTags String.eqb Ascii.eqb Bool.eqb orb];
                  repeat R_compute_step; cbn [append]; try reflexivity.

(** Case analysis over the element names. *)
Ltac each_known_name H tac :=
  unfold known_names, gdTags, gContactTags in H; cbn [app In] in H;
  repeat (destruct H as [H | H]; [subst; tac|]); try contradiction.

Lemma R_close (n X : string) :
  In n known_names ->
  Replace_pairs fixXml_table ("</" ++ n ++ ">" ++ X) 0
  = "</" ++ fix_name n ++ ">" ++ Replace_pairs fixXml_table X 0.
Proof.
  intro Hn. each_known_name Hn ltac:(R_compute).
Qed.

Lemma R_open_attr (n X : string) :
  In n known_names ->
  Replace_pairs fixXml_table ("<" ++ n ++ " " ++ X) 0
  = "<" ++ fix_name n ++ " " ++ Replace_pairs fixXml_table X 0.
Proof.
  intro Hn. each_known_name Hn ltac:(R_compute).
Qed.

Lemma R_open (n X : string) :
  In n known_names -> elidable n = false ->
  Replace_pairs fixXml_table ("<" ++ n ++ ">" ++ X) 0
  = "<" ++ fix_name n ++ ">" ++ Replace_pairs fixXml_table X 0.
Proof.
  intros Hn He.
  each_known_name Hn ltac:(try discriminate He; R_compute).
Qed.

Lemma elidable_cases (n : string) :
  elidable n = true -> n = "name" \/ n = "organization".
Proof.
  unfold elidable. intro H. apply orb_true_iff in H.
  destruct H as [H|H]; apply String.eqb_eq in H; auto.
Qed.

Lemma elidable_known (n : string) : elidable n = true -> In n known_names.
Proof.
  intro H. destruct (elidable_cases n H) as [-> | ->]; vm_compute; tauto.
Qed.

(** An empty elidable element is removed. *)
Lemma R_elide (n X : string) :
  elidable n = true ->
  Replace_pairs fixXml_table ("<" ++ n ++ "></" ++ n ++ ">" ++ X) 0
  = Replace_pairs fixXml_table X 0.
Proof.
  intro H. destruct (elidable_cases n H) as [-> | ->]; R_compute.
Qed.

(** The table without its two rules of removal. *)
Definition fixXml_renames : list (string * string) :=
  Eval vm_compute in skipn 2 fixXml_table.

Lemma fixXml_table_split :
  fixXml_table
  = ("<name></name>", "") :: ("<organization></organization>", "") :: fixXml_renames.
Proof. reflexivity. Qed.

Lemma lookup_cons_false (old new : string) (T : list (string * string)) (s : string) :
  strings_HasPrefix s old = false -> lookup ((old, new) :: T) s = lookup T s.
Proof. intro H. cbn [lookup]. now rewrite H. Qed.

Lemma HasPrefix_same (a : ascii) (s p : string) :
  strings_HasPrefix (String a s) (String a p) = strings_HasPrefix s p.
Proof. cbn [strings_HasPrefix]. now rewrite Ascii.eqb_refl. Qed.

Lemma HasPrefix_diff (a b : ascii) (s p : string) :
  Ascii.eqb a b = false -> strings_HasPrefix (String b s) (String a p) = false.
Proof. intro H. cbn [strings_HasPrefix]. now rewrite H. Qed.

(** The start tag of an elidable element that is followed by text. *)
Lemma R_open_then_text (n : string) (c : ascii) (X : string) :
  elidable n = true -> c <> "<"%char ->
  Replace_pairs fixXml_table ("<" ++ n ++ ">" ++ String c X) 0
  = "<" ++ fix_name n ++ ">" ++ Replace_pairs fixXml_table (String c X) 0.
Proof.
  intros H Hc.
  assert (Hf : Ascii.eqb "<" c = false) by (apply Ascii.eqb_neq; congruence).
  destruct (elidable_cases n H) as [-> | ->]; cbn [append].
  - rewrite R_step, fixXml_table_split.
    rewrite lookup_cons_false
      by (cbn [append]; rewrite !HasPrefix_same; apply HasPrefix_diff; exact Hf).
    rewrite lookup_cons_false by reflexivity.
    replace (lookup fixXml_renames (String "<" (String "n" (String "a" (String "m"
               (String "e" (String ">" (String c X))))))))
      with (Some ("<name>", "<gd:name>")) by (vm_compute; reflexivity).
    reflexivity.
  - rewrite R_step, fixXml_table_split.
    rewrite lookup_cons_false by reflexivity.
    rewrite lookup_cons_false
      by (cbn [append]; rewrite !HasPrefix_same; apply HasPrefix_diff; exact Hf).
    replace (lookup fixXml_renames
               (String "<" (String "o" (String "r" (String "g" (String "a" (String "n"
               (String "i" (String "z" (String "a" (String "t" (String "i" (String "o"
               (String "n" (String ">" (String c X))))))))))))))))
      with (Some ("<organization>", "<gd:organization>")) by (vm_compute; reflexivity).
    reflexivity.
Qed.

(** The start tag of an elidable element at the end of the text. *)
Lemma R_open_then_end (n : string) :
  elidable n = true ->
  Replace_pairs fixXml_table ("<" ++ n ++ ">") 0 = "<" ++ fix_name n ++ ">".
Proof.
  intro H. destruct (elidable_cases n H) as [-> | ->]; reflexivity.
Qed.

(** The start tag of an elidable element that is followed by the end
    tag of another element. *)
Lemma R_open_then_close (n m X : string) :
  elidable n = true -> In m known_names -> m <> n ->
  Replace_pairs fixXml_table ("<" ++ n ++ "></" ++ m ++ ">" ++ X) 0
  = "<" ++ fix_name n ++ "></" ++ fix_name m ++ ">" ++ Replace_pairs fixXml_table X 0.
Proof.
  intros H Hm Hne.
  destruct (elidable_cases n H) as [-> | ->];
    each_known_name Hm ltac:(try congruence; R_compute).
Qed.

(** * The printer's text has no [<] outside its tags *)

Lemma byte_lt : byte "<" = 60%Z.
Proof. reflexivity. Qed.

Lemma high_byte_not_lt (c : ascii) : (0x80 <= byte c)%Z -> Ascii.eqb c "<" = false.
Proof.
  intro H. apply Ascii.eqb_neq. intro E. subst c. rewrite byte_lt in H. lia.
Qed.

(** What [utf8.DecodeRune] returns on a non-empty string: an ASCII
    byte, or an error of width 1, or a rune of two to four bytes that
    are all above 0x7F. *)
Lemma DecodeRune_cases (c0 : ascii) (s : string) :
  (utf8_DecodeRune (String c0 s) = (byte c0, 1%nat) /\ (byte c0 < 0x80)%Z)
  \/ utf8_DecodeRune (String c0 s) = (RuneError, 1%nat)
  \/ (exists r c1 s2,
        utf8_DecodeRune (String c0 s) = (r, 2%nat) /\ s = String c1 s2
        /\ (0x80 <= byte c0)%Z /\ (0x80 <= byte c1)%Z)
  \/ (exists r c1 c2 s3,
        utf8_DecodeRune (String c0 s) = (r, 3%nat) /\ s = String c1 (String c2 s3)
        /\ (0x80 <= byte c0)%Z /\ (0x80 <= byte c1)%Z /\ (0x80 <= byte c2)%Z)
  \/ (exists r c1 c2 c3 s4,
        utf8_DecodeRune (String c0 s) = (r, 4%nat)
        /\ s = String c1 (String c2 (String c3 s4))
        /\ (0x80 <= byte c0)%Z /\ (0x80 <= byte c1)%Z /\ (0x80 <= byte c2)%Z
        /\ (0x80 <= byte c3)%Z).
Proof.
  unfold utf8_DecodeRune.
  destruct (byte c0 <? 0x80)%Z eqn:E0; [left; split; [reflexivity | apply Z.ltb_lt, E0]|].
  apply Z.ltb_ge in E0.
  destruct ((byte c0 <? 0xC2) || (0xF4 <? byte c0))%Z%bool eqn:E1; [tauto|].
  set (sz := if (byte c0 <? 0xE0)%Z then 2%nat else if (byte c0 <? 0xF0)%Z then 3%nat else 4%nat).
  set (lo := if (byte c0 =? 0xE0)%Z then 0xA0%Z else if (byte c0 =? 0xF0)%Z then 0x90%Z else 0x80%Z).
  set (hi := if (byte c0 =? 0xED)%Z then 0x9F%Z else if (byte c0 =? 0xF4)%Z then 0x8F%Z else 0xBF%Z).
  assert (Hlo : (0x80 <= lo)%Z).
  { subst lo. destruct (byte c0 =? 0xE0)%Z; [lia|]. destruct (byte c0 =? 0xF0)%Z; lia. }
  destruct (String.length (String c0 s) <? sz)%nat; [tauto|].
  destruct s as [|c1 s2]; [tauto|].
  destruct ((byte c1 <? lo) || (hi <? byte c1))%Z%bool eqn:E2; [tauto|].
  apply orb_false_iff in E2. destruct E2 as [E2 _]. apply Z.ltb_ge in E2.
  destruct (sz <=? 2)%nat.
  { right; right; left. eexists _, c1, s2. repeat split; try reflexivity; lia. }
  destruct s2 as [|c2 s3]; [tauto|].
  destruct ((byte c2 <? 0x80) || (0xBF <? byte c2))%Z%bool eqn:E3; [tauto|].
  apply orb_false_iff in E3. destruct E3 as [E3 _]. apply Z.ltb_ge in E3.
  destruct (sz <=? 3)%nat.
  { right; right; right; left. eexists _, c1, c2, s3. repeat split; try reflexivity; lia. }
  destruct s3 as [|c3 s4]; [tauto|].
  destruct ((byte c3 <? 0x80) || (0xBF <? byte c3))%Z%bool eqn:E4; [tauto|].
  apply orb_false_iff in E4. destruct E4 as [E4 _]. apply Z.ltb_ge in E4.
  right; right; right; right. eexists _, c1, c2, c3, s4.
  repeat split; try reflexivity; lia.
Qed.

Lemma escape_rune_no_lt (r : Z) (width : nat) (esc : string) :
  escape_rune r width = Some esc -> has_byte "<" esc = false.
Proof.
  unfold escape_rune.
  repeat match goal with
         | |- context [if ?b then _ else _] => destruct b
         end; intro E; inversion E; reflexivity.
Qed.

Lemma escape_rune_None_not_lt (r : Z) (width : nat) :
  escape_rune r width = None -> r <> 60%Z /\ ~ (r = RuneError /\ width = 1%nat).
Proof.
  unfold escape_rune. intro E. split.
  - intro Hr. subst r. cbn in E. discriminate.
  - intros [Hr Hw]. subst. cbn in E. discriminate.
Qed.

Lemma substring_0_0 (s : string) : substring 0 0 s = "".
Proof. destruct s; reflexivity. Qed.

(** The escaped text holds no [<]. *)
Lemma escapeText_from_no_lt (s : string) :
  forall skip, has_byte "<" (escapeText_from s skip) = false.
Proof.
  induction s as [|c0 s IH]; intro skip; [reflexivity|].
  destruct skip as [|k]; cbn [escapeText_from]; [|apply IH].
  destruct (utf8_DecodeRune (String c0 s)) as [r width] eqn:ED.
  rewrite has_byte_app, IH, orb_false_r.
  destruct (escape_rune r width) as [esc|] eqn:EE; [eapply escape_rune_no_lt; eauto|].
  destruct (escape_rune_None_not_lt _ _ EE) as [Hr Herr].
  destruct (DecodeRune_cases c0 s)
    as [[H1 H2] | [H1 | [(r' & c1 & s2 & H1 & -> & B0 & B1)
       | [(r' & c1 & c2 & s3 & H1 & -> & B0 & B1 & B2)
         | (r' & c1 & c2 & c3 & s4 & H1 & -> & B0 & B1 & B2 & B3)]]]];
    rewrite H1 in ED; inversion ED; subst r width; cbn [substring has_byte];
    rewrite substring_0_0; cbn [has_byte].
  - rewrite orb_false_r. apply Ascii.eqb_neq. intro E. subst c0. apply Hr. reflexivity.
  - exfalso. apply Herr. split; reflexivity.
  - now rewrite !high_byte_not_lt.
  - now rewrite !high_byte_not_lt.
  - now rewrite !high_byte_not_lt.
Qed.

Lemma EscapeText_no_lt (s : string) : has_byte "<" (EscapeText s) = false.
Proof. apply escapeText_from_no_lt. Qed.

Lemma EscapeString_no_lt (s : string) : has_byte "<" (EscapeString s) = false.
Proof. apply escapeText_from_no_lt. Qed.

Lemma write_attrs_no_lt (attr : list (string * string)) :
  Forall (fun kv => has_byte "<" (fst kv) = false) attr ->
  has_byte "<" (write_attrs attr) = false.
Proof.
  induction 1 as [|[k v] attr Hk _ IH]; [reflexivity|].
  cbn [write_attrs fst] in *.
  rewrite !has_byte_app, Hk, EscapeString_no_lt, IH. reflexivity.
Qed.

Lemma write_attrs_space (attr : list (string * string)) :
  attr <> [] -> exists A, write_attrs attr = String " " A.
Proof.
  destruct attr as [|[k v] attr]; [congruence|]. intros _. cbn. eauto.
Qed.

(** ** The indentation *)

(** The printer of [xml.MarshalIndent(entry, "", "  ")]. *)
Definition printer_ok (p : printer) : Prop :=
  prefix_ p = "" /\ indent p = "  ".

Definition newline_of (p : printer) : string :=
  if putNewline p then str_lf else "".

Lemma repeat_string_no_lt (k : nat) : has_byte "<" (repeat_string "  " k) = false.
Proof. induction k as [|k IH]; [reflexivity | exact IH]. Qed.

Lemma writeIndent_start (p : printer) :
  printer_ok p ->
  writeIndent 1 p
  = (newline_of p ++ repeat_string "  " (depth p),
     mkprinter "" "  " (depth p + 1) true true).
Proof.
  destruct p as [pre ind d ii pn]. unfold printer_ok. cbn. intros [-> ->].
  reflexivity.
Qed.

Lemma writeIndent_end (p : printer) :
  printer_ok p ->
  writeIndent (-1) p
  = if indentedIn p
    then ("", mkprinter "" "  " (depth p - 1) false (putNewline p))
    else (newline_of p ++ repeat_string "  " (depth p - 1),
          mkprinter "" "  " (depth p - 1) false true).
Proof.
  destruct p as [pre ind d ii pn]. unfold printer_ok. cbn. intros [-> ->].
  destruct ii; reflexivity.
Qed.

Lemma indentation_no_lt (p : printer) (k : nat) :
  has_byte "<" (newline_of p ++ repeat_string "  " k) = false.
Proof.
  rewrite has_byte_app, repeat_string_no_lt. unfold newline_of.
  destruct (putNewline p); reflexivity.
Qed.

(** * [fixXml] on the text of the printer *)

(** The start tag of an elidable element that the replacer has not
    passed yet. *)
Definition pending_text (pending : option string) : string :=
  match pending with
  | Some n => "<" ++ n ++ ">"
  | None => ""
  end.

(** A start tag is pending only right after the printer wrote it. *)
Definition pending_ok (pending : option string) (p : printer) : Prop :=
  forall n, pending = Some n ->
            elidable n = true /\ indentedIn p = true /\ putNewline p = true.

Lemma nonempty_text (E : string) :
  String.eqb E "" = false -> has_byte "<" E = false ->
  exists c E', E = String c E' /\ c <> "<"%char.
Proof.
  destruct E as [|c E']; [discriminate|]. intros _ H. cbn in H.
  apply orb_false_iff in H. destruct H as [H _].
  exists c, E'. split; [reflexivity|]. apply Ascii.eqb_neq. exact H.
Qed.

Lemma lf_not_lt : char_lf <> "<"%char.
Proof. discriminate. Qed.

Lemma R_nil : Replace_pairs fixXml_table "" 0 = "".
Proof. reflexivity. Qed.

Lemma R_fix_text (w X : string) :
  has_byte "<" w = false ->
  Replace_pairs fixXml_table (w ++ X) 0 = w ++ Replace_pairs fixXml_table X 0.
Proof. apply R_text. apply fixXml_table_lt. Qed.

(** The start tag that follows, with its attributes. *)
Lemma R_start_tag (m : string) (attr : list (string * string)) (X : string) :
  token_ok (StartElement m attr) -> attr <> [] ->
  Replace_pairs fixXml_table ("<" ++ m ++ write_attrs attr ++ ">" ++ X) 0
  = "<" ++ fix_name m ++ write_attrs attr ++ ">" ++ Replace_pairs fixXml_table X 0.
Proof.
  intros [Hm Ha] Hne.
  destruct (write_attrs_space Hne) as [A HA].
  pose proof (write_attrs_no_lt Ha) as Hno. rewrite HA in Hno |- *.
  cbn in Hno.
  replace (String " " A ++ ">" ++ X) with (" " ++ (A ++ ">") ++ X)
    by (cbn; now rewrite append_assoc).
  rewrite R_open_attr by exact Hm.
  rewrite R_fix_text.
  - cbn. now rewrite append_assoc.
  - rewrite has_byte_app, Hno. reflexivity.
Qed.

(** Text that follows a pending start tag, or no pending tag. *)
Lemma R_pending_text (pending : option string) (E X : string) :
  (forall n, pending = Some n -> elidable n = true /\ String.eqb E "" = false) ->
  has_byte "<" E = false ->
  Replace_pairs fixXml_table (pending_text pending ++ E ++ X) 0
  = flush pending ++ E ++ Replace_pairs fixXml_table X 0.
Proof.
  intros Hpend HE. destruct pending as [n|]; unfold pending_text, flush.
  - destruct (Hpend n eq_refl) as [He Hne].
    destruct (nonempty_text _ Hne HE) as (c & E' & -> & Hc).
    rewrite !append_assoc.
    change (String c E' ++ X) with (String c (E' ++ X)).
    rewrite R_open_then_text by assumption.
    change (String c (E' ++ X)) with (String c E' ++ X).
    rewrite R_fix_text by exact HE. reflexivity.
  - change ("" ++ E ++ X) with (E ++ X). rewrite R_fix_text by exact HE. reflexivity.
Qed.

Lemma newline_nonempty (p : printer) (k : nat) :
  putNewline p = true -> String.eqb (newline_of p ++ repeat_string "  " k) "" = false.
Proof. intro H. unfold newline_of. rewrite H. reflexivity. Qed.

Lemma fixXml_print (ts : list Token) :
  forall p pending,
    Forall token_ok ts -> printer_ok p -> pending_ok pending p ->
    Replace_pairs fixXml_table (pending_text pending ++ print_tokens ts p) 0
    = print_fixed ts p pending.
Proof.
  induction ts as [|t ts IH]; intros p pending Hts Hp Hpend.
  - cbn [print_tokens print_fixed]. rewrite append_nil_r.
    destruct pending as [n|]; unfold pending_text, flush; [|reflexivity].
    destruct (Hpend n eq_refl) as (He & _). apply R_open_then_end. exact He.
  - inversion Hts as [|? ? Ht Hts']; subst.
    assert (Hnone : forall q, pending_ok None q) by (intros q n Hn; discriminate).
    destruct t as [m attr | m | d].
    + (* a start tag *)
      cbn [print_tokens print_token print_fixed].
      rewrite (writeIndent_start Hp).
      set (ind := newline_of p ++ repeat_string "  " (depth p)).
      set (p' := mkprinter "" "  " (depth p + 1) true true).
      assert (Hp' : printer_ok p') by (split; reflexivity).
      rewrite !append_assoc.
      rewrite R_pending_text.
      2:{ intros n Hn. destruct (Hpend n Hn) as (He & _ & Hnl). split; [exact He|].
          apply newline_nonempty. exact Hnl. }
      2:{ apply indentation_no_lt. }
      f_equal. f_equal.
      destruct attr as [|a attr].
      * change (write_attrs [] ++ ">" ++ print_tokens ts p')
          with (">" ++ print_tokens ts p').
        destruct (elidable m) eqn:Em.
        -- rewrite <- (IH p' (Some m)); auto.
           ++ unfold pending_text. rewrite !append_assoc. reflexivity.
           ++ intros n Hn. inversion Hn; subst. auto.
        -- rewrite R_open by (destruct Ht; auto).
           rewrite <- (IH p' None) by auto. reflexivity.
      * rewrite R_start_tag by (auto; discriminate).
        rewrite <- (IH p' None) by auto. reflexivity.
    + (* an end tag *)
      cbn [print_tokens print_token print_fixed].
      rewrite (writeIndent_end Hp).
      destruct pending as [n|].
      * destruct (Hpend n eq_refl) as (He & Hi & Hn). rewrite Hi.
        set (p' := mkprinter "" "  " (depth p - 1) false (putNewline p)).
        assert (Hp' : printer_ok p') by (split; reflexivity).
        rewrite String.eqb_refl, andb_true_r.
        unfold pending_text, flush.
        change (("" ++ "</" ++ m ++ ">") ++ print_tokens ts p')
          with (("</" ++ m ++ ">") ++ print_tokens ts p').
        rewrite !append_assoc.
        destruct (String.eqb m n) eqn:Emn.
        -- apply String.eqb_eq in Emn. subst m.
           change (">" ++ "</" ++ n ++ ">" ++ print_tokens ts p')
             with ("></" ++ n ++ ">" ++ print_tokens ts p').
           rewrite R_elide by exact He.
           apply (IH p' None); auto.
        -- apply String.eqb_neq in Emn.
           change (">" ++ "</" ++ m ++ ">" ++ print_tokens ts p')
             with ("></" ++ m ++ ">" ++ print_tokens ts p').
           rewrite R_open_then_close by auto.
           rewrite <- (IH p' None) by auto.
           rewrite ?append_assoc. reflexivity.
      * unfold pending_text.
        change ("" ++ ?Y) with Y.
        destruct (indentedIn p).
        -- set (p' := mkprinter "" "  " (depth p - 1) false (putNewline p)).
           assert (Hp' : printer_ok p') by (split; reflexivity).
           change (("" ++ "</" ++ m ++ ">") ++ print_tokens ts p')
             with (("</" ++ m ++ ">") ++ print_tokens ts p').
           rewrite !append_assoc.
           rewrite R_close by exact Ht.
           rewrite <- (IH p' None) by auto. reflexivity.
        -- set (p' := mkprinter "" "  " (depth p - 1) false true).
           assert (Hp' : printer_ok p') by (split; reflexivity).
           pose proof (indentation_no_lt p (depth p - 1)) as Hind.
           set (ind := newline_of p ++ repeat_string "  " (depth p - 1)) in *.
           rewrite !append_assoc. rewrite R_fix_text by exact Hind.
           rewrite R_close by exact Ht.
           rewrite <- (IH p' None) by auto. reflexivity.
    + (* character data *)
      cbn [print_tokens print_token print_fixed].
      pose proof (EscapeText_no_lt d) as HE.
      destruct (String.eqb (EscapeText d) "") eqn:Ee.
      * apply String.eqb_eq in Ee. rewrite Ee.
        change ("" ++ print_tokens ts p) with (print_tokens ts p). apply IH; auto.
      * rewrite R_pending_text.
        -- rewrite <- (IH p None) by auto. reflexivity.
        -- intros n Hn. destruct (Hpend n Hn) as (He & _). auto.
        -- exact HE.
Qed.

(** * The tag names of an encoded document *)

(** A name without space, [>] or [<]. *)
Definition clean_name (N : string) : bool :=
  (negb (has_byte " " N) && negb (has_byte ">" N) && negb (has_byte "<" N))%bool.

Definition names_ok (doc : string) : Prop :=
  forallb name_ok (tag_names doc) = true.

Lemma tag_names_text (w Y : string) :
  has_byte "<" w = false -> tag_names (w ++ Y) = tag_names Y.
Proof.
  induction w as [|c w IH]; intro H; [reflexivity|].
  cbn in H. apply orb_false_iff in H. destruct H as [Hc Hw].
  cbn [append tag_names]. rewrite Hc. auto.
Qed.

Lemma clean_name_cons (c : ascii) (N : string) :
  clean_name (String c N) = true ->
  Ascii.eqb c " " = false /\ Ascii.eqb c ">" = false /\ Ascii.eqb c "<" = false
  /\ clean_name N = true.
Proof.
  unfold clean_name. cbn [has_byte]. rewrite !negb_orb, !andb_true_iff, !negb_true_iff.
  tauto.
Qed.

Lemma clean_name_no_lt (N : string) : clean_name N = true -> has_byte "<" N = false.
Proof.
  unfold clean_name. rewrite !andb_true_iff, !negb_true_iff. tauto.
Qed.

Lemma read_name_clean (N : string) (d : ascii) (Y : string) :
  clean_name N = true -> d = " "%char \/ d = ">"%char ->
  read_name (N ++ String d Y) = N.
Proof.
  intros HN Hd. induction N as [|c N IH].
  - cbn. destruct Hd as [-> | ->]; reflexivity.
  - destruct (clean_name_cons _ _ HN) as (H1 & H2 & _ & HN').
    cbn [append read_name]. rewrite H1, H2. cbn. now rewrite IH.
Qed.

(** A tag and the names that follow it. *)
Lemma tag_names_tag (N : string) (d : ascii) (Y : string) :
  clean_name N = true -> d = " "%char \/ d = ">"%char ->
  tag_names ("<" ++ N ++ String d Y) = strip_slash N :: tag_names (String d Y).
Proof.
  intros HN Hd. cbn [append tag_names Ascii.eqb Bool.eqb].
  change (tag_names (String "<" (N ++ String d Y)))
    with (strip_slash (read_name (N ++ String d Y)) :: tag_names (N ++ String d Y)).
  rewrite read_name_clean by assumption.
  rewrite tag_names_text by (apply clean_name_no_lt; exact HN). reflexivity.
Qed.

(** What holds of the name [fixXml] gives to each element. *)
Lemma known_names_fixed :
  forallb (fun n => clean_name (fix_name n) && name_ok (fix_name n)
                    && String.eqb (strip_slash (fix_name n)) (fix_name n)
                    && clean_name (String "/" (fix_name n)))%bool known_names = true.
Proof. vm_compute. reflexivity. Qed.

Lemma known_name_fixed (n : string) :
  In n known_names ->
  clean_name (fix_name n) = true /\ name_ok (fix_name n) = true
  /\ strip_slash (fix_name n) = fix_name n
  /\ clean_name (String "/" (fix_name n)) = true.
Proof.
  intro Hn. pose proof known_names_fixed as H.
  rewrite forallb_forall in H. specialize (H n Hn).
  rewrite !andb_true_iff in H. destruct H as [[[H1 H2] H3] H4].
  apply String.eqb_eq in H3. auto.
Qed.

Lemma names_ok_text (w Y : string) :
  has_byte "<" w = false -> names_ok Y -> names_ok (w ++ Y).
Proof. intros Hw HY. unfold names_ok. now rewrite tag_names_text. Qed.

Lemma names_ok_open (m Y : string) :
  In m known_names -> names_ok Y -> names_ok ("<" ++ fix_name m ++ ">" ++ Y).
Proof.
  intros Hm HY. destruct (known_name_fixed Hm) as (H1 & H2 & H3 & _).
  unfold names_ok. change (">" ++ Y) with (String ">" Y).
  rewrite tag_names_tag by auto. rewrite H3. cbn [forallb]. rewrite H2.
  exact HY.
Qed.

Lemma names_ok_close (m Y : string) :
  In m known_names -> names_ok Y -> names_ok ("</" ++ fix_name m ++ ">" ++ Y).
Proof.
  intros Hm HY. destruct (known_name_fixed Hm) as (H1 & H2 & H3 & H4).
  unfold names_ok.
  change ("</" ++ fix_name m ++ ">" ++ Y)
    with ("<" ++ String "/" (fix_name m) ++ String ">" Y).
  rewrite tag_names_tag by auto. cbn [strip_slash forallb]. rewrite H2.
  exact HY.
Qed.

Lemma names_ok_open_attr (m : string) (attr : list (string * string)) (Y : string) :
  token_ok (StartElement m attr) -> attr <> [] -> names_ok Y ->
  names_ok ("<" ++ fix_name m ++ write_attrs attr ++ ">" ++ Y).
Proof.
  intros [Hm Ha] Hne HY. destruct (known_name_fixed Hm) as (H1 & H2 & H3 & _).
  destruct (write_attrs_space Hne) as [A HA].
  pose proof (write_attrs_no_lt Ha) as Hno. rewrite HA in Hno |- *.
  unfold names_ok.
  change (String " " A ++ ">" ++ Y) with (String " " (A ++ ">" ++ Y)).
  rewrite tag_names_tag by auto. rewrite H3. cbn [forallb]. rewrite H2.
  change (String " " (A ++ ">" ++ Y)) with (String " " A ++ ">" ++ Y).
  rewrite <- append_assoc. rewrite tag_names_text; [exact HY|].
  rewrite has_byte_app, Hno. reflexivity.
Qed.

Lemma names_ok_flush (pending : option string) (Y : string) :
  (forall n, pending = Some n -> In n known_names) -> names_ok Y ->
  names_ok (flush pending ++ Y).
Proof.
  intros Hp HY. destruct pending as [n|]; unfold flush; [|exact HY].
  rewrite !append_assoc. apply names_ok_open; auto.
Qed.

(** Every tag of the text that [fixXml] makes of the printer's text
    has the right name. *)
Lemma print_fixed_names (ts : list Token) :
  forall p pending,
    Forall token_ok ts -> printer_ok p ->
    (forall n, pending = Some n -> In n known_names) ->
    names_ok (print_fixed ts p pending).
Proof.
  induction ts as [|t ts IH]; intros p pending Hts Hp Hpend.
  - cbn [print_fixed]. rewrite <- (append_nil_r (flush pending)).
    apply names_ok_flush; [exact Hpend | reflexivity].
  - inversion Hts as [|? ? Ht Hts']; subst.
    assert (Hnone : forall n : string, @None string = Some n -> In n known_names)
      by (intros n Hn; discriminate).
    destruct t as [m attr | m | d]; cbn [print_fixed].
    + rewrite (writeIndent_start Hp).
      set (p' := mkprinter "" "  " (depth p + 1) true true).
      assert (Hp' : printer_ok p') by (split; reflexivity).
      apply names_ok_flush; [exact Hpend|].
      apply names_ok_text; [apply indentation_no_lt|].
      destruct attr as [|a attr].
      * destruct (elidable m) eqn:Em.
        -- apply IH; auto. intros n Hn. inversion Hn; subst. destruct Ht; auto.
        -- apply names_ok_open; [destruct Ht; auto|]. apply IH; auto.
      * apply names_ok_open_attr; [exact Ht | discriminate|]. apply IH; auto.
    + rewrite (writeIndent_end Hp).
      destruct (indentedIn p).
      * set (p' := mkprinter "" "  " (depth p - 1) false (putNewline p)).
        assert (Hp' : printer_ok p') by (split; reflexivity).
        destruct pending as [n|].
        -- destruct (String.eqb m n && String.eqb "" "")%bool.
           ++ apply IH; auto.
           ++ apply names_ok_flush; [exact Hpend|].
              apply names_ok_close; [exact Ht|]. apply IH; auto.
        -- apply names_ok_close; [exact Ht|]. apply IH; auto.
      * set (p' := mkprinter "" "  " (depth p - 1) false true).
        assert (Hp' : printer_ok p') by (split; reflexivity).
        destruct pending as [n|].
        -- destruct (String.eqb m n && String.eqb _ "")%bool.
           ++ apply IH; auto.
           ++ apply names_ok_flush; [exact Hpend|].
              apply names_ok_text; [apply indentation_no_lt|].
              apply names_ok_close; [exact Ht|]. apply IH; auto.
        -- apply names_ok_text; [apply indentation_no_lt|].
           apply names_ok_close; [exact Ht|]. apply IH; auto.
    + destruct (String.eqb (EscapeText d) "").
      * apply IH; auto.
      * apply names_ok_flush; [exact Hpend|].
        apply names_ok_text; [apply EscapeText_no_lt|]. apply IH; auto.
Qed.

(** ** The tokens of the marshaller *)

Lemma known (n : string) :
  existsb (String.eqb n) known_names = true -> In n known_names.
Proof.
  intro H. apply existsb_exists in H. destruct H as (x & Hx & E).
  apply String.eqb_eq in E. now subst.
Qed.

Lemma Forall_flat_map {A B} (P : B -> Prop) (f : A -> list B) (l : list A) :
  (forall a, Forall P (f a)) -> Forall P (flat_map f l).
Proof.
  intro H. induction l as [|a l IH]; cbn; [constructor|].
  apply Forall_app. auto.
Qed.

(** Each marshaller yields tokens of the kind [fixXml] was written
    for. *)
Ltac tokens_ok :=
  repeat match goal with
         | |- Forall token_ok (_ ++ _)%list => apply Forall_app; split
         | |- Forall token_ok (elem_slice _ _) => apply Forall_flat_map; intro
         | |- Forall token_ok (if ?b then _ else _) => destruct b
         | |- Forall token_ok (_ :: _) => constructor
         | |- Forall token_ok [] => constructor
         | |- token_ok (StartElement _ _) => split
         | |- token_ok (EndElement _) => cbn [token_ok]
         | |- token_ok (CharData _) => exact I
         | |- In _ known_names => first [assumption | apply known; reflexivity]
         | |- Forall _ (_ ++ _)%list => apply Forall_app; split
         | |- Forall _ (if ?b then _ else _) => destruct b
         | |- Forall _ (_ :: _) => constructor; [reflexivity|]
         | |- Forall _ [] => constructor
         end.

Ltac marshal_ok f :=
  unfold f, elem_string_omitempty, elem_string, attr_string, attr_string_omitempty,
    attr_bool, attr_bool_omitempty; tokens_ok.

Lemma marshal_GivenName_ok name v :
  In name known_names -> Forall token_ok (marshal_GivenName name v).
Proof. intro Hname. marshal_ok marshal_GivenName. Qed.

Lemma marshal_FamilyName_ok name v :
  In name known_names -> Forall token_ok (marshal_FamilyName name v).
Proof. intro Hname. marshal_ok marshal_FamilyName. Qed.

Lemma marshal_Name_ok name v :
  In name known_names -> Forall token_ok (marshal_Name name v).
Proof.
  intro Hname. marshal_ok marshal_Name;
    first [apply marshal_GivenName_ok | apply marshal_FamilyName_ok];
    apply known; reflexivity.
Qed.

Lemma marshal_Email_ok name v :
  In name known_names -> Forall token_ok (marshal_Email name v).
Proof. intro Hname. marshal_ok marshal_Email. Qed.

Lemma marshal_When_ok name v :
  In name known_names -> Forall token_ok (marshal_When name v).
Proof. intro Hname. marshal_ok marshal_When. Qed.

Lemma marshal_Event_ok name v :
  In name known_names -> Forall token_ok (marshal_Event name v).
Proof. intro Hname. marshal_ok marshal_Event. apply marshal_When_ok. apply known; reflexivity. Qed.

Lemma marshal_Birthday_ok name v :
  In name known_names -> Forall token_ok (marshal_Birthday name v).
Proof. intro Hname. marshal_ok marshal_Birthday. Qed.

Lemma marshal_Relation_ok name v :
  In name known_names -> Forall token_ok (marshal_Relation name v).
Proof. intro Hname. marshal_ok marshal_Relation. Qed.

Lemma marshal_UserDefinedField_ok name v :
  In name known_names -> Forall token_ok (marshal_UserDefinedField name v).
Proof. intro Hname. marshal_ok marshal_UserDefinedField. Qed.

Lemma marshal_Website_ok name v :
  In name known_names -> Forall token_ok (marshal_Website name v).
Proof. intro Hname. marshal_ok marshal_Website. Qed.

Lemma marshal_PhoneNumber_ok name v :
  In name known_names -> Forall token_ok (marshal_PhoneNumber name v).
Proof. intro Hname. marshal_ok marshal_PhoneNumber. Qed.

Lemma marshal_InstantMessenger_ok name v :
  In name known_names -> Forall token_ok (marshal_InstantMessenger name v).
Proof. intro Hname. marshal_ok marshal_InstantMessenger. Qed.

Lemma marshal_ExtendedProperty_ok name v :
  In name known_names -> Forall token_ok (marshal_ExtendedProperty name v).
Proof. intro Hname. marshal_ok marshal_ExtendedProperty. Qed.

Lemma marshal_Link_ok name v :
  In name known_names -> Forall token_ok (marshal_Link name v).
Proof. intro Hname. marshal_ok marshal_Link. Qed.

Lemma marshal_Organization_ok name v :
  In name known_names -> Forall token_ok (marshal_Organization name v).
Proof. intro Hname. marshal_ok marshal_Organization. Qed.

Lemma marshal_StructuredPostalAddress_ok name v :
  In name known_names -> Forall token_ok (Contacts.marshal_StructuredPostalAddress name v).
Proof. intro Hname. marshal_ok Contacts.marshal_StructuredPostalAddress. Qed.

Lemma marshal_GroupMembershipInfo_ok name v :
  In name known_names -> Forall token_ok (Contacts.marshal_GroupMembershipInfo name v).
Proof. intro Hname. marshal_ok Contacts.marshal_GroupMembershipInfo. Qed.

(** * The encoded entry *)

Section EncodedEntry.

Context {Time : Type}.
Context `{TextMarshaler Time}.

Lemma marshal_Entry_ok (e : @Contacts.Entry Time) (ts : list Token) :
  Contacts.marshal_Entry e = (ts, None) -> Forall token_ok ts.
Proof.
  unfold Contacts.marshal_Entry, elem_text.
  destruct (MarshalText (Contacts.Entry_Updated e)) as [text [err|]]; [discriminate|].
  intro E. inversion E. subst ts. clear E.
  unfold elem_string, attr_string. tokens_ok;
    first [ apply marshal_Link_ok | apply marshal_InstantMessenger_ok
          | apply marshal_Email_ok | apply marshal_PhoneNumber_ok
          | apply marshal_StructuredPostalAddress_ok | apply marshal_ExtendedProperty_ok
          | apply marshal_Event_ok | apply marshal_Relation_ok
          | apply marshal_UserDefinedField_ok | apply marshal_Website_ok
          | apply marshal_GroupMembershipInfo_ok
          | unfold elem_string_omitempty, attr_string_omitempty; tokens_ok;
            unfold elem_string, attr_string; tokens_ok ];
    apply known; reflexivity.
Qed.

(** The document is the printer's text with its tags renamed and its
    empty elidable elements left out. *)
Lemma encode_print_fixed (e : @Contacts.Entry Time) (doc : string) :
  Contacts.encode e = (doc, None) ->
  exists ts,
    Contacts.marshal_Entry e = (ts, None)
    /\ Forall token_ok ts
    /\ doc = print_fixed ts (mkprinter "" "  " 0 false false) None.
Proof.
  unfold Contacts.encode, Contacts.xml_MarshalIndent.
  destruct (Contacts.marshal_Entry e) as [ts [err|]] eqn:Em; [discriminate|].
  intro E. inversion E. subst doc. clear E.
  exists ts. pose proof (marshal_Entry_ok _ Em) as Hts.
  repeat split; auto. rewrite fixXml_unfold.
  apply (fixXml_print Hts (p := mkprinter "" "  " 0 false false) (pending := None)).
  - split; reflexivity.
  - intros n Hn. discriminate.
Qed.

(** C3. In every document the encoder produces, each tag of the
    directory-standard enumeration carries the prefix [gd:], each tag
    of the contact-extension enumeration the prefix [gContact:], and
    every other tag no prefix: no tag of either enumeration is left
    without its prefix or given the other one. *)
Theorem encoded_tags_prefixed (e : @Contacts.Entry Time) (doc : string) :
  Contacts.encode e = (doc, None) ->
  forallb name_ok (tag_names doc) = true.
Proof.
  intro He. destruct (encode_print_fixed _ He) as (ts & _ & Hts & ->).
  apply print_fixed_names; auto.
  - split; reflexivity.
  - intros n Hn. discriminate.
Qed.

End EncodedEntry.

(** The tags of the encoding of [example_entry]. *)
Lemma encoded_tags_prefixed_witness :
  forallb name_ok (tag_names (fst (Contacts.encode example_entry))) = true.
Proof.
  apply (@encoded_tags_prefixed TextTime _ example_entry).
  vm_compute. reflexivity.
Defined.

(** C2, at the input on which the code departs from it.  The zero
    entry has an all-empty name and an all-empty organization.  Its
    document holds no organization element, and it holds a [gd:name]
    element: the structs [GivenName] and [FamilyName] are never empty
    for [omitempty], so the marshaller writes [<name>] with two empty
    children and the rule that removes [<name></name>] finds nothing
    to remove. *)
Theorem empty_name_is_encoded :
  tag_names (fst (Contacts.encode (@Contacts.Entry_zero TextTime _)))
  = [ "entry"; "id"; "id"; "updated"; "updated"; "title"; "title"; "content"; "content";
      "gd:name"; "gd:givenName"; "gd:givenName"; "gd:familyName"; "gd:familyName"; "gd:name";
      "gContact:birthday"; "gContact:birthday"; "gContact:nickname"; "gContact:nickname";
      "gContact:fileAs"; "gContact:fileAs"; "entry" ]%list.
Proof. vm_compute. reflexivity. Qed.

(** * More on the credential manager *)

Lemma last_saved_app (a b : Trace) (init : AuthDetails) :
  last_saved (a ++ b)%list init = last_saved b (last_saved a init).
Proof.
  revert init. induction a as [|c a IH]; intro init; [reflexivity|].
  destruct c; cbn; apply IH.
Qed.

Section StandardAuthManagerFailures.

Variable m : StandardAuthManager.
Variable t : Trace.

(** A failure of the store's [Load] is returned as it is by
    [AccessToken] and by [Renew], with no call of [Retrieve] or
    [Save]; a [Load] that returns a nil record and no error makes both
    panic when they read the record. *)
Theorem load_failure (x : option AuthDetails) (e : error) :
  (Load (SAM_AuthStorage m) (t ++ [CallLoad])%list = (x, Some e) ->
   StandardAuthManager_AccessToken m t = (Some ("", Some e), (t ++ [CallLoad])%list)
   /\ StandardAuthManager_Renew m t = (Some ("", Some e), (t ++ [CallLoad])%list))
  /\
  (Load (SAM_AuthStorage m) (t ++ [CallLoad])%list = (None, None) ->
   StandardAuthManager_AccessToken m t = (None, (t ++ [CallLoad])%list)
   /\ StandardAuthManager_Renew m t = (None, (t ++ [CallLoad])%list)).
Proof.
  split; intro Hl; split;
    unfold StandardAuthManager_AccessToken, StandardAuthManager_Renew;
    run_M; rewrite Hl; reflexivity.
Qed.

Variable d : AuthDetails.

Hypothesis Hload : Load (SAM_AuthStorage m) (t ++ [CallLoad])%list = (Some d, None).
Hypothesis Hrefresh : RefreshToken d <> "".

(** [Renew] does not look at the access token of the record: whatever
    token is cached, it exchanges the refresh token once and hands the
    record with the new token to [Save] once. *)
Theorem Renew_always_exchanges (tok : string) :
  Retrieve (SAM_AccessTokenRetriever m) (RefreshToken d)
    (t ++ [CallLoad; CallRetrieve (RefreshToken d)])%list = (tok, None) ->
  StandardAuthManager_Renew m t
  = (Some (tok, None),
     (t ++ [CallLoad; CallRetrieve (RefreshToken d);
            CallSave (mkAuthDetails (RefreshToken d) tok)])%list).
Proof.
  intro Hx. rewrite (Renew_run m t Hload).
  rewrite exchange_ok with (tok := tok); auto.
  - rewrite <- app_assoc. reflexivity.
  - cbn [RefreshToken]. rewrite <- app_assoc. exact Hx.
Qed.


End StandardAuthManagerFailures.

Section FaithfulStore.

Variable m : StandardAuthManager.
Variable init : AuthDetails.

(** The store returns the record last saved, or [init] before any
    [Save]. *)
Hypothesis Hstore :
  forall t, Load (SAM_AuthStorage m) t = (Some (last_saved t init), None).

Lemma exchange_result (a : AuthDetails) (t0 t' : Trace) (tok : string) :
  exchangeRefreshTokenForAccessTokenAndStore m a t0 = (Some (tok, None), t') ->
  t' = (t0 ++ [CallRetrieve (RefreshToken a); CallSave (mkAuthDetails (RefreshToken a) tok)])%list.
Proof.
  unfold exchangeRefreshTokenForAccessTokenAndStore.
  destruct (String.eqb (RefreshToken a) ""); [discriminate|]. run_M.
  destruct (Retrieve (SAM_AccessTokenRetriever m) (RefreshToken a)
              (t0 ++ [CallRetrieve (RefreshToken a)])%list) as [tok' [e|]];
    [discriminate|].
  intro E. inversion E. subst. rewrite app_snoc2. reflexivity.
Qed.

Lemma AccessToken_cached (t : Trace) (r tok : string) :
  tok <> "" ->
  last_saved t init = mkAuthDetails r tok ->
  StandardAuthManager_AccessToken m t = (Some (tok, None), (t ++ [CallLoad])%list).
Proof.
  intros Htok Hlast.
  assert (Hl : Load (SAM_AuthStorage m) (t ++ [CallLoad])%list
               = (Some (mkAuthDetails r tok), None)).
  { rewrite Hstore, last_saved_app, Hlast. reflexivity. }
  rewrite (AccessToken_run m t Hl). cbn [AccessToken].
  rewrite (eqb_empty_false Htok). reflexivity.
Qed.

(** Over a store that returns the record last saved: once [AccessToken]
    or [Renew] has returned a non-empty token, the next [AccessToken]
    returns the same token after its [Load] alone, with no exchange. *)
Theorem AccessToken_after_success (t t' : Trace) (tok : string) :
  tok <> "" ->
  StandardAuthManager_AccessToken m t = (Some (tok, None), t')
  \/ StandardAuthManager_Renew m t = (Some (tok, None), t') ->
  StandardAuthManager_AccessToken m t' = (Some (tok, None), (t' ++ [CallLoad])%list).
Proof.
  intros Htok Hrun.
  pose proof (Hstore (t ++ [CallLoad])%list) as Hl.
  set (d := last_saved (t ++ [CallLoad])%list init) in *.
  assert (Hd : d = last_saved t init).
  { unfold d. rewrite last_saved_app. reflexivity. }
  destruct Hrun as [Hrun | Hrun].
  - rewrite (AccessToken_run m t Hl) in Hrun.
    destruct (negb (String.eqb (AccessToken d) "")) eqn:Ec.
    + assert (Ht : AccessToken d = tok) by congruence.
      assert (Ht' : t' = (t ++ [CallLoad])%list) by congruence.
      subst t'. clearbody d.
      apply AccessToken_cached with (r := RefreshToken d); [exact Htok|].
      rewrite last_saved_app, <- Hd. destruct d. cbn in *. congruence.
    + apply exchange_result in Hrun. subst t'.
      apply AccessToken_cached with (r := RefreshToken d); [exact Htok|].
      rewrite last_saved_app. reflexivity.
  - rewrite (Renew_run m t Hl) in Hrun.
    apply exchange_result in Hrun. subst t'. cbn [RefreshToken].
    apply AccessToken_cached with (r := RefreshToken d); [exact Htok|].
    rewrite last_saved_app. reflexivity.
Qed.

End FaithfulStore.

(** A store that cannot be read, and a store that returns nil. *)
Lemma load_failure_witness :
  (StandardAuthManager_AccessToken
     (mkStandardAuthManager (constRetriever "fresh") (failingStorage "no such file")) []
   = (Some ("", Some "no such file"), [CallLoad])
   /\ StandardAuthManager_Renew
        (mkStandardAuthManager (constRetriever "fresh") (failingStorage "no such file")) []
      = (Some ("", Some "no such file"), [CallLoad]))
  /\
  (StandardAuthManager_AccessToken (mkStandardAuthManager (constRetriever "fresh") nilStorage) []
   = (None, [CallLoad])
   /\ StandardAuthManager_Renew (mkStandardAuthManager (constRetriever "fresh") nilStorage) []
      = (None, [CallLoad])).
Proof.
  split.
  - exact (proj1 (load_failure
                    (mkStandardAuthManager (constRetriever "fresh") (failingStorage "no such file"))
                    [] None "no such file") eq_refl).
  - exact (proj2 (load_failure (mkStandardAuthManager (constRetriever "fresh") nilStorage)
                    [] None "") eq_refl).
Defined.

(** [Renew] on the manager whose store holds the token "stale". *)
Lemma Renew_always_exchanges_witness :
  StandardAuthManager_Renew example_manager []
  = (Some ("fresh", None),
     [CallLoad; CallRetrieve "r"; CallSave (mkAuthDetails "r" "fresh")]).
Proof.
  apply (@Renew_always_exchanges example_manager [] (mkAuthDetails "r" "stale")).
  - reflexivity.
  - discriminate.
  - reflexivity.
Defined.


(** [Renew], then [AccessToken], on the manager of the examples. *)
Lemma AccessToken_after_success_witness :
  StandardAuthManager_AccessToken example_manager
    [CallLoad; CallRetrieve "r"; CallSave (mkAuthDetails "r" "fresh")]
  = (Some ("fresh", None),
     [CallLoad; CallRetrieve "r"; CallSave (mkAuthDetails "r" "fresh"); CallLoad]).
Proof.
  apply (@AccessToken_after_success example_manager (mkAuthDetails "r" "stale")
           (fun t => eq_refl) []).
  - discriminate.
  - right. reflexivity.
Defined.

(** * The requests of the operations *)

Lemma QueryEscape_unreserved (c : ascii) (s : string) :
  shouldEscape c = false -> url_QueryEscape (String c s) = String c (url_QueryEscape s).
Proof. intro H. cbn [url_QueryEscape]. rewrite H. reflexivity. Qed.

Lemma QueryEscape_digits (d : Decimal.uint) :
  url_QueryEscape (NilEmpty.string_of_uint d) = NilEmpty.string_of_uint d.
Proof.
  induction d; cbn [NilEmpty.string_of_uint]; [reflexivity | ..];
    rewrite QueryEscape_unreserved by reflexivity; now rewrite IHd.
Qed.

(** A number printed with [%d] needs no escaping. *)
Lemma QueryEscape_Sprintf_d (n : Z) : url_QueryEscape (Sprintf_d n) = Sprintf_d n.
Proof.
  unfold Sprintf_d, NilZero.string_of_int, NilZero.string_of_uint.
  destruct (Z.to_int n) as [d|d]; destruct d; try reflexivity;
    try (rewrite QueryEscape_unreserved by reflexivity; f_equal);
    apply QueryEscape_digits.
Qed.

(** The query string of a feed request. *)
Lemma feed_values_encode (g m q s : string) :
  Values_Encode
    (if negb (String.eqb g "")
     then Values_Set
            (if negb (String.eqb q "")
             then Values_Set (Values_Set (Values_Set [] "max-results" m) "start-index" s) "q" q
             else Values_Set (Values_Set [] "max-results" m) "start-index" s)
            "group" g
     else if negb (String.eqb q "")
          then Values_Set (Values_Set (Values_Set [] "max-results" m) "start-index" s) "q" q
          else Values_Set (Values_Set [] "max-results" m) "start-index" s)
  = (if String.eqb g "" then "" else "group=" ++ url_QueryEscape g ++ "&")
    ++ "max-results=" ++ url_QueryEscape m
    ++ (if String.eqb q "" then "" else "&q=" ++ url_QueryEscape q)
    ++ "&start-index=" ++ url_QueryEscape s.
Proof.
  destruct (String.eqb g ""), (String.eqb q ""); rewrite ?append_assoc; reflexivity.
Qed.

Section Requests.

Context {Time : Type}.
Context {zero : ZeroValue Time}.
Context {marshaler : TextMarshaler Time}.
Context {parser : url_Parser}.
Context {entry_decoder : xml_Unmarshaler (@Contacts.Entry Time)}.
Context {feed_decoder : xml_Unmarshaler (@Contacts.Feed Time)}.

Variable c : Contacts.Client.

Lemma get_request (url tok : string) :
  appends (one_request (fun req => Method req = "GET" /\ URL req = url /\ ReqBody req = ""))
    (Contacts.get c url tok).
Proof.
  intro t. unfold Contacts.get, http_NewRequest.
  destruct (url_Parse url) as [e|].
  - exists []. cbn. rewrite app_nil_r. split; [reflexivity | left; reflexivity].
  - cbn [deref]. unfold bind at 1. cbn [ret]. cbv beta iota.
    set (req := if negb (String.eqb tok "") then _ else _).
    exists [CallDo req]. split.
    + unfold bind, HTTPClient_Do, call.
      destruct (Do (Contacts.Client_HTTPClient c) req (t ++ [CallDo req])%list) as [resp|e];
        [destruct (StatusCode resp >=? 300)%Z|]; reflexivity.
    + right. exists req. split; [reflexivity|]. subst req.
      destruct (String.eqb tok ""); cbn; auto.
Qed.

Definition scheme : string :=
  if Contacts.Client_DisableHTTPS c then "http" else "https".

(** The one request of a feed or group fetch is a GET of the feed
    path, over https unless [DisableHTTPS] is set, whose query string
    holds the parameters sorted by name: [group] and [q] only when
    they are not empty, each value query-escaped, the two numbers in
    decimal. *)
Theorem feed_request_url (query : Contacts.ContactQuery) (start max : Z) (q tok : string) :
  appends
    (one_request (fun req =>
       Method req = "GET"
       /\ URL req
          = scheme ++ "://www.google.com/m8/feeds/contacts/default/full/?"
            ++ (if String.eqb (Contacts.ContactQuery_Group query) "" then ""
                else "group=" ++ url_QueryEscape (Contacts.ContactQuery_Group query) ++ "&")
            ++ "max-results=" ++ Sprintf_d (Contacts.ContactQuery_MaxResults query)
            ++ (if String.eqb (Contacts.ContactQuery_Query query) "" then ""
                else "&q=" ++ url_QueryEscape (Contacts.ContactQuery_Query query))
            ++ "&start-index=" ++ Sprintf_d (Contacts.ContactQuery_StartIndex query)))
    (Contacts.retrieveFeed c query tok)
  /\
  appends
    (one_request (fun req =>
       Method req = "GET"
       /\ URL req
          = scheme ++ "://www.google.com/m8/feeds/groups/default/full/?"
            ++ "max-results=" ++ Sprintf_d max
            ++ (if String.eqb q "" then "" else "&q=" ++ url_QueryEscape q)
            ++ "&start-index=" ++ Sprintf_d start))
    (Contacts.retrieveGroups c start max q tok).
Proof.
  split.
  - unfold Contacts.retrieveFeed.
    apply appends_bind_pure; [|intros [[? ?] ?] ?; reflexivity].
    eapply appends_weaken; [|apply get_request].
    intros l Hl. eapply one_request_impl; [|exact Hl].
    intros req (Hm & Hu & _). split; [exact Hm|]. rewrite Hu. cbv zeta.
    rewrite (feed_values_encode (Contacts.ContactQuery_Group query)
               (Sprintf_d (Contacts.ContactQuery_MaxResults query))
               (Contacts.ContactQuery_Query query)
               (Sprintf_d (Contacts.ContactQuery_StartIndex query))).
    rewrite !QueryEscape_Sprintf_d. unfold scheme, Contacts.basePath.
    destruct (Contacts.Client_DisableHTTPS c); reflexivity.
  - unfold Contacts.retrieveGroups.
    apply appends_bind_pure; [|intros [[? ?] ?] ?; reflexivity].
    eapply appends_weaken; [|apply get_request].
    intros l Hl. eapply one_request_impl; [|exact Hl].
    intros req (Hm & Hu & _). split; [exact Hm|]. rewrite Hu. cbv zeta.
    pose proof (feed_values_encode "" (Sprintf_d max) q (Sprintf_d start)) as E.
    cbn [String.eqb negb] in E. rewrite E.
    rewrite !QueryEscape_Sprintf_d. unfold scheme, Contacts.groupPath.
    destruct (Contacts.Client_DisableHTTPS c); reflexivity.
Qed.

(** The request of a save is a PUT to the [Id] of the entry whose
    body is the encoded entry; when the entry cannot be encoded, the
    error of the marshaller is returned and nothing is sent. *)
Theorem save_request (entry : Contacts.Entry) (tok : string) :
  (forall doc,
     Contacts.encode entry = (doc, None) ->
     appends
       (one_request (fun req =>
          Method req = "PUT" /\ URL req = Contacts.Entry_Id entry /\ ReqBody req = doc))
       (Contacts.saveContactRaw c tok entry))
  /\
  (forall x e t,
     Contacts.encode entry = (x, Some e) ->
     Contacts.saveContactRaw c tok entry t = (Some (None, Some e), t)).
Proof.
  split.
  - intros doc He t. unfold Contacts.saveContactRaw. rewrite He.
    unfold http_NewRequest, Contacts.GetURI.
    destruct (url_Parse (Contacts.Entry_Id entry)) as [e|].
    + exists []. cbn. rewrite app_nil_r. split; [reflexivity | left; reflexivity].
    + cbn [deref]. unfold bind at 1. cbn [ret]. cbv beta iota.
      set (req := if negb (String.eqb tok "") then _ else _).
      exists [CallDo req]. split.
      * unfold bind, HTTPClient_Do, call.
        destruct (Do (Contacts.Client_HTTPClient c) req (t ++ [CallDo req])%list) as [resp|e];
          [destruct (StatusCode resp >=? 300)%Z; [|destruct (BodyErr resp)]|]; reflexivity.
      * right. exists req. split; [reflexivity|]. subst req.
        destruct (String.eqb tok ""); cbn; auto.
  - intros x e t He. unfold Contacts.saveContactRaw. rewrite He. reflexivity.
Qed.

(** A URL that [http.NewRequest] rejects.  [get] returns the error and
    sends nothing.  [saveContactRaw] adds its headers before it looks
    at the error: it panics on the nil request, and so do [SaveRaw] and
    [Save] once the manager has given a token. *)
Theorem rejected_url (e : error) (t : Trace) :
  (forall url tok,
     url_Parse url = Some e ->
     Contacts.get c url tok t = (Some ("", "", Some e), t))
  /\
  (forall entry doc tok,
     url_Parse (Contacts.Entry_Id entry) = Some e ->
     Contacts.encode entry = (doc, None) ->
     Contacts.saveContactRaw c tok entry t = (None, t)
     /\ forall t0,
          call_AccessToken (Contacts.Client_AuthManager c) t0 = (Some (tok, None), t) ->
          Contacts.SaveRaw c entry t0 = (None, t) /\ Contacts.Save c entry t0 = (None, t)).
Proof.
  split.
  - intros url tok Hu. unfold Contacts.get, http_NewRequest. rewrite Hu. reflexivity.
  - intros entry doc tok Hu He.
    assert (Hs : Contacts.saveContactRaw c tok entry t = (None, t)).
    { unfold Contacts.saveContactRaw. rewrite He.
      unfold http_NewRequest, Contacts.GetURI. rewrite Hu. reflexivity. }
    split; [exact Hs|]. intros t0 Ha. split.
    + unfold Contacts.SaveRaw, bind. rewrite Ha. cbv beta iota. rewrite Hs. reflexivity.
    + unfold Contacts.Save, bind. rewrite Ha. cbv beta iota.
      unfold Contacts.saveContact, bind. rewrite Hs. reflexivity.
Qed.

(** When the manager fails to give a token, every operation returns
    the manager's error and stops there: no request is sent and
    [Renew] is not called. *)
Theorem auth_failure_stops (x : string) (e : error) (t t1 : Trace)
    (query : Contacts.ContactQuery) (start max : Z) (q contactID href : string)
    (entry : Contacts.Entry) :
  call_AccessToken (Contacts.Client_AuthManager c) t = (Some (x, Some e), t1) ->
  Contacts.FetchContactImage c href t = (Some ("", "", Some e), t1)
  /\ Contacts.FetchGroupsRaw c start max q t = (Some ("", Some e), t1)
  /\ Contacts.FetchGroups c start max q t = (Some (None, Some e), t1)
  /\ Contacts.FetchFeedRaw c query t = (Some ("", Some e), t1)
  /\ Contacts.FetchFeed c query t = (Some (None, Some e), t1)
  /\ Contacts.FetchContactRaw c contactID t = (Some ("", Some e), t1)
  /\ Contacts.FetchContact c contactID t = (Some (None, Some e), t1)
  /\ Contacts.Save c entry t = (Some (None, Some e), t1)
  /\ Contacts.SaveRaw c entry t = (Some (None, Some e), t1).
Proof.
  intro Ha.
  assert (Hg : Contacts.FetchGroupsRaw c start max q t = (Some ("", Some e), t1))
    by (unfold Contacts.FetchGroupsRaw, bind; rewrite Ha; reflexivity).
  assert (Hf : Contacts.FetchFeedRaw c query t = (Some ("", Some e), t1))
    by (unfold Contacts.FetchFeedRaw, bind; rewrite Ha; reflexivity).
  assert (Hc : Contacts.FetchContactRaw c contactID t = (Some ("", Some e), t1))
    by (unfold Contacts.FetchContactRaw, bind; rewrite Ha; reflexivity).
  repeat split; try assumption.
  - unfold Contacts.FetchContactImage, bind. rewrite Ha. reflexivity.
  - unfold Contacts.FetchGroups, bind. rewrite Hg. reflexivity.
  - unfold Contacts.FetchFeed, bind. rewrite Hf. reflexivity.
  - unfold Contacts.FetchContact, bind. rewrite Hc. reflexivity.
  - unfold Contacts.Save, bind. rewrite Ha. reflexivity.
  - unfold Contacts.SaveRaw, bind. rewrite Ha. reflexivity.
Qed.

End Requests.

(** * The operations on concrete clients *)

(** The retrying operations on the client of the examples. *)
Lemma bearer_operations_retry_once_witness :
  let c := example_client fail_then_succeed in
  let am := Contacts.Client_AuthManager c in
  retry_once am (Contacts.retrieveFeed c Contacts.NewQuery) ""
    (Contacts.FetchFeedRaw c Contacts.NewQuery)
  /\ retry_once am (Contacts.retrieveGroups c 1 100 "") "" (Contacts.FetchGroupsRaw c 1 100 "")
  /\ retry_once am (fun accessToken => Contacts.fetchContact c accessToken example_href) ""
       (Contacts.FetchContactRaw c example_href)
  /\ retry_once am (fun accessToken => Contacts.saveContact c accessToken example_entry) None
       (Contacts.Save c example_entry)
  /\ retry_once am (fun accessToken => Contacts.saveContactRaw c accessToken example_entry) None
       (Contacts.SaveRaw c example_entry).
Proof.
  exact (bearer_operations_retry_once (example_client fail_then_succeed)
           Contacts.NewQuery 1 100 "" example_href example_entry
           (StandardAuthManager_internal example_manager)).
Defined.

Lemma earlier_operations_retry_once_witness :
  let c := example_clientV1 fail_then_succeed in
  let am := ContactsV1.Client_AuthManager c in
  retry_once am (ContactsV1.retrieveFeed c) "" (ContactsV1.FetchFeedRaw c)
  /\ retry_once am (fun accessToken => ContactsV1.fetchContact c accessToken "abc123") ""
       (ContactsV1.FetchContactRaw c "abc123")
  /\ retry_once am (fun accessToken => ContactsV1.saveContact c accessToken ContactsV1.Entry_zero)
       None (ContactsV1.Save c ContactsV1.Entry_zero).
Proof.
  exact (earlier_operations_retry_once (Time := TextTime) (example_clientV1 fail_then_succeed)
           "abc123" ContactsV1.Entry_zero
           (StandardAuthManager_internal example_manager)).
Defined.

Lemma FetchContactImage_single_attempt_witness :
  appends (fun l => count_Renew l = 0%nat /\ (List.length (requests l) <= 1)%nat)
    (Contacts.FetchContactImage (example_client always_fail) example_href).
Proof.
  exact (FetchContactImage_single_attempt (example_client always_fail) example_href
           (StandardAuthManager_internal example_manager)).
Defined.

(** The request that saves [example_entry], and an entry with a year
    that [Time.MarshalText] refuses. *)
Lemma save_request_witness :
  appends
    (one_request (fun req =>
       Method req = "PUT" /\ URL req = "http://x/full/abc"
       /\ ReqBody req = fst (Contacts.encode example_entry)))
    (Contacts.saveContactRaw (example_client always_fail) "tok" example_entry)
  /\
  Contacts.saveContactRaw (example_client always_fail) "tok" unencodable_entry []
  = (Some (None, Some "Time.MarshalText: year outside of range [0,9999]"), []).
Proof.
  split.
  - apply (proj1 (save_request (example_client always_fail) example_entry "tok")).
    vm_compute. reflexivity.
  - apply (proj2 (save_request (example_client always_fail) unencodable_entry "tok") "").
    reflexivity.
Defined.

(** A URL and an [Id] that end with a line feed, under a parser that
    rejects control characters. *)
Lemma rejected_url_witness :
  @Contacts.get ctl_url_Parser (example_client always_fail) ("http://x/full/abc" ++ str_lf) "tok" []
  = (Some ("", "", Some "net/url: invalid control character in URL"), [])
  /\
  @Contacts.saveContactRaw TextTime _ ctl_url_Parser (example_client always_fail) "tok"
    example_entry_lf []
  = (None, []).
Proof.
  split.
  - apply (proj1 (rejected_url (parser := ctl_url_Parser) (Time := TextTime)
                    (example_client always_fail)
                    "net/url: invalid control character in URL" [])).
    reflexivity.
  - refine (proj1 (proj2 (rejected_url (parser := ctl_url_Parser) (example_client always_fail)
                            "net/url: invalid control character in URL" [])
                     example_entry_lf (fst (Contacts.encode example_entry_lf)) "tok" _ _)).
    + reflexivity.
    + vm_compute. reflexivity.
Defined.

(** Every operation on a client whose manager cannot read its store. *)
Lemma auth_failure_stops_witness :
  let c := example_client_no_store in
  let t1 := [CallAccessToken; CallLoad] in
  Contacts.FetchContactImage c example_href [] = (Some ("", "", Some "no such file"), t1)
  /\ Contacts.FetchGroupsRaw c 1 100 "" [] = (Some ("", Some "no such file"), t1)
  /\ Contacts.FetchGroups c 1 100 "" [] = (Some (None, Some "no such file"), t1)
  /\ Contacts.FetchFeedRaw c Contacts.NewQuery [] = (Some ("", Some "no such file"), t1)
  /\ Contacts.FetchFeed c Contacts.NewQuery [] = (Some (None, Some "no such file"), t1)
  /\ Contacts.FetchContactRaw c example_href [] = (Some ("", Some "no such file"), t1)
  /\ Contacts.FetchContact c example_href [] = (Some (None, Some "no such file"), t1)
  /\ Contacts.Save c example_entry [] = (Some (None, Some "no such file"), t1)
  /\ Contacts.SaveRaw c example_entry [] = (Some (None, Some "no such file"), t1).
Proof.
  exact (auth_failure_stops example_client_no_store (x := "") (e := "no such file") []
           (t1 := [CallAccessToken; CallLoad])
           Contacts.NewQuery 1 100 "" example_href example_href example_entry eq_refl).
Defined.

(** * Which elements an encoded document holds *)

(** The names [fixXml] writes when it passes a pending start tag. *)
Definition flush_names (pending : option string) : list string :=
  match pending with
  | Some n => [fix_name n]
  | None => []
  end.

(** The tag names one token adds to the document, and the start tag
    that is pending after it. *)
Definition fixed_step (t : Token) (pending : option string) : list string * option string :=
  match t with
  | CharData d =>
      if String.eqb (EscapeText d) "" then ([], pending) else (flush_names pending, None)
  | EndElement m =>
      match pending with
      | Some n => if String.eqb m n then ([], None) else ([fix_name n; fix_name m], None)
      | None => ([fix_name m], None)
      end
  | StartElement m attr =>
      match attr with
      | [] =>
          if elidable m then (flush_names pending, Some m)
          else ((flush_names pending ++ [fix_name m])%list, None)
      | _ => ((flush_names pending ++ [fix_name m])%list, None)
      end
  end.

Fixpoint fixed_run (ts : list Token) (pending : option string) : list string * option string :=
  match ts with
  | [] => ([], pending)
  | t :: ts' =>
      let (emit, q) := fixed_step t pending in
      let (ns, q') := fixed_run ts' q in
      ((emit ++ ns)%list, q')
  end.

(** The element names of the start and end tokens. *)
Fixpoint elem_names (ts : list Token) : list string :=
  match ts with
  | [] => []
  | StartElement m _ :: ts' => m :: elem_names ts'
  | EndElement m :: ts' => m :: elem_names ts'
  | CharData _ :: ts' => elem_names ts'
  end.

Lemma tag_names_gt (Y : string) : tag_names (String ">" Y) = tag_names Y.
Proof. reflexivity. Qed.

Lemma tag_names_open (m Y : string) :
  In m known_names -> tag_names ("<" ++ fix_name m ++ ">" ++ Y) = fix_name m :: tag_names Y.
Proof.
  intros Hm. destruct (known_name_fixed Hm) as (H1 & _ & H3 & _).
  change (">" ++ Y) with (String ">" Y).
  rewrite tag_names_tag by auto. now rewrite H3, tag_names_gt.
Qed.

Lemma tag_names_close (m Y : string) :
  In m known_names -> tag_names ("</" ++ fix_name m ++ ">" ++ Y) = fix_name m :: tag_names Y.
Proof.
  intros Hm. destruct (known_name_fixed Hm) as (_ & _ & _ & H4).
  change ("</" ++ fix_name m ++ ">" ++ Y)
    with ("<" ++ String "/" (fix_name m) ++ String ">" Y).
  rewrite tag_names_tag by auto. reflexivity.
Qed.

Lemma tag_names_open_attr (m : string) (attr : list (string * string)) (Y : string) :
  token_ok (StartElement m attr) -> attr <> [] ->
  tag_names ("<" ++ fix_name m ++ write_attrs attr ++ ">" ++ Y) = fix_name m :: tag_names Y.
Proof.
  intros [Hm Ha] Hne. destruct (known_name_fixed Hm) as (H1 & _ & H3 & _).
  destruct (write_attrs_space Hne) as [A HA].
  pose proof (write_attrs_no_lt Ha) as Hno. rewrite HA in Hno |- *.
  change (String " " A ++ ">" ++ Y) with (String " " (A ++ ">" ++ Y)).
  rewrite tag_names_tag by auto. rewrite H3. f_equal.
  change (String " " (A ++ ">" ++ Y)) with (String " " A ++ ">" ++ Y).
  rewrite <- append_assoc. apply tag_names_text.
  rewrite has_byte_app, Hno. reflexivity.
Qed.

Lemma tag_names_flush (pending : option string) (Y : string) :
  (forall n, pending = Some n -> In n known_names) ->
  tag_names (flush pending ++ Y) = (flush_names pending ++ tag_names Y)%list.
Proof.
  intros Hp. destruct pending as [n|]; unfold flush, flush_names; [|reflexivity].
  rewrite !append_assoc. apply tag_names_open. auto.
Qed.

Lemma tag_names_flush_end (pending : option string) :
  (forall n, pending = Some n -> In n known_names) ->
  tag_names (flush pending) = flush_names pending.
Proof.
  intro Hp. rewrite <- (append_nil_r (flush pending)), tag_names_flush by exact Hp.
  apply app_nil_r.
Qed.

(** The tag names of the text [fixXml] makes of the printer's text,
    token by token. *)
Lemma tag_names_print_fixed (ts : list Token) :
  forall p pending,
    Forall token_ok ts -> printer_ok p -> pending_ok pending p ->
    tag_names (print_fixed ts p pending)
    = (fst (fixed_run ts pending) ++ flush_names (snd (fixed_run ts pending)))%list.
Proof.
  induction ts as [|t ts IH]; intros p pending Hts Hp Hpend.
  - cbn. apply tag_names_flush_end. intros n Hn.
    apply elidable_known. apply (Hpend n Hn).
  - inversion Hts as [|? ? Ht Hts']; subst.
    assert (Hknown : forall n, pending = Some n -> In n known_names).
    { intros n Hn. apply elidable_known. apply (Hpend n Hn). }
    assert (Hnone : forall q, pending_ok None q) by (intros q n Hn; discriminate).
    destruct t as [m attr | m | d]; cbn [print_fixed fixed_run fixed_step].
    + rewrite (writeIndent_start Hp).
      set (p' := mkprinter "" "  " (depth p + 1) true true).
      assert (Hp' : printer_ok p') by (split; reflexivity).
      rewrite tag_names_flush by exact Hknown.
      rewrite tag_names_text by apply indentation_no_lt.
      destruct attr as [|a attr].
      * destruct (elidable m) eqn:Em.
        -- rewrite (IH p' (Some m)); auto.
           ++ destruct (fixed_run ts (Some m)) as [ns q']. cbn [fst snd].
              now rewrite app_assoc.
           ++ intros n Hn. inversion Hn; subst. auto.
        -- rewrite tag_names_open by (destruct Ht; auto).
           rewrite (IH p' None) by auto.
           destruct (fixed_run ts None) as [ns q']. cbn [fst snd].
           rewrite <- !app_assoc. reflexivity.
      * rewrite tag_names_open_attr by (auto; discriminate).
        rewrite (IH p' None) by auto.
        destruct (fixed_run ts None) as [ns q']. cbn [fst snd].
        rewrite <- !app_assoc. reflexivity.
    + rewrite (writeIndent_end Hp).
      destruct pending as [n|].
      * destruct (Hpend n eq_refl) as (He & Hi & Hn). rewrite Hi.
        set (p' := mkprinter "" "  " (depth p - 1) false (putNewline p)).
        assert (Hp' : printer_ok p') by (split; reflexivity).
        rewrite String.eqb_refl, andb_true_r.
        destruct (String.eqb m n).
        -- rewrite (IH p' None) by auto.
           destruct (fixed_run ts None) as [ns q']. reflexivity.
        -- rewrite tag_names_flush by exact Hknown.
           change ("" ++ "</" ++ fix_name m ++ ">" ++ print_fixed ts p' None)
             with ("</" ++ fix_name m ++ ">" ++ print_fixed ts p' None).
           rewrite tag_names_close by exact Ht.
           rewrite (IH p' None) by auto.
           destruct (fixed_run ts None) as [ns q']. reflexivity.
      * destruct (indentedIn p).
        -- set (p' := mkprinter "" "  " (depth p - 1) false (putNewline p)).
           assert (Hp' : printer_ok p') by (split; reflexivity).
           change ("" ++ "</" ++ fix_name m ++ ">" ++ print_fixed ts p' None)
             with ("</" ++ fix_name m ++ ">" ++ print_fixed ts p' None).
           rewrite tag_names_close by exact Ht.
           rewrite (IH p' None) by auto.
           destruct (fixed_run ts None) as [ns q']. reflexivity.
        -- set (p' := mkprinter "" "  " (depth p - 1) false true).
           assert (Hp' : printer_ok p') by (split; reflexivity).
           rewrite tag_names_text by apply indentation_no_lt.
           rewrite tag_names_close by exact Ht.
           rewrite (IH p' None) by auto.
           destruct (fixed_run ts None) as [ns q']. reflexivity.
    + destruct (String.eqb (EscapeText d) "").
      * rewrite (IH p pending) by auto.
        destruct (fixed_run ts pending) as [ns q']. reflexivity.
      * rewrite tag_names_flush by exact Hknown.
        rewrite tag_names_text by apply EscapeText_no_lt.
        rewrite (IH p None) by auto.
        destruct (fixed_run ts None) as [ns q']. cbn [fst snd].
        now rewrite app_assoc.
Qed.

Lemma fixed_run_app (ts1 ts2 : list Token) :
  forall pending,
    fixed_run (ts1 ++ ts2) pending
    = let (n1, q1) := fixed_run ts1 pending in
      let (n2, q2) := fixed_run ts2 q1 in
      ((n1 ++ n2)%list, q2).
Proof.
  induction ts1 as [|t ts1 IH]; intro pending.
  - cbn. destruct (fixed_run ts2 pending). reflexivity.
  - cbn [app fixed_run]. destruct (fixed_step t pending) as [emit q].
    rewrite IH. destruct (fixed_run ts1 q) as [n1 q1].
    destruct (fixed_run ts2 q1) as [n2 q2]. now rewrite app_assoc.
Qed.

Lemma elem_names_app (ts1 ts2 : list Token) :
  elem_names (ts1 ++ ts2) = (elem_names ts1 ++ elem_names ts2)%list.
Proof.
  induction ts1 as [|[m a|m|d] ts1 IH]; cbn; now rewrite ?IH.
Qed.

(** A name of the run comes from a token or from the pending tag. *)
Lemma fixed_run_names (ts : list Token) :
  forall pending x,
    In x (fst (fixed_run ts pending) ++ flush_names (snd (fixed_run ts pending)))%list ->
    exists m, x = fix_name m /\ (In m (elem_names ts) \/ pending = Some m).
Proof.
  induction ts as [|t ts IH]; intros pending x Hx.
  - cbn in Hx. destruct pending as [n|]; cbn in Hx; [|contradiction].
    destruct Hx as [<-|[]]. eauto.
  - cbn [fixed_run] in Hx.
    destruct (fixed_step t pending) as [emit q] eqn:Es.
    specialize (IH q x). destruct (fixed_run ts q) as [ns q']. cbn [fst snd] in *.
    rewrite <- app_assoc in Hx. apply in_app_or in Hx.
    assert (Hemit : forall y, In y emit \/ (exists m, y = fix_name m /\ q = Some m) ->
              exists m, y = fix_name m
                        /\ (In m (elem_names [t]) \/ pending = Some m)).
    { intros y Hy. destruct t as [m attr|m|d]; cbn [fixed_step] in Es.
      - assert (Hcase : (emit = flush_names pending /\ q = Some m)
                        \/ (emit = (flush_names pending ++ [fix_name m])%list /\ q = None)).
        { destruct attr; [destruct (elidable m)|]; inversion Es; auto. }
        destruct Hcase as [[-> ->] | [-> ->]].
        + destruct Hy as [Hy | (m' & -> & E)].
          * destruct pending; cbn in Hy; [destruct Hy as [<-|[]]; eauto | contradiction].
          * injection E as <-. exists m. cbn. auto.
        + destruct Hy as [Hy | (m' & _ & E)]; [|discriminate].
          apply in_app_or in Hy. destruct Hy as [Hy | [<-|[]]].
          * destruct pending; cbn in Hy; [destruct Hy as [<-|[]]; eauto | contradiction].
          * exists m. cbn. auto.
      - destruct pending as [n|].
        + destruct (String.eqb m n); inversion Es; subst.
          * destruct Hy as [[] | (m' & _ & E)]; discriminate.
          * destruct Hy as [[<-|[<-|[]]] | (m' & _ & E)]; [eauto | | discriminate].
            exists m. cbn. auto.
        + inversion Es; subst.
          destruct Hy as [[<-|[]] | (m' & _ & E)]; [|discriminate]. exists m. cbn. auto.
      - destruct (String.eqb (EscapeText d) ""); inversion Es; subst.
        + destruct Hy as [[] | (m' & -> & E)]. eauto.
        + destruct Hy as [Hy | (m' & _ & E)]; [|discriminate].
          destruct pending; cbn in Hy; [destruct Hy as [<-|[]]; eauto | contradiction]. }
    assert (Hlift : forall m, In m (elem_names [t]) -> In m (elem_names (t :: ts))).
    { intros m Hm. change (t :: ts) with ([t] ++ ts)%list.
      rewrite elem_names_app. apply in_or_app. auto. }
    destruct Hx as [Hx | Hx].
    + destruct (Hemit x (or_introl Hx)) as (m & -> & [Hm | Hm]); eauto.
    + destruct (IH Hx) as (m & -> & [Hm | Hm]).
      * exists m. split; [reflexivity|]. left.
        change (t :: ts) with ([t] ++ ts)%list. rewrite elem_names_app.
        apply in_or_app. auto.
      * destruct (Hemit (fix_name m) (or_intror (ex_intro _ m (conj eq_refl Hm))))
          as (m' & E & [Hm' | Hm']); eauto.
Qed.

Lemma fixed_run_pending (ts : list Token) :
  forall pending m,
    snd (fixed_run ts pending) = Some m -> In m (elem_names ts) \/ pending = Some m.
Proof.
  induction ts as [|t ts IH]; intros pending m H; [right; exact H|].
  cbn [fixed_run] in H. destruct (fixed_step t pending) as [emit q] eqn:Es.
  specialize (IH q m). destruct (fixed_run ts q) as [ns q']. cbn [snd] in *.
  destruct (IH H) as [Hin | Hq].
  - left. destruct t; cbn [elem_names]; auto using in_cons.
  - subst q. destruct t as [m' attr|m'|d]; cbn [fixed_step] in Es.
    + left. destruct attr; [destruct (elidable m')|]; inversion Es. cbn. auto.
    + destruct pending; [destruct (String.eqb m' s)|]; inversion Es.
    + destruct (String.eqb (EscapeText d) ""); inversion Es. auto.
Qed.

Lemma fixed_run_fst_app (ts1 ts2 : list Token) (pending : option string) :
  fst (fixed_run (ts1 ++ ts2) pending)
  = (fst (fixed_run ts1 pending) ++ fst (fixed_run ts2 (snd (fixed_run ts1 pending))))%list.
Proof.
  rewrite fixed_run_app. destruct (fixed_run ts1 pending) as [n1 q1].
  cbn [fst snd]. destruct (fixed_run ts2 q1). reflexivity.
Qed.

Lemma fixed_run_snd_app (ts1 ts2 : list Token) (pending : option string) :
  snd (fixed_run (ts1 ++ ts2) pending) = snd (fixed_run ts2 (snd (fixed_run ts1 pending))).
Proof.
  rewrite fixed_run_app. destruct (fixed_run ts1 pending) as [n1 q1].
  cbn [fst snd]. destruct (fixed_run ts2 q1). reflexivity.
Qed.

Lemma elem_names_flat_map {A} (f : A -> list Token) (l : list A) :
  elem_names (flat_map f l) = flat_map (fun a => elem_names (f a)) l.
Proof.
  induction l as [|a l IH]; [reflexivity|]. cbn [flat_map].
  now rewrite elem_names_app, IH.
Qed.

Lemma elem_names_known (ts : list Token) :
  Forall token_ok ts -> Forall (fun m => In m known_names) (elem_names ts).
Proof.
  induction 1 as [|[m a|m|d] ts Ht _ IH]; cbn [elem_names]; auto.
  - constructor; [apply Ht | exact IH].
Qed.

(** * The name and the organization of an encoded entry *)

(** No token of a list is named [organization]. *)
Definition no_organization (ts : list Token) : Prop :=
  Forall (fun m => m <> "organization") (elem_names ts).

Lemma no_organization_app (a b : list Token) :
  no_organization a -> no_organization b -> no_organization (a ++ b).
Proof.
  unfold no_organization. intros Ha Hb. rewrite elem_names_app.
  apply Forall_app. auto.
Qed.

Lemma no_organization_slice {A} (f : A -> list Token) (l : list A) :
  (forall a, no_organization (f a)) -> no_organization (elem_slice f l).
Proof.
  unfold no_organization, elem_slice. intro H. rewrite elem_names_flat_map.
  apply Forall_flat_map. exact H.
Qed.

Lemma no_organization_string (name value : string) :
  name <> "organization" -> no_organization (elem_string name value).
Proof. intro H. repeat constructor; exact H. Qed.

Lemma no_organization_omitempty (name value : string) :
  name <> "organization" -> no_organization (elem_string_omitempty name value).
Proof.
  intro H. unfold elem_string_omitempty. destruct (String.length value =? 0)%nat.
  - constructor.
  - apply no_organization_string. exact H.
Qed.

Ltac no_org :=
  repeat first
    [ apply no_organization_app
    | apply no_organization_slice; intro
    | apply no_organization_string; discriminate
    | apply no_organization_omitempty; discriminate
    | progress unfold marshal_GivenName, marshal_FamilyName, marshal_Name, marshal_Email,
        marshal_When, marshal_Event, marshal_Birthday, marshal_Relation,
        marshal_UserDefinedField, marshal_Website, marshal_PhoneNumber,
        marshal_InstantMessenger, marshal_ExtendedProperty, marshal_Link,
        Contacts.marshal_StructuredPostalAddress, Contacts.marshal_GroupMembershipInfo
    | (repeat constructor; discriminate) ].

(** A known name other than [organization] is not renamed to
    [gd:organization]. *)
Lemma fix_name_organization (m : string) :
  In m known_names -> m <> "organization" -> fix_name m <> "gd:organization".
Proof.
  intros Hm Hne.
  assert (H : forallb (fun m => String.eqb m "organization"
                                || negb (String.eqb (fix_name m) "gd:organization"))%bool
                known_names = true) by (vm_compute; reflexivity).
  rewrite forallb_forall in H. specialize (H m Hm).
  apply orb_true_iff in H. destruct H as [H|H].
  - apply String.eqb_eq in H. contradiction.
  - apply negb_true_iff, String.eqb_neq in H. exact H.
Qed.

(** A run over tokens that are not named [organization] writes no
    [gd:organization] and leaves no such tag pending. *)
Lemma run_without_organization (ts : list Token) (pending : option string) :
  Forall token_ok ts -> no_organization ts ->
  (forall n, pending = Some n -> In n known_names /\ n <> "organization") ->
  ~ In "gd:organization"
      (fst (fixed_run ts pending) ++ flush_names (snd (fixed_run ts pending)))%list
  /\ (forall n, snd (fixed_run ts pending) = Some n -> In n known_names /\ n <> "organization").
Proof.
  intros Hok Hno Hpend.
  pose proof (elem_names_known Hok) as Hknown.
  unfold no_organization in Hno. rewrite Forall_forall in Hknown, Hno.
  split.
  - intro Hin. apply fixed_run_names in Hin. destruct Hin as (m & E & [Hm | Hm]).
    + symmetry in E. revert E. apply fix_name_organization; auto.
    + destruct (Hpend m Hm) as [H1 H2].
      symmetry in E. revert E. apply fix_name_organization; auto.
  - intros n Hn. apply fixed_run_pending in Hn. destruct Hn as [Hn | Hn]; auto.
Qed.

Lemma length_zero (s : string) : (String.length s =? 0)%nat = true <-> s = "".
Proof. destruct s; cbn; split; congruence. Qed.

(** The run over an organization without content writes nothing of
    its own; over any other organization it writes [gd:organization]. *)
Lemma run_organization (v : Organization) (pending : option string) :
  (forall n, pending = Some n -> n <> "organization") ->
  snd (fixed_run (marshal_Organization "organization" v) pending) = None
  /\ (v = mkOrganization "" "" "" ->
      fst (fixed_run (marshal_Organization "organization" v) pending) = flush_names pending)
  /\ (v <> mkOrganization "" "" "" ->
      In "gd:organization" (fst (fixed_run (marshal_Organization "organization" v) pending))).
Proof.
  intro Hpend. destruct v as [rel orgName orgTitle].
  unfold marshal_Organization, attr_string_omitempty, elem_string_omitempty, elem_string.
  cbn [Organization_Rel Organization_OrgName Organization_OrgTitle].
  assert (Hflush : forall x, In x (flush_names pending ++ [x])%list)
    by (intro x; apply in_or_app; right; left; reflexivity).
  destruct rel as [|c rel]; destruct orgName as [|c1 orgName];
    destruct orgTitle as [|c2 orgTitle];
    cbn [String.length Nat.eqb app fixed_run fixed_step elidable String.eqb Ascii.eqb
           Bool.eqb orb andb fst snd];
    repeat match goal with
           | |- context [if ?b then _ else _] => destruct b
           end;
    cbn [fst snd app];
    (split; [reflexivity|]);
    (split; [intro E; try discriminate E; try (rewrite app_nil_r; reflexivity)
            | intro Hne; try (exfalso; apply Hne; reflexivity)]);
    try (apply in_or_app; left; apply Hflush);
    try (apply in_or_app; right; left; reflexivity).
Qed.

Lemma fixed_run_cons (t : Token) (ts : list Token) (pending : option string) :
  fst (fixed_run (t :: ts) pending)
  = (fst (fixed_step t pending) ++ fst (fixed_run ts (snd (fixed_step t pending))))%list.
Proof.
  cbn [fixed_run]. destruct (fixed_step t pending) as [emit q]. cbn [fst snd].
  destruct (fixed_run ts q). reflexivity.
Qed.

(** A start tag that is not elidable is written. *)
Lemma run_start (m : string) (attr : list (string * string)) (ts : list Token) :
  forall pending,
    In (StartElement m attr) ts -> elidable m = false ->
    In (fix_name m) (fst (fixed_run ts pending)).
Proof.
  induction ts as [|t ts IH]; intros pending Hin He; [contradiction|].
  rewrite fixed_run_cons. apply in_or_app.
  destruct Hin as [-> | Hin]; [left | right; auto].
  cbn [fixed_step]. rewrite He.
  destruct attr; cbn [fst]; apply in_or_app; right; left; reflexivity.
Qed.

(** An elidable start tag that another start tag follows is written. *)
Lemma run_start_elidable (n m : string) (attr : list (string * string))
    (rest : list Token) (pending : option string) :
  elidable n = true ->
  In (fix_name n)
    (fst (fixed_run (StartElement n [] :: StartElement m attr :: rest) pending)).
Proof.
  intro He. rewrite !fixed_run_cons. apply in_or_app. right. apply in_or_app. left.
  cbn [fixed_step]. rewrite He. cbn [snd flush_names].
  destruct attr; [destruct (elidable m)|]; cbn [fst app]; left; reflexivity.
Qed.

(** The run over a name writes [gd:name], [gd:givenName] and
    [gd:familyName] whatever the name holds. *)
Lemma run_name (v : Name) (rest : list Token) (pending : option string) :
  In "gd:name" (fst (fixed_run (marshal_Name "name" v ++ rest) pending))
  /\ In "gd:givenName" (fst (fixed_run (marshal_Name "name" v ++ rest) pending))
  /\ In "gd:familyName" (fst (fixed_run (marshal_Name "name" v ++ rest) pending)).
Proof.
  split; [|split].
  - assert (H : exists m attr rest',
               (marshal_Name "name" v ++ rest)%list
               = StartElement "name" [] :: StartElement m attr :: rest').
    { unfold marshal_Name, marshal_GivenName, elem_string_omitempty, elem_string.
      destruct (String.length (Name_FullName v) =? 0)%nat;
        destruct (String.length (Name_NamePrefix v) =? 0)%nat;
        cbn [app]; eauto. }
    destruct H as (m & attr & rest' & ->).
    apply (@run_start_elidable "name" m attr rest' pending). reflexivity.
  - apply (@run_start "givenName"
             (attr_string_omitempty "yomi" (GivenName_Phonetic (Name_GivenName v))));
      [|reflexivity].
    unfold marshal_Name, marshal_GivenName.
    apply in_or_app. left. do 3 (apply in_or_app; right). left. reflexivity.
  - apply (@run_start "familyName"
             (attr_string_omitempty "yomi" (FamilyName_Phonetic (Name_FamilyName v))));
      [|reflexivity].
    unfold marshal_Name, marshal_FamilyName.
    apply in_or_app. left. do 5 (apply in_or_app; right). apply in_or_app. left.
    left. reflexivity.
Qed.

Section EncodedElements.

Context {Time : Type}.
Context {marshaler : TextMarshaler Time}.

Lemma marshal_Entry_split (e : @Contacts.Entry Time) (ts : list Token) :
  Contacts.marshal_Entry e = (ts, None) ->
  exists A1 A2 B,
    ts = (A1 ++ marshal_Name "name" (Contacts.Entry_Name e)
          ++ A2 ++ marshal_Organization "organization" (Contacts.Entry_Organization e)
          ++ B)%list
    /\ no_organization A1
    /\ no_organization (marshal_Name "name" (Contacts.Entry_Name e))
    /\ no_organization A2
    /\ no_organization B.
Proof.
  unfold Contacts.marshal_Entry, elem_text.
  destruct (MarshalText (Contacts.Entry_Updated e)) as [text [err|]]; [discriminate|].
  intro E. apply (f_equal fst) in E. cbn [fst] in E. subst ts.
  exists ([StartElement "entry" (attr_string "etag" (Contacts.Entry_ETag e))]
          ++ elem_string "id" (Contacts.Entry_Id e)
          ++ [StartElement "updated" []; CharData text; EndElement "updated"]
          ++ elem_string "title" (Contacts.Entry_Title e)
          ++ elem_string "content" (Contacts.Entry_Content e)
          ++ elem_slice (marshal_Link "link") (Contacts.Entry_Links e))%list.
  exists (elem_slice (marshal_InstantMessenger "im") (Contacts.Entry_InstantMessengers e)).
  eexists. split; [rewrite <- !app_assoc; reflexivity|].
  repeat split; no_org.
Qed.

(** Every encoded entry holds a [gd:name] element with a
    [gd:givenName] and a [gd:familyName] child, whatever its name
    holds, and it holds a [gd:organization] element exactly when its
    organization has a relation, a name or a title. *)
Theorem encoded_name_and_organization (e : @Contacts.Entry Time) (doc : string) :
  Contacts.encode e = (doc, None) ->
  (In "gd:name" (tag_names doc)
   /\ In "gd:givenName" (tag_names doc)
   /\ In "gd:familyName" (tag_names doc))
  /\ (In "gd:organization" (tag_names doc)
      <-> Contacts.Entry_Organization e <> mkOrganization "" "" "").
Proof.
  intro He. destruct (encode_print_fixed _ He) as (ts & Hm & Hts & ->).
  rewrite tag_names_print_fixed;
    [| exact Hts | split; reflexivity | intros n Hn; discriminate].
  destruct (marshal_Entry_split _ Hm) as (A1 & A2 & B & -> & HA1 & HN & HA2 & HB).
  set (NAME := marshal_Name "name" (Contacts.Entry_Name e)) in *.
  set (ORG := marshal_Organization "organization" (Contacts.Entry_Organization e)) in *.
  split.
  - destruct (run_name (Contacts.Entry_Name e) (A2 ++ ORG ++ B)%list
                (snd (fixed_run A1 None))) as (H1 & H2 & H3).
    fold NAME in H1, H2, H3.
    rewrite fixed_run_fst_app.
    split; [|split]; apply in_or_app; left; apply in_or_app; right; assumption.
  - assert (Eassoc : (A1 ++ NAME ++ A2 ++ ORG ++ B = (A1 ++ NAME ++ A2) ++ ORG ++ B)%list)
      by (rewrite <- !app_assoc; reflexivity).
    rewrite Eassoc in Hts |- *. clear Eassoc.
    set (A := (A1 ++ NAME ++ A2)%list) in *.
    assert (HA : no_organization A).
    { unfold A. apply no_organization_app; [exact HA1|].
      apply no_organization_app; [exact HN | exact HA2]. }
    apply Forall_app in Hts. destruct Hts as [HtA Hts].
    apply Forall_app in Hts. destruct Hts as [_ HtB].
    assert (Hnone : forall n, @None string = Some n -> In n known_names /\ n <> "organization")
      by (intros n Hn; discriminate).
    destruct (run_without_organization (pending := None) HtA HA Hnone) as [HrA HqA].
    destruct (run_without_organization (pending := None) HtB HB Hnone) as [HrB _].
    destruct (run_organization (Contacts.Entry_Organization e) (pending := snd (fixed_run A None)))
      as (Hq & Hzero & Hsome); [intros n Hn; apply (HqA n Hn)|].
    fold ORG in Hq, Hzero, Hsome.
    rewrite fixed_run_fst_app, fixed_run_snd_app.
    rewrite fixed_run_fst_app, fixed_run_snd_app. rewrite Hq.
    split.
    + intros Hin Hz. rewrite (Hzero Hz) in Hin.
      rewrite <- !app_assoc in Hin. rewrite app_assoc in Hin.
      apply in_app_or in Hin. tauto.
    + intro Hne. apply in_or_app. left. apply in_or_app. right.
      apply in_or_app. left. apply Hsome. exact Hne.
Qed.

End EncodedElements.

(** The organization of [example_entry] is written; that of the zero
    entry is not. *)
Lemma encoded_name_and_organization_witness :
  ((In "gd:name" (tag_names (fst (Contacts.encode example_entry)))
    /\ In "gd:givenName" (tag_names (fst (Contacts.encode example_entry)))
    /\ In "gd:familyName" (tag_names (fst (Contacts.encode example_entry))))
   /\ (In "gd:organization" (tag_names (fst (Contacts.encode example_entry)))
       <-> Contacts.Entry_Organization example_entry <> mkOrganization "" "" ""))
  /\ (In "gd:organization"
        (tag_names (fst (Contacts.encode (@Contacts.Entry_zero TextTime _))))
      <-> Contacts.Entry_Organization (@Contacts.Entry_zero TextTime _)
          <> mkOrganization "" "" "").
Proof.
  split.
  - apply (@encoded_name_and_organization TextTime _ example_entry).
    vm_compute. reflexivity.
  - apply (@encoded_name_and_organization TextTime _ Contacts.Entry_zero).
    vm_compute. reflexivity.
Defined.

(** * [fixXml] on arbitrary text *)

(** A text that holds no [<] is returned as it is, by the [fixXml] of
    either client: the pass changes tags only, and the empty text is
    left empty. *)
Theorem fixXml_keeps_text (w : string) :
  has_byte "<" w = false ->
  Contacts.fixXml w = w /\ ContactsV1.fixXml w = w.
Proof.
  intro Hw. rewrite fixXml_unfold, fixXml_v1_unfold.
  rewrite <- (append_nil_r w) at 1 3.
  rewrite R_fix_text by exact Hw. rewrite R_nil, append_nil_r. auto.
Qed.

Lemma fixXml_keeps_text_witness :
  Contacts.fixXml "John &amp; Jane" = "John &amp; Jane"
  /\ ContactsV1.fixXml "John &amp; Jane" = "John &amp; Jane".
Proof. apply fixXml_keeps_text. reflexivity. Defined.

(** * The requests of an operation that retries *)

Lemma appends_bind_app {A B} (Q : Trace -> Prop) (m : M A) (k : A -> M B) :
  (forall a b, Q a -> Q b -> Q (a ++ b)%list) ->
  appends Q m -> (forall a, appends Q (k a)) -> appends Q (bind m k).
Proof.
  intros Happ Hm Hk t. destruct (Hm t) as (l1 & Hl1 & H1).
  unfold bind. destruct (m t) as [[a|] t1]; cbn in Hl1; subst t1.
  - destruct (Hk a (t ++ l1)%list) as (l2 & Hl2 & H2).
    exists (l1 ++ l2)%list. rewrite Hl2, app_assoc. auto.
  - exists l1. auto.
Qed.

Lemma appends_both {A} (P Q : Trace -> Prop) (m : M A) :
  appends P m -> appends Q m -> appends (fun l => P l /\ Q l) m.
Proof.
  intros HP HQ t. destruct (HP t) as (l & Hl & H1). destruct (HQ t) as (l' & Hl' & H2).
  rewrite Hl in Hl'. apply app_inv_head in Hl'. subst l'. eauto.
Qed.

(** Every request satisfies [P]. *)
Definition all_requests (P : Request -> Prop) (l : Trace) : Prop :=
  Forall P (requests l).

Lemma all_requests_app (P : Request -> Prop) (a b : Trace) :
  all_requests P a -> all_requests P b -> all_requests P (a ++ b)%list.
Proof.
  unfold all_requests. intros Ha Hb. rewrite requests_app. apply Forall_app. auto.
Qed.

Lemma all_requests_auth (P : Request -> Prop) (l : Trace) :
  Forall auth_call l -> all_requests P l.
Proof.
  unfold all_requests. induction 1 as [|c l Hc _ IH]; [constructor|].
  destruct c; try contradiction; exact IH.
Qed.

Lemma all_requests_one (P : Request -> Prop) (l : Trace) :
  one_request P l -> all_requests P l.
Proof.
  intros [-> | (req & -> & H)]; [constructor | repeat constructor; exact H].
Qed.

(** The requests of the shape of one retry are those of its
    attempts. *)
Lemma with_retry_requests {A} (P : Request -> Prop) (am : AuthManager)
    (attempt : string -> M (A * option error)) (nil : A) :
  manager_internal am ->
  (forall tok, appends (one_request P) (attempt tok)) ->
  appends (fun l => all_requests P l /\ bounded 1 2 l) (with_retry am attempt nil).
Proof.
  intros Ham Hattempt.
  assert (Hsingle : single_request attempt).
  { intro tok. eapply appends_weaken; [|apply Hattempt].
    intros l Hl. eapply one_request_impl; [|exact Hl]. auto. }
  apply appends_both; [|apply with_retry_bounded; assumption].
  assert (Hret : forall B (b : B), appends (all_requests P) (ret b))
    by (intros B b; apply appends_ret; constructor).
  assert (Htry : forall tok, appends (all_requests P) (attempt tok)).
  { intro tok. eapply appends_weaken; [|apply Hattempt]. apply all_requests_one. }
  unfold with_retry.
  apply appends_bind_app; [apply all_requests_app | |].
  { eapply appends_weaken; [|apply (call_AccessToken_appends Ham)].
    intros l (l' & -> & Hl'). apply (all_requests_auth P Hl'). }
  intros [tok1 [e|]]; [apply Hret|].
  apply appends_bind_app; [apply all_requests_app | apply Htry |].
  intros [data [e|]]; [|apply Hret].
  apply appends_bind_app; [apply all_requests_app | |].
  { eapply appends_weaken; [|apply (call_Renew_appends Ham)].
    intros l (l' & -> & Hl'). apply (all_requests_auth P Hl'). }
  intros [tok2 [e2|]]; [apply Hret|].
  apply appends_bind_app; [apply all_requests_app | apply Htry |].
  intros [data2 [e3|]]; apply Hret.
Qed.

(** * The earlier client's save, and the program built on it *)

Lemma snd_bind_pure {A B} (m : M A) (k : A -> M B) (t : Trace) :
  (forall a t', snd (k a t') = t') -> snd (bind m k t) = snd (m t).
Proof.
  intro Hk. unfold bind. destruct (m t) as [[a|] t1]; [apply Hk | reflexivity].
Qed.

Section EarlierSave.

Context {Time : Type}.
Context {zero : ZeroValue Time}.
Context {marshaler : TextMarshaler Time}.
Context {parser : url_Parser}.
Context {entry_decoder : xml_Unmarshaler (@ContactsV1.Entry Time)}.
Context {feed_decoder : xml_Unmarshaler (@ContactsV1.Feed Time)}.

Variable c : ContactsV1.Client.

(** The URL of the entry [id] for the token [tok]. *)
Definition entry_url (id tok : string) : string :=
  (if ContactsV1.Client_DisableHTTPS c then "http" else "https")
  ++ "://www.google.com/m8/feeds/contacts/default/full/" ++ id
  ++ "?access_token=" ++ url_QueryEscape tok.

Lemma saveContact_request_v1 (tok : string) (entry : ContactsV1.Entry) :
  appends
    (one_request (fun req =>
       write_request (ContactsV1.Entry_ETag entry) req
       /\ ReqBody req = fst (ContactsV1.encode entry)
       /\ forall id, ContactsV1.GetId entry = Some id -> URL req = entry_url id tok))
    (ContactsV1.saveContact c tok entry).
Proof.
  intro t. unfold ContactsV1.saveContact.
  destruct (ContactsV1.encode entry) as [xmlString [e|]].
  - exists []. cbn. rewrite app_nil_r. split; [reflexivity | left; reflexivity].
  - destruct (ContactsV1.GetId entry) as [id|].
    2:{ exists []. cbn. rewrite app_nil_r. split; [reflexivity | left; reflexivity]. }
    cbn [deref]. unfold bind at 1. cbn [ret]. cbv beta iota.
    unfold http_NewRequest.
    destruct (url_Parse _) as [e|].
    + exists []. cbn. rewrite app_nil_r. split; [reflexivity | left; reflexivity].
    + cbn [deref]. unfold bind at 1. cbn [ret]. cbv beta iota.
      set (req := Request_Header_Add _ _ _).
      exists [CallDo req]. split.
      * unfold bind, HTTPClient_Do, call.
        destruct (Do (ContactsV1.Client_HTTPClient c) req (t ++ [CallDo req])%list) as [resp|e];
          [destruct (StatusCode resp >=? 300)%Z; [|destruct (BodyErr resp)]|]; reflexivity.
      * right. exists req. split; [reflexivity|]. subst req. unfold write_request.
        cbn [Method URL ReqBody ReqHeader Request_Header_Add fst].
        repeat split; try reflexivity.
        intros id' Hid. injection Hid as <-. unfold entry_url.
        destruct (ContactsV1.Client_DisableHTTPS c); reflexivity.
Qed.

(** In the earlier client, the request that saves an entry is a PUT
    of the encoded entry to the URL made of the feed path, the last
    segment of the entry's [Id] and the query-escaped token: the URL
    that [fetchContact] requests for that segment. *)
Theorem earlier_save_request (tok id : string) (entry : ContactsV1.Entry) :
  ContactsV1.GetId entry = Some id ->
  appends
    (one_request (fun req =>
       Method req = "PUT" /\ URL req = entry_url id tok
       /\ ReqBody req = fst (ContactsV1.encode entry)))
    (ContactsV1.saveContact c tok entry)
  /\
  appends (one_request (fun req => URL req = entry_url id tok))
    (ContactsV1.fetchContact c tok id).
Proof.
  intro Hid. split.
  - eapply appends_weaken; [|apply saveContact_request_v1].
    intros l Hl. eapply one_request_impl; [|exact Hl].
    intros req ((Hm & _) & Hb & Hu). auto.
  - eapply appends_weaken; [|apply get_appends_v1].
    intros l Hl. eapply one_request_impl; [|exact Hl].
    intros req [_ Hu]. rewrite Hu. unfold entry_url, ContactsV1.basePath.
    destruct (ContactsV1.Client_DisableHTTPS c); reflexivity.
Qed.

End EarlierSave.

Section Program.

Context {Time : Type}.
Context {zero : ZeroValue Time}.
Context {marshaler : TextMarshaler Time}.
Context {parser : url_Parser}.
Context {entry_decoder : xml_Unmarshaler (@ContactsV1.Entry Time)}.
Context {feed_decoder : xml_Unmarshaler (@ContactsV1.Feed Time)}.

Variable FileAuthStorage : string -> AuthStorage.
Variable StandardAccessTokenRetriever : string -> string -> AccessTokenRetriever.
Variable http_DefaultClient : HTTPClient.

Abbreviation main := (Main.main FileAuthStorage StandardAccessTokenRetriever http_DefaultClient).
Abbreviation apiClient :=
  (Main.apiClient FileAuthStorage StandardAccessTokenRetriever http_DefaultClient).

(** The program checks its arguments before it calls anything: a
    [fetch] or an [update_nickname] without contact identifier and an
    [update_nickname] with [--raw] write one line and exit with status
    1, and a command that is none of the three writes nothing and
    exits with status 0; in each case no call is made. *)
Theorem main_checks_arguments (args : Main.Args) (t : Trace) :
  (Main.Command args = "fetch" -> Main.ContactId args = "" ->
   main args t = (Some ([Main.Println "Contact ID must be specified"], 1%Z), t))
  /\ (Main.Command args = "update_nickname" -> Main.Raw args = true ->
      main args t = (Some ([Main.Println "update_nickname doesn't support --raw"], 1%Z), t))
  /\ (Main.Command args = "update_nickname" -> Main.Raw args = false ->
      Main.ContactId args = "" ->
      main args t = (Some ([Main.Println "Contact ID must be specified"], 1%Z), t))
  /\ (Main.Command args <> "fetch_feed" -> Main.Command args <> "fetch" ->
      Main.Command args <> "update_nickname" ->
      main args t = (Some ([], 0%Z), t)).
Proof.
  unfold Main.main. repeat split.
  - intros -> ->. reflexivity.
  - intros -> ->. reflexivity.
  - intros -> -> ->. reflexivity.
  - intros H1 H2 H3. apply String.eqb_neq in H1, H2, H3. rewrite H1, H2, H3. reflexivity.
Qed.

(** The update of a nickname: once [FetchContact] has returned an
    entry, every request the program sends is a PUT of that entry with
    its nickname replaced, under the entity tag that was fetched; the
    program sends at most two of them and calls [Renew] at most
    once. *)
Theorem update_nickname_requests (args : Main.Args) (t t1 : Trace)
    (entry : ContactsV1.Entry) :
  Main.Command args = "update_nickname" ->
  Main.Raw args = false ->
  Main.ContactId args <> "" ->
  ContactsV1.FetchContact (apiClient args) (Main.ContactId args) t
  = (Some (Some entry, None), t1) ->
  exists l,
    snd (main args t) = (t1 ++ l)%list
    /\ all_requests (fun req =>
         write_request (ContactsV1.Entry_ETag entry) req
         /\ ReqBody req
            = fst (ContactsV1.encode (Main.set_Nickname entry (Main.Value args)))) l
    /\ bounded 1 2 l.
Proof.
  intros Hc Hr Hid Hfetch. apply String.eqb_neq in Hid.
  unfold Main.main. rewrite Hc, Hr, Hid. cbn [String.eqb Ascii.eqb Bool.eqb].
  unfold bind at 1. rewrite Hfetch. cbv beta iota. cbn [deref].
  unfold bind at 1. cbn [ret]. cbv beta iota.
  rewrite snd_bind_pure by (intros [u [e|]] t'; reflexivity).
  set (entry' := Main.set_Nickname entry (Main.Value args)).
  change (ContactsV1.Save (apiClient args) entry')
    with (with_retry (ContactsV1.Client_AuthManager (apiClient args))
            (fun accessToken => ContactsV1.saveContact (apiClient args) accessToken entry')
            None).
  destruct (@with_retry_requests _
              (fun req => write_request (ContactsV1.Entry_ETag entry) req
                          /\ ReqBody req = fst (ContactsV1.encode entry'))
              (ContactsV1.Client_AuthManager (apiClient args))
              (fun accessToken => ContactsV1.saveContact (apiClient args) accessToken entry')
              None) with (t := t1) as (l & Hl & Hreq & Hb).
  - apply StandardAuthManager_internal.
  - intro tok. eapply appends_weaken; [|apply saveContact_request_v1].
    intros l Hl. eapply one_request_impl; [|exact Hl].
    intros req (Hw & Hbody & _). auto.
  - exists l. auto.
Qed.

End Program.

(** The save of [example_entryV1], whose local identifier is
    [abc123]. *)
Lemma earlier_save_request_witness :
  appends
    (one_request (fun req =>
       Method req = "PUT"
       /\ URL req = entry_url (example_clientV1 always_ok) "abc123" "tok"
       /\ ReqBody req = fst (ContactsV1.encode example_entryV1)))
    (ContactsV1.saveContact (example_clientV1 always_ok) "tok" example_entryV1)
  /\
  appends
    (one_request (fun req => URL req = entry_url (example_clientV1 always_ok) "abc123" "tok"))
    (ContactsV1.fetchContact (example_clientV1 always_ok) "tok" "abc123").
Proof.
  apply (earlier_save_request (Time := TextTime) (example_clientV1 always_ok) "tok"
           (id := "abc123") example_entryV1).
  reflexivity.
Defined.

(** Four command lines that the program turns down or ignores. *)
Lemma main_checks_arguments_witness :
  example_main (Main.mkArgs "id" "secret" false "auth.json" "fetch" "" "") []
  = (Some ([Main.Println "Contact ID must be specified"], 1%Z), [])
  /\ example_main (Main.mkArgs "id" "secret" true "auth.json" "update_nickname" "abc123" "J") []
     = (Some ([Main.Println "update_nickname doesn't support --raw"], 1%Z), [])
  /\ example_main (Main.mkArgs "id" "secret" false "auth.json" "update_nickname" "" "J") []
     = (Some ([Main.Println "Contact ID must be specified"], 1%Z), [])
  /\ example_main (Main.mkArgs "id" "secret" false "auth.json" "delete" "abc123" "") []
     = (Some ([], 0%Z), []).
Proof.
  unfold example_main. split; [|split; [|split]].
  - apply (proj1 (main_checks_arguments (Time := TextTime) _ _ _ _ _)); reflexivity.
  - apply (proj1 (proj2 (main_checks_arguments (Time := TextTime) _ _ _ _ _))); reflexivity.
  - apply (proj1 (proj2 (proj2 (main_checks_arguments (Time := TextTime) _ _ _ _ _))));
      reflexivity.
  - apply (proj2 (proj2 (proj2 (main_checks_arguments (Time := TextTime) _ _ _ _ _))));
      discriminate.
Defined.

(** The run of [update_nickname abc123 Johnny]. *)
Lemma update_nickname_requests_witness :
  exists l,
    snd (example_main example_args [])
    = (snd (ContactsV1.FetchContact (example_apiClient example_args) "abc123" []) ++ l)%list
    /\ all_requests (fun req =>
         write_request "" req
         /\ ReqBody req
            = fst (ContactsV1.encode (Main.set_Nickname ContactsV1.Entry_zero "Johnny"))) l
    /\ bounded 1 2 l.
Proof.
  apply (update_nickname_requests (Time := TextTime)
           (fun _ => memStorage (mkAuthDetails "r" "stale"))
           (fun _ _ => constRetriever "fresh") always_ok example_args
           [] (entry := ContactsV1.Entry_zero)).
  - reflexivity.
  - reflexivity.
  - discriminate.
  - reflexivity.
Defined.

(** * What the encoder does not keep *)







Section Lossy.

Context {Time : Type}.
Context {marshaler : TextMarshaler Time}.



End Lossy.


(** * [fixXml] on a document it has already fixed *)

Lemma R_fixed_close (n X : string) :
  In n known_names ->
  Replace_pairs fixXml_table ("</" ++ fix_name n ++ ">" ++ X) 0
  = "</" ++ fix_name n ++ ">" ++ Replace_pairs fixXml_table X 0.
Proof.
  intro Hn. each_known_name Hn ltac:(R_compute).
Qed.

Lemma R_fixed_open_attr (n X : string) :
  In n known_names ->
  Replace_pairs fixXml_table ("<" ++ fix_name n ++ " " ++ X) 0
  = "<" ++ fix_name n ++ " " ++ Replace_pairs fixXml_table X 0.
Proof.
  intro Hn. each_known_name Hn ltac:(R_compute).
Qed.

Lemma R_fixed_open (n X : string) :
  In n known_names ->
  Replace_pairs fixXml_table ("<" ++ fix_name n ++ ">" ++ X) 0
  = "<" ++ fix_name n ++ ">" ++ Replace_pairs fixXml_table X 0.
Proof.
  intro Hn. each_known_name Hn ltac:(R_compute).
Qed.

Lemma R_flush (pending : option string) (Y : string) :
  (forall n, pending = Some n -> In n known_names) ->
  Replace_pairs fixXml_table (flush pending ++ Y) 0
  = flush pending ++ Replace_pairs fixXml_table Y 0.
Proof.
  intro Hp. destruct pending as [n|]; unfold flush; [|reflexivity].
  rewrite !append_assoc. apply R_fixed_open. auto.
Qed.

Lemma R_fixed_start_tag (m : string) (attr : list (string * string)) (X : string) :
  token_ok (StartElement m attr) -> attr <> [] ->
  Replace_pairs fixXml_table ("<" ++ fix_name m ++ write_attrs attr ++ ">" ++ X) 0
  = "<" ++ fix_name m ++ write_attrs attr ++ ">" ++ Replace_pairs fixXml_table X 0.
Proof.
  intros [Hm Ha] Hne.
  destruct (write_attrs_space Hne) as [A HA].
  pose proof (write_attrs_no_lt Ha) as Hno. rewrite HA in Hno |- *.
  cbn in Hno.
  replace (String " " A ++ ">" ++ X) with (" " ++ (A ++ ">") ++ X)
    by (cbn; now rewrite append_assoc).
  rewrite R_fixed_open_attr by exact Hm.
  rewrite R_fix_text.
  - cbn. now rewrite append_assoc.
  - rewrite has_byte_app, Hno. reflexivity.
Qed.

(** The pass leaves the text it made of the printer's text as it
    is. *)
Lemma R_print_fixed (ts : list Token) :
  forall p pending,
    Forall token_ok ts -> printer_ok p ->
    (forall n, pending = Some n -> In n known_names) ->
    Replace_pairs fixXml_table (print_fixed ts p pending) 0 = print_fixed ts p pending.
Proof.
  induction ts as [|t ts IH]; intros p pending Hts Hp Hpend.
  - cbn [print_fixed]. rewrite <- (append_nil_r (flush pending)).
    rewrite R_flush by exact Hpend. reflexivity.
  - inversion Hts as [|? ? Ht Hts']; subst.
    assert (Hnone : forall n : string, @None string = Some n -> In n known_names)
      by (intros n Hn; discriminate).
    destruct t as [m attr | m | d]; cbn [print_fixed].
    + rewrite (writeIndent_start Hp).
      set (p' := mkprinter "" "  " (depth p + 1) true true).
      assert (Hp' : printer_ok p') by (split; reflexivity).
      rewrite R_flush by exact Hpend.
      rewrite R_fix_text by apply indentation_no_lt.
      do 2 f_equal.
      destruct attr as [|a attr].
      * destruct (elidable m) eqn:Em.
        -- apply IH; auto. intros n Hn. inversion Hn; subst. destruct Ht; auto.
        -- rewrite R_fixed_open by (destruct Ht; auto). rewrite IH; auto.
      * rewrite R_fixed_start_tag by (auto; discriminate). rewrite IH; auto.
    + rewrite (writeIndent_end Hp).
      destruct (indentedIn p).
      * set (p' := mkprinter "" "  " (depth p - 1) false (putNewline p)).
        assert (Hp' : printer_ok p') by (split; reflexivity).
        destruct pending as [n|].
        -- destruct (String.eqb m n && String.eqb "" "")%bool.
           ++ apply IH; auto.
           ++ rewrite R_flush by exact Hpend.
              change ("" ++ "</" ++ fix_name m ++ ">" ++ print_fixed ts p' None)
                with ("</" ++ fix_name m ++ ">" ++ print_fixed ts p' None).
              rewrite R_fixed_close by exact Ht. rewrite IH; auto.
        -- change ("" ++ "</" ++ fix_name m ++ ">" ++ print_fixed ts p' None)
             with ("</" ++ fix_name m ++ ">" ++ print_fixed ts p' None).
           rewrite R_fixed_close by exact Ht. rewrite IH; auto.
      * set (p' := mkprinter "" "  " (depth p - 1) false true).
        assert (Hp' : printer_ok p') by (split; reflexivity).
        destruct pending as [n|].
        -- destruct (String.eqb m n && String.eqb _ "")%bool.
           ++ apply IH; auto.
           ++ rewrite R_flush by exact Hpend.
              rewrite R_fix_text by apply indentation_no_lt.
              rewrite R_fixed_close by exact Ht. rewrite IH; auto.
        -- rewrite R_fix_text by apply indentation_no_lt.
           rewrite R_fixed_close by exact Ht. rewrite IH; auto.
    + destruct (String.eqb (EscapeText d) "").
      * apply IH; auto.
      * rewrite R_flush by exact Hpend.
        rewrite R_fix_text by apply EscapeText_no_lt. rewrite IH; auto.
Qed.

Section Idempotent.

Context {Time : Type}.
Context {marshaler : TextMarshaler Time}.

(** [fixXml] changes nothing in a document the encoder has produced:
    a second pass finds no tag to rename and no element to remove. *)
Theorem fixXml_idempotent (e : @Contacts.Entry Time) (doc : string) :
  Contacts.encode e = (doc, None) -> Contacts.fixXml doc = doc.
Proof.
  intro He. destruct (encode_print_fixed _ He) as (ts & _ & Hts & ->).
  rewrite fixXml_unfold. apply R_print_fixed; auto.
  - split; reflexivity.
  - intros n Hn. discriminate.
Qed.

End Idempotent.

Lemma fixXml_idempotent_witness :
  Contacts.fixXml (fst (Contacts.encode example_entry)) = fst (Contacts.encode example_entry).
Proof.
  apply (@fixXml_idempotent TextTime _ example_entry). vm_compute. reflexivity.
Defined.

(** * The encoder of the earlier client *)

Lemma marshal_StructuredPostalAddress_v1_ok name v :
  In name known_names -> Forall token_ok (ContactsV1.marshal_StructuredPostalAddress name v).
Proof. intro Hname. marshal_ok ContactsV1.marshal_StructuredPostalAddress. Qed.

Lemma marshal_GroupMembershipInfo_v1_ok name v :
  In name known_names -> Forall token_ok (ContactsV1.marshal_GroupMembershipInfo name v).
Proof. intro Hname. marshal_ok ContactsV1.marshal_GroupMembershipInfo. Qed.

Section EarlierEncoder.

Context {Time : Type}.
Context {marshaler : TextMarshaler Time}.

Lemma marshal_Entry_v1_ok (e : @ContactsV1.Entry Time) (ts : list Token) :
  ContactsV1.marshal_Entry e = (ts, None) -> Forall token_ok ts.
Proof.
  unfold ContactsV1.marshal_Entry, elem_text.
  destruct (MarshalText (ContactsV1.Entry_Updated e)) as [text [err|]]; [discriminate|].
  intro E. inversion E. subst ts. clear E.
  unfold elem_string, attr_string. tokens_ok;
    first [ apply marshal_Link_ok | apply marshal_InstantMessenger_ok
          | apply marshal_Email_ok | apply marshal_PhoneNumber_ok
          | apply marshal_StructuredPostalAddress_v1_ok | apply marshal_ExtendedProperty_ok
          | apply marshal_Event_ok | apply marshal_Relation_ok
          | apply marshal_UserDefinedField_ok | apply marshal_Website_ok
          | apply marshal_GroupMembershipInfo_v1_ok
          | unfold elem_string_omitempty, attr_string_omitempty; tokens_ok;
            unfold elem_string, attr_string; tokens_ok ];
    apply known; reflexivity.
Qed.

Lemma encode_print_fixed_v1 (e : @ContactsV1.Entry Time) (doc : string) :
  ContactsV1.encode e = (doc, None) ->
  exists ts,
    ContactsV1.marshal_Entry e = (ts, None)
    /\ Forall token_ok ts
    /\ doc = print_fixed ts (mkprinter "" "  " 0 false false) None.
Proof.
  unfold ContactsV1.encode, ContactsV1.xml_MarshalIndent.
  destruct (ContactsV1.marshal_Entry e) as [ts [err|]] eqn:Em; [discriminate|].
  intro E. inversion E. subst doc. clear E.
  exists ts. pose proof (marshal_Entry_v1_ok _ Em) as Hts.
  repeat split; auto. rewrite fixXml_v1_unfold.
  apply (fixXml_print Hts (p := mkprinter "" "  " 0 false false) (pending := None)).
  - split; reflexivity.
  - intros n Hn. discriminate.
Qed.

Lemma marshal_Entry_split_v1 (e : @ContactsV1.Entry Time) (ts : list Token) :
  ContactsV1.marshal_Entry e = (ts, None) ->
  exists A1 A2 B,
    ts = (A1 ++ marshal_Name "name" (ContactsV1.Entry_Name e)
          ++ A2 ++ marshal_Organization "organization" (ContactsV1.Entry_Organization e)
          ++ B)%list
    /\ no_organization A1
    /\ no_organization (marshal_Name "name" (ContactsV1.Entry_Name e))
    /\ no_organization A2
    /\ no_organization B.
Proof.
  unfold ContactsV1.marshal_Entry, elem_text.
  destruct (MarshalText (ContactsV1.Entry_Updated e)) as [text [err|]]; [discriminate|].
  intro E. apply (f_equal fst) in E. cbn [fst] in E. subst ts.
  exists ([StartElement "entry" (attr_string "etag" (ContactsV1.Entry_ETag e))]
          ++ elem_string "id" (ContactsV1.Entry_Id e)
          ++ [StartElement "updated" []; CharData text; EndElement "updated"]
          ++ elem_string "title" (ContactsV1.Entry_Title e)
          ++ elem_string "content" (ContactsV1.Entry_Content e)
          ++ elem_slice (marshal_Link "link") (ContactsV1.Entry_Links e))%list.
  exists (elem_slice (marshal_InstantMessenger "im") (ContactsV1.Entry_InstantMessengers e)).
  eexists. split; [rewrite <- !app_assoc; reflexivity|].
  repeat split; no_org;
    unfold ContactsV1.marshal_StructuredPostalAddress, ContactsV1.marshal_GroupMembershipInfo;
    no_org.
Qed.

(** The encoder of the earlier client writes its documents as the
    later one does: every tag of the two enumerations carries its
    prefix and no other tag has one, a second pass of [fixXml] changes
    nothing, the [gd:name] element is always written, and the
    [gd:organization] element is written exactly when the organization
    is not empty. *)
Theorem earlier_encoded_document (e : @ContactsV1.Entry Time) (doc : string) :
  ContactsV1.encode e = (doc, None) ->
  forallb name_ok (tag_names doc) = true
  /\ ContactsV1.fixXml doc = doc
  /\ In "gd:name" (tag_names doc)
  /\ (In "gd:organization" (tag_names doc)
      <-> ContactsV1.Entry_Organization e <> mkOrganization "" "" "").
Proof.
  intro He. destruct (encode_print_fixed_v1 _ He) as (ts & Hm & Hts & ->).
  assert (Hp : printer_ok (mkprinter "" "  " 0 false false)) by (split; reflexivity).
  split; [|split].
  - apply print_fixed_names; auto. intros n Hn. discriminate.
  - rewrite fixXml_v1_unfold. apply R_print_fixed; auto. intros n Hn. discriminate.
  - rewrite tag_names_print_fixed; [| exact Hts | exact Hp | intros n Hn; discriminate].
    destruct (marshal_Entry_split_v1 _ Hm) as (A1 & A2 & B & -> & HA1 & HN & HA2 & HB).
    set (NAME := marshal_Name "name" (ContactsV1.Entry_Name e)) in *.
    set (ORG := marshal_Organization "organization" (ContactsV1.Entry_Organization e)) in *.
    split.
    + destruct (run_name (ContactsV1.Entry_Name e) (A2 ++ ORG ++ B)%list
                  (snd (fixed_run A1 None))) as (H1 & _).
      fold NAME in H1. rewrite fixed_run_fst_app.
      apply in_or_app; left; apply in_or_app; right; assumption.
    + assert (Eassoc : (A1 ++ NAME ++ A2 ++ ORG ++ B = (A1 ++ NAME ++ A2) ++ ORG ++ B)%list)
        by (rewrite <- !app_assoc; reflexivity).
      rewrite Eassoc in Hts |- *. clear Eassoc.
      set (A := (A1 ++ NAME ++ A2)%list) in *.
      assert (HA : no_organization A).
      { unfold A. apply no_organization_app; [exact HA1|].
        apply no_organization_app; [exact HN | exact HA2]. }
      apply Forall_app in Hts. destruct Hts as [HtA Hts].
      apply Forall_app in Hts. destruct Hts as [_ HtB].
      assert (Hnone : forall n, @None string = Some n -> In n known_names /\ n <> "organization")
        by (intros n Hn; discriminate).
      destruct (run_without_organization (pending := None) HtA HA Hnone) as [HrA HqA].
      destruct (run_without_organization (pending := None) HtB HB Hnone) as [HrB _].
      destruct (run_organization (ContactsV1.Entry_Organization e)
                  (pending := snd (fixed_run A None)))
        as (Hq & Hzero & Hsome); [intros n Hn; apply (HqA n Hn)|].
      fold ORG in Hq, Hzero, Hsome.
      rewrite fixed_run_fst_app, fixed_run_snd_app.
      rewrite fixed_run_fst_app, fixed_run_snd_app. rewrite Hq.
      split.
      * intros Hin Hz. rewrite (Hzero Hz) in Hin.
        rewrite <- !app_assoc in Hin. rewrite app_assoc in Hin.
        apply in_app_or in Hin. tauto.
      * intro Hne. apply in_or_app. left. apply in_or_app. right.
        apply in_or_app. left. apply Hsome. exact Hne.
Qed.

End EarlierEncoder.

Lemma earlier_encoded_document_witness :
  forallb name_ok (tag_names (fst (ContactsV1.encode example_entryV1))) = true
  /\ ContactsV1.fixXml (fst (ContactsV1.encode example_entryV1))
     = fst (ContactsV1.encode example_entryV1)
  /\ In "gd:name" (tag_names (fst (ContactsV1.encode example_entryV1)))
  /\ (In "gd:organization" (tag_names (fst (ContactsV1.encode example_entryV1)))
      <-> ContactsV1.Entry_Organization example_entryV1 <> mkOrganization "" "" "").
Proof.
  apply (@earlier_encoded_document TextTime _ example_entryV1). vm_compute. reflexivity.
Defined.
